(** * deltafs-plfsdir-runner: the epoch-synchronised write driver

    A shallow embedding of [deltafs-plfsdir-runner.cc] (the latest of the
    two revisions kept in the source file) and the properties of its
    configuration descriptor, its record keys, its per-epoch write protocol,
    its command-line validation and its watchdog.

    The program talks to three collaborators that are not part of it: the
    deltafs plfsdir library, the MPI runtime and the operating system
    (signal, alarm).  Their answers are supplied by a [world]; the calls the
    program makes and the lines it prints are recorded in a trace. *)

From Stdlib Require Import ZArith NArith List String Ascii Bool Lia Arith.
Import ListNotations.

Local Open Scope string_scope.
Local Open Scope Z_scope.

(* ================================================================== *)
(** * Formatting: what snprintf, %d, %08x and atoi compute *)
(* ================================================================== *)

Module Fmt.

(** "0123456789abcdef"[d] *)
Definition digit_char (d : Z) : ascii :=
  match d with
  | 0 => "0" | 1 => "1" | 2 => "2" | 3 => "3" | 4 => "4"
  | 5 => "5" | 6 => "6" | 7 => "7" | 8 => "8" | 9 => "9"
  | 10 => "a" | 11 => "b" | 12 => "c" | 13 => "d" | 14 => "e"
  | _ => "f"
  end%char.

(** Digits of [n] in base [base], least significant first: the loop
    [do { *--p = digit[n % base]; n /= base; } while (n);].  [fuel] bounds
    the number of further divisions. *)
Fixpoint digits_le (base : Z) (fuel : nat) (n : Z) : list Z :=
  n mod base ::
  match fuel with
  | O => []
  | S f => if n / base =? 0 then [] else digits_le base f (n / base)
  end.

(** The number a little-endian digit list denotes. *)
Fixpoint value_le (base : Z) (ds : list Z) : Z :=
  match ds with
  | [] => 0
  | d :: ds' => d + base * value_le base ds'
  end.

(** Unsigned conversion in [base]; [Z.log2 n] further divisions are enough
    for every base from 2 on (lemma [digits_le_value]). *)
Definition utoa (base : Z) (n : Z) : string :=
  string_of_list_ascii
    (map digit_char (rev (digits_le base (Z.to_nat (Z.log2 n)) n))).

(** [%d] of an [int]. *)
Definition itoa (z : Z) : string :=
  if z <? 0 then String "-" (utoa 10 (- z)) else utoa 10 z.

(** [std::string(n, c)] *)
Fixpoint replicate (n : nat) (c : ascii) : string :=
  match n with
  | O => ""
  | S n' => String c (replicate n' c)
  end.

(** [%08x]: the argument is read as an [unsigned int], printed in
    hexadecimal and padded on the left with zeros to at least 8 columns. *)
Definition to_unsigned (z : Z) : Z := z mod 2 ^ 32.

Definition zero_pad (width : nat) (s : string) : string :=
  replicate (width - String.length s) "0" ++ s.

Definition hex08 (z : Z) : string := zero_pad 8 (utoa 16 (to_unsigned z)).

(** The first [n] characters of [s]. *)
Definition take (n : nat) (s : string) : string := substring 0 n s.

(** [snprintf(buf, size, ...)] where the formatted text is [s]: the text
    left in [buf] ([size - 1] characters at most, and nothing when [size]
    is 0) and the returned count, the length of the untruncated text. *)
Definition snprintf (size : Z) (s : string) : option string * Z :=
  (if size <=? 0 then None else Some (take (Z.to_nat (size - 1)) s),
   Z.of_nat (String.length s)).

(** Conversion of a value to [int] (two's complement, 32 bits). *)
Definition to_int (z : Z) : Z := (z + 2 ^ 31) mod 2 ^ 32 - 2 ^ 31.

Definition int_range (z : Z) : Prop := - 2 ^ 31 <= z < 2 ^ 31.

(** [atoi]: leading white space, an optional sign, then decimal digits up
    to the first other character.  Outside the range of [int] the C standard
    leaves the result open; this is [(int) strtol(s, NULL, 10)] with a
    64-bit [long], as glibc computes it. *)
Definition isspace (c : ascii) : bool :=
  let n := nat_of_ascii c in
  (Nat.eqb n 32 || (Nat.leb 9 n && Nat.leb n 13))%bool.

Definition isdigit (c : ascii) : bool :=
  let n := nat_of_ascii c in (Nat.leb 48 n && Nat.leb n 57)%bool.

Fixpoint skip_space (s : string) : string :=
  match s with
  | String c s' => if isspace c then skip_space s' else s
  | EmptyString => s
  end.

Fixpoint digits_value (s : string) (acc : Z) : Z :=
  match s with
  | String c s' =>
      if isdigit c
      then digits_value s' (acc * 10 + (Z.of_nat (nat_of_ascii c) - 48))
      else acc
  | EmptyString => acc
  end.

Definition clamp_long (z : Z) : Z := Z.max (- 2 ^ 63) (Z.min (2 ^ 63 - 1) z).

Definition strtol10 (s : string) : Z :=
  match skip_space s with
  | String "-" s' => clamp_long (- digits_value s' 0)
  | String "+" s' => clamp_long (digits_value s' 0)
  | s' => clamp_long (digits_value s' 0)
  end.

Definition atoi (s : string) : Z := to_int (strtol10 s).

(** Reading digits back: the value of a digit character, and the number a
    string of digits denotes in [base]. *)
Definition digit_val (c : ascii) : Z :=
  match c with
  | "0" => 0 | "1" => 1 | "2" => 2 | "3" => 3 | "4" => 4
  | "5" => 5 | "6" => 6 | "7" => 7 | "8" => 8 | "9" => 9
  | "a" => 10 | "b" => 11 | "c" => 12 | "d" => 13 | "e" => 14
  | "f" => 15 | _ => 0
  end%char.

Definition read_digits (base : Z) (s : string) : Z :=
  value_le base (rev (map digit_val (list_ascii_of_string s))).

End Fmt.

(* ================================================================== *)
(** * Data: the globals of the program *)
(* ================================================================== *)

(** [struct gs]: shared global data (from the command line). *)
Record gs := mkgs {
  bg : Z;
  bbos : Z;
  bbosport : Z;
  bboshostname : string;
  dirname : string;
  myrank : Z;
  commsz : Z;
  nepochs : Z;
  nkeys : Z;
  filterbits : Z;
  keysz : Z;
  valsz : Z;
  iosz : Z;
  logrotation : Z;
  timeout : Z;
  v : Z
}.

(** [memset(&g, 0, sizeof(g))] *)
Definition g_zero : gs := mkgs 0 0 0 "" "" 0 0 0 0 0 0 0 0 0 0 0.

Definition set_bg x g := mkgs x (bbos g) (bbosport g) (bboshostname g) (dirname g) (myrank g) (commsz g) (nepochs g) (nkeys g) (filterbits g) (keysz g) (valsz g) (iosz g) (logrotation g) (timeout g) (v g).
Definition set_bbos x g := mkgs (bg g) x (bbosport g) (bboshostname g) (dirname g) (myrank g) (commsz g) (nepochs g) (nkeys g) (filterbits g) (keysz g) (valsz g) (iosz g) (logrotation g) (timeout g) (v g).
Definition set_bbosport x g := mkgs (bg g) (bbos g) x (bboshostname g) (dirname g) (myrank g) (commsz g) (nepochs g) (nkeys g) (filterbits g) (keysz g) (valsz g) (iosz g) (logrotation g) (timeout g) (v g).
Definition set_bboshostname x g := mkgs (bg g) (bbos g) (bbosport g) x (dirname g) (myrank g) (commsz g) (nepochs g) (nkeys g) (filterbits g) (keysz g) (valsz g) (iosz g) (logrotation g) (timeout g) (v g).
Definition set_dirname x g := mkgs (bg g) (bbos g) (bbosport g) (bboshostname g) x (myrank g) (commsz g) (nepochs g) (nkeys g) (filterbits g) (keysz g) (valsz g) (iosz g) (logrotation g) (timeout g) (v g).
Definition set_myrank x g := mkgs (bg g) (bbos g) (bbosport g) (bboshostname g) (dirname g) x (commsz g) (nepochs g) (nkeys g) (filterbits g) (keysz g) (valsz g) (iosz g) (logrotation g) (timeout g) (v g).
Definition set_commsz x g := mkgs (bg g) (bbos g) (bbosport g) (bboshostname g) (dirname g) (myrank g) x (nepochs g) (nkeys g) (filterbits g) (keysz g) (valsz g) (iosz g) (logrotation g) (timeout g) (v g).
Definition set_nepochs x g := mkgs (bg g) (bbos g) (bbosport g) (bboshostname g) (dirname g) (myrank g) (commsz g) x (nkeys g) (filterbits g) (keysz g) (valsz g) (iosz g) (logrotation g) (timeout g) (v g).
Definition set_nkeys x g := mkgs (bg g) (bbos g) (bbosport g) (bboshostname g) (dirname g) (myrank g) (commsz g) (nepochs g) x (filterbits g) (keysz g) (valsz g) (iosz g) (logrotation g) (timeout g) (v g).
Definition set_filterbits x g := mkgs (bg g) (bbos g) (bbosport g) (bboshostname g) (dirname g) (myrank g) (commsz g) (nepochs g) (nkeys g) x (keysz g) (valsz g) (iosz g) (logrotation g) (timeout g) (v g).
Definition set_keysz x g := mkgs (bg g) (bbos g) (bbosport g) (bboshostname g) (dirname g) (myrank g) (commsz g) (nepochs g) (nkeys g) (filterbits g) x (valsz g) (iosz g) (logrotation g) (timeout g) (v g).
Definition set_valsz x g := mkgs (bg g) (bbos g) (bbosport g) (bboshostname g) (dirname g) (myrank g) (commsz g) (nepochs g) (nkeys g) (filterbits g) (keysz g) x (iosz g) (logrotation g) (timeout g) (v g).
Definition set_iosz x g := mkgs (bg g) (bbos g) (bbosport g) (bboshostname g) (dirname g) (myrank g) (commsz g) (nepochs g) (nkeys g) (filterbits g) (keysz g) (valsz g) x (logrotation g) (timeout g) (v g).
Definition set_logrotation x g := mkgs (bg g) (bbos g) (bbosport g) (bboshostname g) (dirname g) (myrank g) (commsz g) (nepochs g) (nkeys g) (filterbits g) (keysz g) (valsz g) (iosz g) x (timeout g) (v g).
Definition set_timeout x g := mkgs (bg g) (bbos g) (bbosport g) (bboshostname g) (dirname g) (myrank g) (commsz g) (nepochs g) (nkeys g) (filterbits g) (keysz g) (valsz g) (iosz g) (logrotation g) x (v g).
Definition set_v x g := mkgs (bg g) (bbos g) (bbosport g) (bboshostname g) (dirname g) (myrank g) (commsz g) (nepochs g) (nkeys g) (filterbits g) (keysz g) (valsz g) (iosz g) (logrotation g) (timeout g) x.

(** Default values. *)
Definition DEF_TIMEOUT := 300.
Definition DEF_BBOS_HOSTNAME := "127.0.0.1".
Definition DEF_BBOS_PORT := 12345.
Definition DEF_NUM_EPOCHS := 8.
Definition DEF_NUM_KEYS_PER_EPOCH := Z.shiftl 1 10.
Definition DEF_IO_SIZE := Z.shiftl 2 20.
Definition DEF_FILTER_BITS := 10.
Definition DEF_KEY_SIZE := 8.
Definition DEF_VAL_SIZE := 32.

(** Every [int] field holds an [int]. *)
Definition gs_ints (g : gs) : Prop :=
  Fmt.int_range (bg g) /\ Fmt.int_range (bbos g) /\ Fmt.int_range (bbosport g) /\
  Fmt.int_range (myrank g) /\ Fmt.int_range (commsz g) /\
  Fmt.int_range (nepochs g) /\ Fmt.int_range (nkeys g) /\
  Fmt.int_range (filterbits g) /\ Fmt.int_range (keysz g) /\
  Fmt.int_range (valsz g) /\ Fmt.int_range (iosz g) /\
  Fmt.int_range (logrotation g) /\ Fmt.int_range (timeout g) /\
  Fmt.int_range (v g).

(* ================================================================== *)
(** * The collaborators: calls, answers, and the trace of a run *)
(* ================================================================== *)

(** The functions of deltafs, MPI and the operating system that the program
    calls, with the arguments that vary.  The plfsdir handle argument is
    always the global [dir] and is left out, so are the communicator
    (always MPI_COMM_WORLD), the open mode (always O_WRONLY) and the error
    printer. *)
Inductive call :=
| MPI_Init
| MPI_Comm_rank
| MPI_Comm_size
| MPI_Barrier
| MPI_Finalize
| signal_SIGALRM
| alarm (seconds : Z)
| deltafs_env_init (name lo remote : string)
| deltafs_tp_init (n : Z)
| deltafs_plfsdir_create_handle (conf : string)
| deltafs_plfsdir_set_err_printer
| deltafs_plfsdir_set_thread_pool
| deltafs_plfsdir_set_env
| deltafs_plfsdir_open (name : string)
| deltafs_plfsdir_append (fname : string) (epoch : Z) (data : string)
| deltafs_plfsdir_epoch_flush (epoch : Z)
| deltafs_plfsdir_finish
| deltafs_plfsdir_free_handle.

(** What a collaborator answers to one call. *)
Record response := mkresp {
  status : Z;        (** the [int] result: 0 is success and MPI_SUCCESS *)
  handle : Z;        (** the pointer result: 0 is NULL *)
  out : Z;           (** the value stored through an out parameter *)
  errstr : string;   (** [strerror(errno)] once the call has returned *)
  dur : N            (** the seconds the call takes *)
}.

(** The answers of a run, in the order of the calls. *)
Definition world := nat -> response.

(** Seconds taken by the first [n] calls. *)
Fixpoint elapsed (W : world) (n : nat) : Z :=
  match n with
  | O => 0
  | S n' => elapsed W n' + Z.of_N (dur (W n'))
  end.

(** What a run leaves behind, in order: the calls to the collaborators
    and the texts the program prints itself, on stdout through [printopts]
    and [info], on stderr through [complain], [usage] and [sigalarm].
    What others write to stderr is not recorded: the line getopt prints
    for an option it does not know (opterr is left at 1), the message of
    a failed assert, and the lines deltafs sends through the error
    printer it was given ([printerr]) while a call is running.  A
    [Stderr] event is therefore a piece of one of the three diagnostics
    of the program, and a trace without one says nothing about these
    other lines. *)
Inductive event :=
| Call (c : call) (r : response)   (** [c] was called and returned [r] *)
| Pending (c : call)               (** SIGALRM arrived before [c] returned *)
| Stdout (text : string)
| Stderr (text : string).

(** [struct bbos_conf] *)
Record bbos_conf := mkbbos_conf { remote : string; lo : string }.

(** The globals of the program, and the bookkeeping of the run: the armed
    deadline and the number of calls made so far. *)
Record state := mkstate {
  argv0 : string;
  dir : Z;
  env : Z;
  bgp : Z;
  cf : string;
  b : bbos_conf;
  g : gs;
  deadline : option Z;
  ncalls : nat
}.

(** The state the process starts in.  The globals are zeroed; [argv0] is
    a NULL pointer until [main] stores argv[0], and what the state holds
    for it until then is the text glibc prints for a NULL string. *)
Definition initial : state :=
  mkstate "(null)" 0 0 0 "" (mkbbos_conf "" "") g_zero None O.

Definition set_argv0 x s := mkstate x (dir s) (env s) (bgp s) (cf s) (b s) (g s) (deadline s) (ncalls s).
Definition set_dir x s := mkstate (argv0 s) x (env s) (bgp s) (cf s) (b s) (g s) (deadline s) (ncalls s).
Definition set_env x s := mkstate (argv0 s) (dir s) x (bgp s) (cf s) (b s) (g s) (deadline s) (ncalls s).
Definition set_bgp x s := mkstate (argv0 s) (dir s) (env s) x (cf s) (b s) (g s) (deadline s) (ncalls s).
Definition set_cf x s := mkstate (argv0 s) (dir s) (env s) (bgp s) x (b s) (g s) (deadline s) (ncalls s).
Definition set_b x s := mkstate (argv0 s) (dir s) (env s) (bgp s) (cf s) x (g s) (deadline s) (ncalls s).
Definition set_g x s := mkstate (argv0 s) (dir s) (env s) (bgp s) (cf s) (b s) x (deadline s) (ncalls s).
Definition set_deadline x s := mkstate (argv0 s) (dir s) (env s) (bgp s) (cf s) (b s) (g s) x (ncalls s).
Definition count_call s := mkstate (argv0 s) (dir s) (env s) (bgp s) (cf s) (b s) (g s) (deadline s) (S (ncalls s)).

(** How a piece of the program ends. *)
Inductive outcome (A : Type) :=
| Returned (a : A)        (** it returns *)
| Exited (code : Z)       (** [exit(code)] *)
| Aborted                 (** a failed [assert], an uncaught exception *)
| Undefined.              (** a store outside an array *)
Arguments Returned {A} a.
Arguments Exited {A} code.
Arguments Aborted {A}.
Arguments Undefined {A}.

(** A piece of the program: from the state it starts in, how it ends, the
    state it leaves and the events it caused, in order. *)
Definition M (A : Type) : Type := state -> outcome A * state * list event.

Definition ret {A} (a : A) : M A := fun s => (Returned a, s, []).

Definition bind {A B} (m : M A) (k : A -> M B) : M B :=
  fun s =>
    match m s with
    | (Returned a, s1, t1) =>
        match k a s1 with
        | (o, s2, t2) => (o, s2, (t1 ++ t2)%list)
        end
    | (Exited c, s1, t1) => (Exited c, s1, t1)
    | (Aborted, s1, t1) => (Aborted, s1, t1)
    | (Undefined, s1, t1) => (Undefined, s1, t1)
    end.

Declare Scope prog_scope.
Delimit Scope prog_scope with prog.
Notation "x <- m ;; k" := (bind m (fun x => k))
  (at level 61, m at next level, right associativity) : prog_scope.
Notation "m ;; k" := (bind m (fun _ => k))
  (at level 61, right associativity) : prog_scope.
Local Open Scope prog_scope.

Definition get : M state := fun s => (Returned s, s, []).
Definition modify (f : state -> state) : M unit := fun s => (Returned tt, f s, []).
Definition exit {A} (code : Z) : M A := fun s => (Exited code, s, []).
Definition abort {A} : M A := fun s => (Aborted, s, []).
Definition undefined {A} : M A := fun s => (Undefined, s, []).
Definition emit (e : event) : M unit := fun s => (Returned tt, s, [e]).

(** [if (c) m;] *)
Definition when (c : bool) (m : M unit) : M unit := if c then m else ret tt.

(** [for (int i = lo; ...; i++) body(i)], for [count] iterations. *)
Fixpoint for_loop (count : nat) (i : Z) (body : Z -> M unit) : M unit :=
  match count with
  | O => ret tt
  | S n => body i ;; for_loop n (i + 1) body
  end.

(** The three components of a run. *)
Definition outcome_of {A} (r : outcome A * state * list event) : outcome A := fst (fst r).
Definition state_of {A} (r : outcome A * state * list event) : state := snd (fst r).
Definition events_of {A} (r : outcome A * state * list event) : list event := snd r.

Definition nl : string := String (ascii_of_nat 10) "".
Definition tab : string := String (ascii_of_nat 9) "".

(* ================================================================== *)
(** * The program *)
(* ================================================================== *)

Section Program.

(** The collaborators' answers, and whether the program was compiled with
    NDEBUG (the default Release build defines it). *)
Variable W : world.
Variable NDEBUG : bool.

(** alarm signal handler *)
Definition sigalarm {A} : M A :=
  emit (Stderr ("!!! SIGALRM detected !!!" ++ nl)) ;;
  emit (Stderr ("alarm clock" ++ nl)) ;;
  exit 1.

(** One call to a collaborator.  It takes [dur] seconds; when a deadline is
    armed and falls no later than the return of the call, SIGALRM is
    delivered first and [sigalarm] runs (alarm is only called once the
    handler is installed).  The time of the run is the time spent in the
    calls made so far. *)
Definition do_call (c : call) : M response :=
  fun s =>
    let fired :=
      match deadline s with
      | Some t => t <=? elapsed W (S (ncalls s))
      | None => false
      end in
    if fired then (emit (Pending c) ;; sigalarm) s
    else (Returned (W (ncalls s)), count_call s, [Call c (W (ncalls s))]).

(** [assert(dir != NULL)].  The message a failed assert writes to stderr
    before it aborts comes from the C library, in a format of its own,
    and is not recorded. *)
Definition assert_dir : M unit :=
  s <- get ;;
  if NDEBUG then ret tt else if dir s =? 0 then abort else ret tt.

(** vcomplain/complain about something and exit.  Before [main] has
    stored argv[0] the name printed is that of a NULL pointer (see
    [initial]); this is the case of the complaint about MPI_Init only. *)
Definition vcomplain {A} (msg : string) : M A :=
  s <- get ;;
  emit (Stderr ("!!! ERROR !!! " ++ argv0 s ++ ": ")) ;;
  emit (Stderr msg) ;;
  emit (Stderr nl) ;;
  exit 1.

Definition complain {A} (msg : string) : M A := vcomplain msg.

(** print info messages. *)
Definition vinfo (msg : string) : M unit :=
  emit (Stdout "-INFO- ") ;;
  emit (Stdout msg) ;;
  emit (Stdout nl).

Definition info (msg : string) : M unit := vinfo msg.

(** usage: print usage and exit *)
Definition usage {A} (msg : option string) : M A :=
  s <- get ;;
  match msg with
  | Some m => emit (Stderr (argv0 s ++ ": " ++ m ++ nl))
  | None => ret tt
  end ;;
  emit (Stderr ("usage: " ++ argv0 s ++ " [options] plfsdir" ++ nl)) ;;
  emit (Stderr (nl ++ "options:" ++ nl)) ;;
  emit (Stderr (tab ++ "-t sec    timeout (alarm), in seconds" ++ nl)) ;;
  emit (Stderr (tab ++ "-v        be verbose" ++ nl)) ;;
  exit 1.

(** printopts: print global options *)
Definition printopts : M unit :=
  s <- get ;;
  let gv := g s in
  emit (Stdout (nl ++ argv0 s ++ nl ++ "==options:" ++ nl)) ;;
  emit (Stdout (tab ++ "timeout: " ++ Fmt.itoa (timeout gv) ++ nl)) ;;
  emit (Stdout (tab ++ "num bg threads: " ++ Fmt.itoa (bg gv) ++ nl)) ;;
  emit (Stdout (tab ++ "num epochs: " ++ Fmt.itoa (nepochs gv) ++ nl)) ;;
  emit (Stdout (tab ++ "num keys per epoch: " ++ Fmt.itoa (nkeys gv)
                  ++ " (per rank)" ++ nl)) ;;
  emit (Stdout (tab ++ "plfsdir: " ++ dirname gv ++ nl)) ;;
  emit (Stdout (tab ++ "key size: " ++ Fmt.itoa (keysz gv) ++ nl)) ;;
  emit (Stdout (tab ++ "value size: " ++ Fmt.itoa (valsz gv) ++ nl)) ;;
  emit (Stdout (tab ++ "filter bits per key: " ++ Fmt.itoa (filterbits gv) ++ nl)) ;;
  emit (Stdout (tab ++ "io size: " ++ Fmt.itoa (iosz gv) ++ nl)) ;;
  emit (Stdout (tab ++ "log rotation: " ++ Fmt.itoa (logrotation gv) ++ nl)) ;;
  emit (Stdout (tab ++ "bbos: " ++ Fmt.itoa (bbos gv) ++ nl)) ;;
  emit (Stdout (tab ++ "bbos hostname: " ++ bboshostname gv ++ nl)) ;;
  emit (Stdout (tab ++ "bbos port: " ++ Fmt.itoa (bbosport gv) ++ nl)) ;;
  emit (Stdout (tab ++ "mpi comm size: " ++ Fmt.itoa (commsz gv) ++ nl)) ;;
  emit (Stdout (tab ++ "verbose: " ++ Fmt.itoa (v gv) ++ nl)) ;;
  emit (Stdout nl).

(** What [snprintf(buf, sizeof(buf), ...)] leaves in a [char buf[size]]. *)
Definition sized (size : Z) (s : string) : string :=
  match fst (Fmt.snprintf size s) with
  | Some t => t
  | None => ""
  end.

(** mkbbos: init bbos env *)
Definition mkbbos : M unit :=
  s <- get ;;
  if (bbos (g s) =? 0) || negb (env s =? 0) then ret tt
  else
    let lo' := sized 50 "bmi+tcp" in
    modify (set_b (mkbbos_conf (remote (b s)) lo')) ;;
    let remote' :=
      sized 50 ("bmi+tcp://" ++ bboshostname (g s) ++ ":"
                  ++ Fmt.itoa (bbosport (g s))) in
    modify (set_b (mkbbos_conf remote' lo')) ;;
    r <- do_call (deltafs_env_init "bbos" lo' remote') ;;
    modify (set_env (handle r)) ;;
    when (handle r =? 0) (complain "fail to init bbos env").

(** [sizeof(cf)] *)
Definition cf_size : Z := 500.

(** One step of [mkconf]: [n += snprintf(cf + n, sizeof(cf) - n, ...)]
    where the formatted text is [piece], from the string [buf] held by [cf]
    and the count [n].  [sizeof(cf) - n] is a [size_t]: once [n] is past
    the array it wraps around to a huge size and snprintf stores outside
    [cf], which is [None] here.  The terminating NUL is stored at
    [cf + n + length], so the string in [cf] is the first [n] characters
    of [buf] followed by the text kept, unless [buf] ends before [n]. *)
Definition cf_snprintf (st : string * Z) (piece : string) : option (string * Z) :=
  let '(buf, n) := st in
  if (n <? 0) || (cf_size <? n) then None
  else
    let '(kept, count) := Fmt.snprintf (cf_size - n) piece in
    let buf' :=
      match kept with
      | Some t =>
          if (Z.of_nat (String.length buf) <? n) then buf
          else Fmt.take (Z.to_nat n) buf ++ t
      | None => buf
      end in
    Some (buf', n + count).

Definition and_then {A B} (o : option A) (k : A -> option B) : option B :=
  match o with
  | Some a => k a
  | None => None
  end.

(** The pieces [mkconf] formats, in the order of its snprintf calls. *)
Definition conf_pieces (gv : gs) : list string :=
  [ "rank=" ++ Fmt.itoa (myrank gv);
    "&tail_padding=1&block_padding=1";
    "&data_buffer=" ++ Fmt.itoa (iosz gv);
    "&min_data_buffer=" ++ Fmt.itoa (iosz gv);
    "&index_buffer=" ++ Fmt.itoa (iosz gv);
    "&min_index_buffer=" ++ Fmt.itoa (iosz gv);
    "&key_size=" ++ Fmt.itoa (keysz gv);
    "&value_size=" ++ Fmt.itoa (valsz gv);
    "&bf_bits_per_key=" ++ Fmt.itoa (filterbits gv);
    "&epoch_log_rotation=" ++ Fmt.itoa (logrotation gv);
    "&lg_parts=" ++ Fmt.itoa 0 ].

(** The snprintf calls of [mkconf] on the zeroed [cf]: the string they
    leave in [cf], or [None] when one of them stores outside it. *)
Definition mkconf_cf (gv : gs) : option string :=
  and_then
    (fold_left (fun st piece => and_then st (fun st' => cf_snprintf st' piece))
               (conf_pieces gv) (Some ("", 0)))
    (fun st => Some (fst st)).

(** mkconf: generate plfsdir conf *)
Definition mkconf : M unit :=
  s <- get ;;
  (if negb (bg (g s) =? 0) && (bgp s =? 0)
   then r <- do_call (deltafs_tp_init (bg (g s))) ;; modify (set_bgp (handle r))
   else ret tt) ;;
  s <- get ;;
  when (negb (bg (g s) =? 0) && (bgp s =? 0)) (complain "fail to init thread pool") ;;
  match mkconf_cf (g s) with
  | Some c => modify (set_cf c) ;; when (negb NDEBUG) (info c)
  | None => undefined
  end.

(** The name [writekey] formats into [char fname[20]]. *)
Definition fname_of (k rank : Z) : string :=
  sized 20 ("f" ++ Fmt.hex08 k ++ "-r" ++ Fmt.hex08 rank).

(** writekey: write a key into plfsdir *)
Definition writekey (k e : Z) (val : string) : M unit :=
  assert_dir ;;
  s <- get ;;
  let fname := fname_of k (myrank (g s)) in
  r <- do_call (deltafs_plfsdir_append fname e val) ;;
  when (negb (status r =? 0))
       (complain ("error writing " ++ fname ++ ": " ++ errstr r)).

(** writepoch: insert epoch data into plfsdir.  [v.resize(n, '.')] with a
    negative [int] asks for more than [max_size()] characters and throws. *)
Definition writepoch (e : Z) : M unit :=
  assert_dir ;;
  s <- get ;;
  (if valsz (g s) <? 0 then abort else ret tt) ;;
  let val := Fmt.replicate (Z.to_nat (valsz (g s))) "." in
  for_loop (Z.to_nat (nkeys (g s))) 0 (fun i => writekey i e val) ;;
  r <- do_call MPI_Barrier ;;
  when (negb (status r =? 0)) (complain "fail to do mpi barrier") ;;
  r <- do_call (deltafs_plfsdir_epoch_flush e) ;;
  when (negb (status r =? 0)) (complain ("error flushing dir: " ++ errstr r)).

(** write: insert data into plfsdir as multiple epochs *)
Definition write : M unit :=
  s <- get ;;
  when (negb (bbos (g s) =? 0)) mkbbos ;;
  mkconf ;;
  s <- get ;;
  r <- do_call (deltafs_plfsdir_create_handle (cf s)) ;;
  modify (set_dir (handle r)) ;;
  _ <- do_call deltafs_plfsdir_set_err_printer ;;
  s <- get ;;
  (if negb (bgp s =? 0) then _ <- do_call deltafs_plfsdir_set_thread_pool ;; ret tt
   else ret tt) ;;
  (if negb (env s =? 0) then _ <- do_call deltafs_plfsdir_set_env ;; ret tt
   else ret tt) ;;
  r <- do_call (deltafs_plfsdir_open (dirname (g s))) ;;
  when (negb (status r =? 0)) (complain ("error opening dir: " ++ errstr r)) ;;
  for_loop (Z.to_nat (nepochs (g s))) 0 writepoch ;;
  r <- do_call deltafs_plfsdir_finish ;;
  when (negb (status r =? 0)) (complain ("error finalizing dir: " ++ errstr r)) ;;
  _ <- do_call deltafs_plfsdir_free_handle ;;
  ret tt.

Definition modify_g (f : gs -> gs) : M unit := modify (fun s => set_g (f (g s)) s).

(** The body of the option loop for one result of [getopt]: the option
    character [ch] and its argument [optarg]. *)
Definition option_case (ch : ascii) (optarg : string) : M unit :=
  match ch with
  | "s"%char =>
      modify_g (set_iosz (Fmt.atoi optarg)) ;;
      s <- get ;; when (iosz (g s) <=? 0) (usage (Some "bad io size"))
  | "e"%char =>
      modify_g (set_nepochs (Fmt.atoi optarg)) ;;
      s <- get ;; when (nepochs (g s) <? 0) (usage (Some "bad epoch nums"))
  | "n"%char =>
      modify_g (set_nkeys (Fmt.atoi optarg)) ;;
      s <- get ;; when (nkeys (g s) <? 0) (usage (Some "bad key nums"))
  | "f"%char =>
      modify_g (set_filterbits (Fmt.atoi optarg)) ;;
      s <- get ;; when (filterbits (g s) <? 0) (usage (Some "bad filter bits"))
  | "k"%char =>
      modify_g (set_keysz (Fmt.atoi optarg)) ;;
      s <- get ;; when (keysz (g s) <=? 0) (usage (Some "bad key size"))
  | "d"%char =>
      modify_g (set_valsz (Fmt.atoi optarg)) ;;
      s <- get ;; when (valsz (g s) <? 0) (usage (Some "bad value size"))
  | "j"%char =>
      modify_g (set_bg (Fmt.atoi optarg)) ;;
      s <- get ;; when (bg (g s) <? 0) (usage (Some "bad bg number"))
  | "t"%char =>
      modify_g (set_timeout (Fmt.atoi optarg)) ;;
      s <- get ;; when (timeout (g s) <? 0) (usage (Some "bad timeout"))
  | "r"%char => modify_g (set_logrotation 1)
  | "b"%char => modify_g (set_bbos 1)
  | "v"%char => modify_g (set_v 1)
  | _ => usage None
  end.

(** [while ((ch = getopt(argc, argv, "s:e:n:f:k:d:j:t:rvb")) != -1)], over
    the results of the successive [getopt] calls. *)
Fixpoint option_loop (opts : list (ascii * string)) : M unit :=
  match opts with
  | [] => ret tt
  | (ch, optarg) :: rest => option_case ch optarg ;; option_loop rest
  end.

(** [alarm(seconds)]: zero arms nothing, any other value arms the deadline
    that many seconds after the call. *)
Definition arm (seconds : Z) : M unit :=
  _ <- do_call (alarm seconds) ;;
  s <- get ;;
  modify (set_deadline
            (if seconds =? 0 then None
             else Some (elapsed W (ncalls s) + seconds))).

(** main program.  [name] is [argv[0]], [opts] the results of the
    successive [getopt] calls and [operands] the arguments left from
    [optind] on. *)
Definition main (name : string) (opts : list (ascii * string))
    (operands : list string) : M unit :=
  r <- do_call MPI_Init ;;
  when (negb (status r =? 0)) (complain "fail to init mpi") ;;
  modify (set_argv0 name) ;;
  modify (set_cf "") ;;
  modify (set_b (mkbbos_conf "" "")) ;;
  modify (set_g g_zero) ;;
  r <- do_call MPI_Comm_rank ;;
  modify_g (set_myrank (Fmt.to_int (out r))) ;;
  when (negb (status r =? 0)) (complain "cannot get proc mpi rank") ;;
  r <- do_call MPI_Comm_size ;;
  modify_g (set_commsz (Fmt.to_int (out r))) ;;
  when (negb (status r =? 0)) (complain "cannot get mpi world size") ;;
  modify_g (set_nepochs DEF_NUM_EPOCHS) ;;
  modify_g (set_nkeys DEF_NUM_KEYS_PER_EPOCH) ;;
  modify_g (set_filterbits DEF_FILTER_BITS) ;;
  modify_g (set_keysz DEF_KEY_SIZE) ;;
  modify_g (set_valsz DEF_VAL_SIZE) ;;
  modify_g (set_bboshostname DEF_BBOS_HOSTNAME) ;;
  modify_g (set_bbosport DEF_BBOS_PORT) ;;
  modify_g (set_timeout DEF_TIMEOUT) ;;
  modify_g (set_iosz DEF_IO_SIZE) ;;
  option_loop opts ;;
  match operands with
  | [] => usage (Some "bad args")
  | d :: more =>
      modify_g (set_dirname d) ;;
      match more with
      | h :: more' =>
          modify_g (set_bboshostname h) ;;
          match more' with
          | p :: _ => modify_g (set_bbosport (Fmt.atoi p))
          | [] => ret tt
          end
      | [] => ret tt
      end
  end ;;
  s <- get ;;
  when (bbosport (g s) <=? 0) (usage (Some "bad bbos port")) ;;
  printopts ;;
  _ <- do_call signal_SIGALRM ;;
  s <- get ;;
  arm (Fmt.to_unsigned (timeout (g s))) ;;
  modify (set_dir 0) ;;
  modify (set_env 0) ;;
  modify (set_bgp 0) ;;
  s <- get ;;
  when (negb (v (g s) =? 0) && (myrank (g s) =? 0)) (info "test begins ...") ;;
  _ <- do_call MPI_Barrier ;;
  write ;;
  _ <- do_call MPI_Finalize ;;
  s <- get ;;
  when (negb (v (g s) =? 0) && (myrank (g s) =? 0)) (info "all done!") ;;
  when (negb (v (g s) =? 0) && (myrank (g s) =? 0)) (info "bye") ;;
  exit 0.

End Program.

(* ================================================================== *)
(** * What the specification says, in its own words *)
(* ================================================================== *)

(** The fields of the configuration descriptor, in the order the
    specification lists them, each with the value it is to carry. *)
Definition conf_fields (gv : gs) : list (string * string) :=
  [ ("rank", Fmt.itoa (myrank gv));
    ("tail_padding", "1");
    ("block_padding", "1");
    ("data_buffer", Fmt.itoa (iosz gv));
    ("min_data_buffer", Fmt.itoa (iosz gv));
    ("index_buffer", Fmt.itoa (iosz gv));
    ("min_index_buffer", Fmt.itoa (iosz gv));
    ("key_size", Fmt.itoa (keysz gv));
    ("value_size", Fmt.itoa (valsz gv));
    ("bf_bits_per_key", Fmt.itoa (filterbits gv));
    ("epoch_log_rotation", Fmt.itoa (logrotation gv));
    ("lg_parts", "0") ].

(** key=value&key=value... *)
Fixpoint render_fields (fs : list (string * string)) : string :=
  match fs with
  | [] => ""
  | (k, x) :: rest =>
      match rest with
      | [] => k ++ "=" ++ x
      | _ :: _ => k ++ "=" ++ x ++ "&" ++ render_fields rest
      end
  end.

Definition descriptor (gv : gs) : string := render_fields (conf_fields gv).

(** [SessionConfigBuilder.build] of the specification: the descriptor, or
    ConfigOverflow when the descriptor and its terminator do not fit the
    reserved buffer. *)
Inductive build_result :=
| Descriptor (d : string)
| ConfigOverflow.

Definition spec_build (gv : gs) : build_result :=
  if cf_size <=? Z.of_nat (String.length (descriptor gv)) then ConfigOverflow
  else Descriptor (descriptor gv).

(** The session part of a run, as the specification orders it: for every
    epoch its appends, one barrier and the flush of the epoch; after the
    last epoch finish, and the release of the handle. *)
Fixpoint zrange (n : nat) (i : Z) : list Z :=
  match n with
  | O => []
  | S n' => i :: zrange n' (i + 1)
  end.

Definition filler (gv : gs) : string :=
  Fmt.replicate (Z.to_nat (valsz gv)) ".".

Definition append_calls (gv : gs) (e : Z) : list call :=
  map (fun i => deltafs_plfsdir_append (fname_of i (myrank gv)) e (filler gv))
      (zrange (Z.to_nat (nkeys gv)) 0).

Definition epoch_calls (gv : gs) (e : Z) : list call :=
  (append_calls gv e ++ [MPI_Barrier; deltafs_plfsdir_epoch_flush e])%list.

Definition epochs_calls (gv : gs) : list call :=
  flat_map (epoch_calls gv) (zrange (Z.to_nat (nepochs gv)) 0).

Definition session_calls (gv : gs) : list call :=
  (epochs_calls gv ++ [deltafs_plfsdir_finish; deltafs_plfsdir_free_handle])%list.

(* ================================================================== *)
(** * Observing a run *)
(* ================================================================== *)

(** The calls that returned, in order. *)
Definition calls_of (t : list event) : list call :=
  flat_map (fun e => match e with Call c _ => [c] | _ => [] end) t.

Definition is_stderr (e : event) : bool :=
  match e with Stderr _ => true | _ => false end.

Definition is_pending (e : event) : bool :=
  match e with Pending _ => true | _ => false end.

(** Neither a diagnostic nor an interrupted call. *)
Definition is_quiet (e : event) : bool :=
  negb (is_stderr e) && negb (is_pending e).

Definition quiet (t : list event) : Prop := Forall (fun e => is_quiet e = true) t.

Definition no_pending (t : list event) : Prop :=
  Forall (fun e => is_pending e = false) t.

(** The calls on the plfsdir handle. *)
Definition is_session_call (c : call) : bool :=
  match c with
  | deltafs_plfsdir_create_handle _ | deltafs_plfsdir_set_err_printer
  | deltafs_plfsdir_set_thread_pool | deltafs_plfsdir_set_env
  | deltafs_plfsdir_open _ | deltafs_plfsdir_append _ _ _
  | deltafs_plfsdir_epoch_flush _ | deltafs_plfsdir_finish
  | deltafs_plfsdir_free_handle => true
  | _ => false
  end.

(** The calls that write or flush records. *)
Definition is_record_call (c : call) : bool :=
  match c with
  | deltafs_plfsdir_append _ _ _ | deltafs_plfsdir_epoch_flush _ => true
  | _ => false
  end.

(** The calls [write] makes before the first epoch. *)
Definition is_setup_call (c : call) : bool :=
  match c with
  | deltafs_env_init _ _ _ | deltafs_tp_init _
  | deltafs_plfsdir_create_handle _ | deltafs_plfsdir_set_err_printer
  | deltafs_plfsdir_set_thread_pool | deltafs_plfsdir_set_env
  | deltafs_plfsdir_open _ => true
  | _ => false
  end.

Definition prefix {A} (l1 l2 : list A) : Prop := exists l3, l2 = (l1 ++ l3)%list.

(** The place of a record call in the order of the protocol: the appends
    of epoch [e] at [2e], its flush at [2e + 1]. *)
Definition stamp (c : call) : option Z :=
  match c with
  | deltafs_plfsdir_append _ e _ => Some (2 * e)
  | deltafs_plfsdir_epoch_flush e => Some (2 * e + 1)
  | _ => None
  end.

(** The property [Q] of the outcome, final state and events holds of the
    run of [m] from [s]. *)
Definition wp {A} (m : M A) (s : state)
    (Q : outcome A -> state -> list event -> Prop) : Prop :=
  Q (outcome_of (m s)) (state_of (m s)) (events_of (m s)).

(** Whether SIGALRM arrives before the next call from [s] returns. *)
Definition fires (W : world) (s : state) : bool :=
  match deadline s with
  | Some t => t <=? elapsed W (S (ncalls s))
  | None => false
  end.

(** The deadline, if any, is still ahead. *)
Definition on_time (W : world) (s : state) : Prop :=
  match deadline s with
  | Some t => elapsed W (ncalls s) < t
  | None => True
  end.

(** What [sigalarm] prints. *)
Definition sigalarm_diag : list event :=
  [Stderr ("!!! SIGALRM detected !!!" ++ nl); Stderr ("alarm clock" ++ nl)].

(** What [complain] prints. *)
Definition complaint (name msg : string) : list event :=
  [Stderr ("!!! ERROR !!! " ++ name ++ ": "); Stderr msg; Stderr nl].

(** What [usage] prints. *)
Definition usage_text (name : string) (msg : option string) : list event :=
  (match msg with
   | Some m => [Stderr (name ++ ": " ++ m ++ nl)]
   | None => []
   end ++
   [Stderr ("usage: " ++ name ++ " [options] plfsdir" ++ nl);
    Stderr (nl ++ "options:" ++ nl);
    Stderr (tab ++ "-t sec    timeout (alarm), in seconds" ++ nl);
    Stderr (tab ++ "-v        be verbose" ++ nl)])%list.

(** A run that keeps the globals [gv] and makes the calls [canon] in order,
    all of them if it returns and the first few of them otherwise. *)
Definition follows (gv : gs) (canon : list call)
    (o : outcome unit) (s' : state) (t : list event) : Prop :=
  g s' = gv /\ prefix (calls_of t) canon /\
  (o = Returned tt -> calls_of t = canon).

(** A run that keeps the globals [gv] and makes setup calls only. *)
Definition setup_only {A} (gv : gs)
    (o : outcome A) (s' : state) (t : list event) : Prop :=
  g s' = gv /\ Forall (fun c => is_setup_call c = true) (calls_of t).

(** A run of the whole session: some setup calls, then the calls of the
    epochs, finish and the release of the handle. *)
Definition session_run (gv : gs)
    (o : outcome unit) (s' : state) (t : list event) : Prop :=
  exists pre,
    Forall (fun c => is_setup_call c = true) pre /\
    follows gv (pre ++ session_calls gv) o s' t.

(** The record calls of [l] come in the order of their stamps. *)
Definition ordered (l : list call) : Prop :=
  forall i j c1 c2 z1 z2,
    (i <= j)%nat ->
    nth_error l i = Some c1 -> nth_error l j = Some c2 ->
    stamp c1 = Some z1 -> stamp c2 = Some z2 -> z1 <= z2.

(** ** Runs in which nothing goes wrong *)

(** No call fails: every status is success, every pointer is not NULL. *)
Definition no_errors (W : world) : Prop :=
  forall n, status (W n) = 0 /\ handle (W n) <> 0.

(** The deadline of [s], if any, is later than the return of every call. *)
Definition never_late (W : world) (s : state) : Prop :=
  match deadline s with
  | Some t => forall n, elapsed W n < t
  | None => True
  end.

(** The calls [write] makes before the first epoch when none of them
    fails, from a state in which [env] and [bgp] are NULL. *)
Definition setup_calls (gv : gs) : list call :=
  ((if bbos gv =? 0 then []
    else [deltafs_env_init "bbos" (sized 50 "bmi+tcp")
            (sized 50 ("bmi+tcp://" ++ bboshostname gv ++ ":"
                         ++ Fmt.itoa (bbosport gv)))]) ++
   (if bg gv =? 0 then [] else [deltafs_tp_init (bg gv)]) ++
   [deltafs_plfsdir_create_handle (descriptor gv);
    deltafs_plfsdir_set_err_printer] ++
   (if bg gv =? 0 then [] else [deltafs_plfsdir_set_thread_pool]) ++
   (if bbos gv =? 0 then [] else [deltafs_plfsdir_set_env]) ++
   [deltafs_plfsdir_open (dirname gv)])%list.

(** A run that returns, having made exactly the calls [canon], and keeps
    the globals, the deadline and the handle. *)
Definition completes (s : state) (canon : list call)
    (o : outcome unit) (s' : state) (t : list event) : Prop :=
  o = Returned tt /\ calls_of t = canon /\
  g s' = g s /\ deadline s' = deadline s /\ dir s' = dir s /\
  argv0 s' = argv0 s /\ quiet t.

(** The state [writekey] and [writepoch] complete from: no deadline in the
    way, a handle that passes the assertion, a value size that [resize]
    accepts. *)
Definition ready (W : world) (s : state) : Prop :=
  never_late W s /\ dir s <> 0 /\ 0 <= valsz (g s).

(** The state [write] completes from, as [main] leaves it: no deadline in
    the way, no environment and no thread pool yet, and parameters that
    are [int]s with a value size that [resize] accepts. *)
Definition fresh (W : world) (s : state) : Prop :=
  never_late W s /\ env s = 0 /\ bgp s = 0 /\
  gs_ints (g s) /\ 0 <= valsz (g s).

(** A run of [write] in which nothing goes wrong. *)
Definition written (s : state)
    (o : outcome unit) (s' : state) (t : list event) : Prop :=
  o = Returned tt /\
  calls_of t = (setup_calls (g s) ++ session_calls (g s))%list /\
  g s' = g s /\ deadline s' = deadline s /\ argv0 s' = argv0 s /\
  quiet t.

(** ** Runs in any world *)

(** The last thing printed is a diagnostic. *)
Definition ends_in_diagnostic (t : list event) : Prop :=
  exists t0 text, t = (t0 ++ [Stderr text])%list.

(** A piece of the program ends the process only through [exit(1)], after
    a diagnostic; otherwise it has printed no diagnostic and no call of it
    was interrupted. *)
Definition exits_one {A} (o : outcome A) (t : list event) : Prop :=
  match o with
  | Exited c => c = 1 /\ ends_in_diagnostic t
  | _ => quiet t
  end.

(** A call is interrupted only as the last thing before [sigalarm]'s
    diagnostic. *)
Definition watchdog_last (t : list event) : Prop :=
  forall c, In (Pending c) t -> exists t0, t = (t0 ++ Pending c :: sigalarm_diag)%list.

(** The answers recorded in a trace are answers of the world. *)
Definition answers_from (W : world) (t : list event) : Prop :=
  Forall (fun e => match e with
                   | Call _ r => exists n, r = W n
                   | _ => True
                   end) t.

Definition orderly (W : world) (t : list event) : Prop :=
  watchdog_last t /\ answers_from W t.

(** What holds of every piece of the program in every world: it does not
    run past the deadline, it counts its calls, and it ends as above. *)
Definition sound {A} (W : world) (s : state)
    (o : outcome A) (s' : state) (t : list event) : Prop :=
  (on_time W s -> on_time W s') /\
  ncalls s' = (ncalls s + List.length (calls_of t))%nat /\
  exits_one o t /\ orderly W t.

(** The pieces that leave the globals, the deadline and the program name
    alone, store outside [cf] only if a parameter is no [int], and have no
    call interrupted when no deadline is armed. *)
Definition tidy {A} (W : world) (s : state)
    (o : outcome A) (s' : state) (t : list event) : Prop :=
  g s' = g s /\ deadline s' = deadline s /\ argv0 s' = argv0 s /\
  (gs_ints (g s) -> o <> Undefined) /\
  (deadline s = None -> no_pending t) /\
  sound W s o s' t.

(** [main] ends the process through [exit(1)] after a diagnostic, or
    through [exit(0)] with none. *)
Definition main_exits (o : outcome unit) (t : list event) : Prop :=
  match o with
  | Exited c => (c = 0 /\ quiet t) \/ (c = 1 /\ ends_in_diagnostic t)
  | Returned _ => False
  | _ => quiet t
  end.

Definition main_sound (W : world) (s : state)
    (o : outcome unit) (s' : state) (t : list event) : Prop :=
  (on_time W s -> on_time W s') /\
  ncalls s' = (ncalls s + List.length (calls_of t))%nat /\
  main_exits o t /\ orderly W t.

(** ** The command line *)

(** What one option stores in the globals. *)
Definition option_apply (ch : ascii) (optarg : string) (gv : gs) : gs :=
  match ch with
  | "s"%char => set_iosz (Fmt.atoi optarg) gv
  | "e"%char => set_nepochs (Fmt.atoi optarg) gv
  | "n"%char => set_nkeys (Fmt.atoi optarg) gv
  | "f"%char => set_filterbits (Fmt.atoi optarg) gv
  | "k"%char => set_keysz (Fmt.atoi optarg) gv
  | "d"%char => set_valsz (Fmt.atoi optarg) gv
  | "j"%char => set_bg (Fmt.atoi optarg) gv
  | "t"%char => set_timeout (Fmt.atoi optarg) gv
  | "r"%char => set_logrotation 1 gv
  | "b"%char => set_bbos 1 gv
  | "v"%char => set_v 1 gv
  | _ => gv
  end.

(** Whether one option ends in [usage], and with which message. *)
Definition option_error (ch : ascii) (optarg : string) : option (option string) :=
  match ch with
  | "s"%char => if Fmt.atoi optarg <=? 0 then Some (Some "bad io size") else None
  | "e"%char => if Fmt.atoi optarg <? 0 then Some (Some "bad epoch nums") else None
  | "n"%char => if Fmt.atoi optarg <? 0 then Some (Some "bad key nums") else None
  | "f"%char => if Fmt.atoi optarg <? 0 then Some (Some "bad filter bits") else None
  | "k"%char => if Fmt.atoi optarg <=? 0 then Some (Some "bad key size") else None
  | "d"%char => if Fmt.atoi optarg <? 0 then Some (Some "bad value size") else None
  | "j"%char => if Fmt.atoi optarg <? 0 then Some (Some "bad bg number") else None
  | "t"%char => if Fmt.atoi optarg <? 0 then Some (Some "bad timeout") else None
  | "r"%char | "b"%char | "v"%char => None
  | _ => Some None
  end.

(** The globals after the option loop, and the message of the [usage] that
    ended it, if one did. *)
Fixpoint options_parse (opts : list (ascii * string)) (gv : gs)
    : gs * option (option string) :=
  match opts with
  | [] => (gv, None)
  | (ch, optarg) :: rest =>
      match option_error ch optarg with
      | Some msg => (option_apply ch optarg gv, Some msg)
      | None => options_parse rest (option_apply ch optarg gv)
      end
  end.

(** An option value the specification rules out: io size <= 0, key size
    <= 0, and a negative value size, epoch count, key count, filter bits,
    background-thread count or timeout. *)
Definition bad_value (opt : ascii * string) : bool :=
  let '(ch, optarg) := opt in
  match ch with
  | "s"%char | "k"%char => Fmt.atoi optarg <=? 0
  | "d"%char | "e"%char | "n"%char | "f"%char | "j"%char | "t"%char =>
      Fmt.atoi optarg <? 0
  | _ => false
  end.

(** The globals when the option loop starts. *)
Definition g_defaults (rank size : Z) : gs :=
  mkgs 0 0 DEF_BBOS_PORT DEF_BBOS_HOSTNAME "" rank size DEF_NUM_EPOCHS
       DEF_NUM_KEYS_PER_EPOCH DEF_FILTER_BITS DEF_KEY_SIZE DEF_VAL_SIZE
       DEF_IO_SIZE 0 DEF_TIMEOUT 0.

(** The globals after the operands have been stored. *)
Definition operands_apply (operands : list string) (gv : gs) : gs :=
  match operands with
  | [] => gv
  | [d] => set_dirname d gv
  | [d; h] => set_bboshostname h (set_dirname d gv)
  | d :: h :: p :: _ =>
      set_bbosport (Fmt.atoi p) (set_bboshostname h (set_dirname d gv))
  end.

(** The calls of [main] around [write]. *)
Definition startup_calls (seconds : Z) : list call :=
  [MPI_Init; MPI_Comm_rank; MPI_Comm_size; signal_SIGALRM; alarm seconds;
   MPI_Barrier].

(** The calls of a whole run of [main], with the setup calls [pre]. *)
Definition main_calls (gv : gs) (pre : list call) : list call :=
  (startup_calls (Fmt.to_unsigned (timeout gv)) ++ pre ++ session_calls gv
     ++ [MPI_Finalize])%list.

(** The shape of every run of [main] from the initial state: its calls are
    the first calls of a whole run, all of them if the process exits with
    0; the deadline is the one [alarm] was given, [alarm] being the fifth
    call; no call is interrupted while no deadline is armed. *)
Definition main_shape (W : world)
    (o : outcome unit) (s' : state) (t : list event) : Prop :=
  let seconds := Fmt.to_unsigned (timeout (g s')) in
  (exists pre,
     Forall (fun c => is_setup_call c = true) pre /\
     prefix (calls_of t) (main_calls (g s') pre) /\
     (o = Exited 0 -> calls_of t = main_calls (g s') pre)) /\
  deadline s' = (if (ncalls s' <? 5)%nat || (seconds =? 0) then None
                 else Some (elapsed W 5 + seconds)) /\
  (deadline s' = None -> no_pending t) /\
  o <> Undefined.

(** The parameters [main] hands to [write]: the defaults, the options, the
    operands. *)
Definition parameters (rank size : Z) (opts : list (ascii * string))
    (operands : list string) : gs :=
  operands_apply operands (fst (options_parse opts (g_defaults rank size))).

(** The command line passes the checks of [main]. *)
Definition accepted (opts : list (ascii * string)) (operands : list string) : Prop :=
  (forall rank size, snd (options_parse opts (g_defaults rank size)) = None) /\
  operands <> [] /\
  (forall rank size, 0 < bbosport (parameters rank size opts operands)).

(** The watchdog armed with [seconds] never goes off. *)
Definition in_time (W : world) (seconds : Z) : Prop :=
  seconds = 0 \/ forall n, elapsed W n < elapsed W 5 + seconds.

(** A whole run of [main] in which nothing goes wrong. *)
Definition main_done (W : world) (gv : gs)
    (o : outcome unit) (s' : state) (t : list event) : Prop :=
  o = Exited 0 /\ g s' = gv /\
  calls_of t = main_calls gv (setup_calls gv) /\ quiet t.

(** The runs that end in [usage] before any call on a plfsdir handle. *)
Definition refused (W : world) (name : string)
    (o : outcome unit) (s' : state) (t : list event) : Prop :=
  o = Exited 1 /\
  Forall (fun c => is_session_call c = false) (calls_of t) /\
  (status (W 0%nat) = 0 -> status (W 1%nat) = 0 -> status (W 2%nat) = 0 ->
   exists msg,
     t = ([Call MPI_Init (W 0%nat); Call MPI_Comm_rank (W 1%nat);
           Call MPI_Comm_size (W 2%nat)] ++ usage_text name msg)%list).

(** ** Sizes *)

(** The number of characters the pieces [ps] take when written one after
    the other. *)
Fixpoint total_length (ps : list string) : nat :=
  match ps with
  | [] => O
  | p :: ps' => (String.length p + total_length ps')%nat
  end.

(** ** The errors the program looks for *)

(** Whether the answer [r] to the call [c] is an error the program tests
    for: a status other than 0 (MPI_SUCCESS) from MPI_Init, MPI_Comm_rank,
    MPI_Comm_size, MPI_Barrier, open, append, epoch_flush and finish, a
    NULL from deltafs_env_init and deltafs_tp_init.  The results of the
    other calls are never looked at; that of MPI_Barrier is looked at in
    [writepoch] and not in [main]. *)
Definition failed (c : call) (r : response) : bool :=
  match c with
  | MPI_Init | MPI_Comm_rank | MPI_Comm_size | MPI_Barrier
  | deltafs_plfsdir_open _ | deltafs_plfsdir_append _ _ _
  | deltafs_plfsdir_epoch_flush _ | deltafs_plfsdir_finish =>
      negb (status r =? 0)
  | deltafs_env_init _ _ _ | deltafs_tp_init _ => handle r =? 0
  | MPI_Finalize | signal_SIGALRM | alarm _
  | deltafs_plfsdir_create_handle _ | deltafs_plfsdir_set_err_printer
  | deltafs_plfsdir_set_thread_pool | deltafs_plfsdir_set_env
  | deltafs_plfsdir_free_handle => false
  end.

Definition is_failure (e : event) : bool :=
  match e with
  | Call c r => failed c r
  | _ => false
  end.

(** No call of the trace reported such an error. *)
Definition clean (t : list event) : Prop :=
  Forall (fun e => is_failure e = false) t.



(** ** When the watchdog goes off *)

(** A call is interrupted only in the state in which the armed deadline
    falls no later than its return, and the process ends there. *)
Definition watched {A} (W : world)
    (o : outcome A) (s' : state) (t : list event) : Prop :=
  match o with
  | Exited _ => no_pending t \/ fires W s' = true
  | _ => no_pending t
  end.

(** ** Concrete runs *)

(** Scenario A of the specification: two epochs of four keys each, keys of
    8 and values of 4 bytes, on the command line of the program. *)
Definition scenario_opts : list (ascii * string) :=
  [("e"%char, "2"); ("n"%char, "4"); ("k"%char, "8"); ("d"%char, "4")].

Definition scenario_conf : string :=
  "rank=0&tail_padding=1&block_padding=1&data_buffer=2097152&min_data_buffer=2097152&index_buffer=2097152&min_index_buffer=2097152&key_size=8&value_size=4&bf_bits_per_key=10&epoch_log_rotation=0&lg_parts=0".

Definition scenario_appends (e : Z) : list call :=
  [deltafs_plfsdir_append "f00000000-r00000000" e "....";
   deltafs_plfsdir_append "f00000001-r00000000" e "....";
   deltafs_plfsdir_append "f00000002-r00000000" e "....";
   deltafs_plfsdir_append "f00000003-r00000000" e "...."].

(** The calls of the whole run of scenario A on the directory [d]. *)
Definition scenario_calls (d : string) : list call :=
  ([MPI_Init; MPI_Comm_rank; MPI_Comm_size; signal_SIGALRM; alarm 300;
    MPI_Barrier;
    deltafs_plfsdir_create_handle scenario_conf;
    deltafs_plfsdir_set_err_printer;
    deltafs_plfsdir_open d] ++
   scenario_appends 0 ++ [MPI_Barrier; deltafs_plfsdir_epoch_flush 0] ++
   scenario_appends 1 ++ [MPI_Barrier; deltafs_plfsdir_epoch_flush 1] ++
   [deltafs_plfsdir_finish; deltafs_plfsdir_free_handle; MPI_Finalize])%list.

(** A world of one rank (rank 0 of 1) in which no call fails and every
    call takes [seconds] seconds. *)
Definition single_rank (seconds : N) : world :=
  fun n => mkresp 0 1 (match n with 2%nat => 1 | _ => 0 end) "" seconds.

(** The parameters of scenario A on rank 0 of 1, for the directory [d]. *)
Definition scenario_g (d : string) : gs :=
  mkgs 0 0 12345 "127.0.0.1" d 0 1 2 4 10 8 4 2097152 0 300 0.

(** The parameters with the longest descriptor: every [int] is INT_MIN. *)
Definition widest_g : gs :=
  let m := - 2 ^ 31 in mkgs m m m "" "" m m m m m m m m m m m.

(* ================================================================== *)
(** * The rest of the file: helpers, output, and the parts of [main] *)
(* ================================================================== *)

(** now: get current time in micros.  [tv_sec] and [tv_usec] are what
    gettimeofday stored (both [long]); the arithmetic is done in
    [unsigned long long] ([1000000LLU]) and the result is a [uint64_t]. *)
Definition to_uint64 (z : Z) : Z := z mod 2 ^ 64.

Definition now (tv_sec tv_usec : Z) : Z :=
  to_uint64 (to_uint64 (to_uint64 tv_sec * 1000000) + to_uint64 tv_usec).

(** What a run prints on stdout and on stderr, in order. *)
Definition stdout_of (t : list event) : list string :=
  flat_map (fun e => match e with Stdout x => [x] | _ => [] end) t.

Definition stderr_of (t : list event) : list string :=
  flat_map (fun e => match e with Stderr x => [x] | _ => [] end) t.

(** The pieces [info] prints. *)
Definition info_text (msg : string) : list string := ["-INFO- "; msg; nl].

(** The pieces [printopts] prints for the program name [name] and the
    globals [gv]. *)
Definition printopts_text (name : string) (gv : gs) : list string :=
  [ nl ++ name ++ nl ++ "==options:" ++ nl;
    tab ++ "timeout: " ++ Fmt.itoa (timeout gv) ++ nl;
    tab ++ "num bg threads: " ++ Fmt.itoa (bg gv) ++ nl;
    tab ++ "num epochs: " ++ Fmt.itoa (nepochs gv) ++ nl;
    tab ++ "num keys per epoch: " ++ Fmt.itoa (nkeys gv) ++ " (per rank)" ++ nl;
    tab ++ "plfsdir: " ++ dirname gv ++ nl;
    tab ++ "key size: " ++ Fmt.itoa (keysz gv) ++ nl;
    tab ++ "value size: " ++ Fmt.itoa (valsz gv) ++ nl;
    tab ++ "filter bits per key: " ++ Fmt.itoa (filterbits gv) ++ nl;
    tab ++ "io size: " ++ Fmt.itoa (iosz gv) ++ nl;
    tab ++ "log rotation: " ++ Fmt.itoa (logrotation gv) ++ nl;
    tab ++ "bbos: " ++ Fmt.itoa (bbos gv) ++ nl;
    tab ++ "bbos hostname: " ++ bboshostname gv ++ nl;
    tab ++ "bbos port: " ++ Fmt.itoa (bbosport gv) ++ nl;
    tab ++ "mpi comm size: " ++ Fmt.itoa (commsz gv) ++ nl;
    tab ++ "verbose: " ++ Fmt.itoa (v gv) ++ nl;
    nl ].

(** [g.v && !g.myrank]: the verbose messages come from rank 0 only. *)
Definition chatty (gv : gs) : bool := negb (v gv =? 0) && (myrank gv =? 0).

(** The parameters that pass every check of [main]. *)
Definition valid_params (gv : gs) : Prop :=
  0 < iosz gv /\ 0 <= nepochs gv /\ 0 <= nkeys gv /\ 0 <= filterbits gv /\
  0 < keysz gv /\ 0 <= valsz gv /\ 0 <= bg gv /\ 0 <= timeout gv /\
  0 < bbosport gv.

(** The statements of [main] that follow the call of [write]. *)
Definition finish_up (W : world) : M unit :=
  _ <- do_call W MPI_Finalize ;;
  s <- get ;;
  when (negb (v (g s) =? 0) && (myrank (g s) =? 0)) (info "all done!") ;;
  when (negb (v (g s) =? 0) && (myrank (g s) =? 0)) (info "bye") ;;
  exit 0.

(** The state in which [main] calls [write] for the program name [name]
    and the parameters [gv]: six calls made, no handle, no environment,
    no thread pool, the deadline armed unless the timeout is 0. *)
Definition write_entry (W : world) (name : string) (gv : gs) : state :=
  mkstate name 0 0 0 "" (mkbbos_conf "" "") gv
          (if Fmt.to_unsigned (timeout gv) =? 0 then None
           else Some (elapsed W 5 + Fmt.to_unsigned (timeout gv)))
          6.

(** What [main] has called and printed when it calls [write]. *)
Definition prologue_events (W : world) (name : string) (gv : gs) : list event :=
  ([Call MPI_Init (W 0%nat); Call MPI_Comm_rank (W 1%nat);
    Call MPI_Comm_size (W 2%nat)] ++
   map Stdout (printopts_text name gv) ++
   [Call signal_SIGALRM (W 3%nat);
    Call (alarm (Fmt.to_unsigned (timeout gv))) (W 4%nat)] ++
   (if chatty gv then map Stdout (info_text "test begins ...") else []) ++
   [Call MPI_Barrier (W 5%nat)])%list.

(** A run that continues the events [t0]. *)
Definition with_prefix {A} (t0 : list event)
    (r : outcome A * state * list event) : outcome A * state * list event :=
  (outcome_of r, state_of r, (t0 ++ events_of r)%list).

(** SIGALRM arrives before the barrier of [main] returns. *)
Definition barrier_late (W : world) (gv : gs) : bool :=
  if Fmt.to_unsigned (timeout gv) =? 0 then false
  else elapsed W 5 + Fmt.to_unsigned (timeout gv) <=? elapsed W 6.

(** A text that [atoi] cannot start to read: empty, or starting with a
    character that is neither white space, a sign nor a digit. *)
Definition not_a_number (s : string) : Prop :=
  match s with
  | EmptyString => True
  | String c _ =>
      Fmt.isspace c = false /\ Fmt.isdigit c = false /\
      c <> "-"%char /\ c <> "+"%char
  end.

(** What [main] has printed on stdout when it calls [write]. *)
Definition prologue_stdout (name : string) (gv : gs) : list string :=
  (printopts_text name gv ++
   (if chatty gv then info_text "test begins ..." else []))%list.

(** The two ways a run of [main] goes: it ends in [exit(1)] before it
    calls [write], or MPI started, the command line passed every check
    and the barrier returned in time, and the run is the prologue followed
    by [write] and the rest of [main] from [write_entry]. *)
Definition main_parts (W : world) (NDEBUG : bool) (name : string)
    (opts : list (ascii * string)) (operands : list string)
    (o : outcome unit) (s' : state) (t : list event) : Prop :=
  let rank := Fmt.to_int (out (W 1%nat)) in
  let size := Fmt.to_int (out (W 2%nat)) in
  let gv := parameters rank size opts operands in
  (o = Exited 1 /\
   (List.length (calls_of t) < 6)%nat /\
   prefix (stdout_of t) (prologue_stdout (argv0 s') (g s'))) \/
  ((status (W 0%nat) = 0 /\ status (W 1%nat) = 0 /\ status (W 2%nat) = 0) /\
   snd (options_parse opts (g_defaults rank size)) = None /\
   operands <> [] /\ 0 < bbosport gv /\ barrier_late W gv = false /\
   (o, s', t) = with_prefix (prologue_events W name gv)
                  ((write W NDEBUG ;; finish_up W) (write_entry W name gv))).

(** The URIs [mkbbos] formats for the globals [gv], before they are cut to
    the size of their buffers. *)
Definition bbos_lo_uri : string := "bmi+tcp".

Definition bbos_remote_uri (gv : gs) : string :=
  "bmi+tcp://" ++ bboshostname gv ++ ":" ++ Fmt.itoa (bbosport gv).

(** The call [mkbbos] makes. *)
Definition bbos_call (gv : gs) : call :=
  deltafs_env_init "bbos" (sized 50 bbos_lo_uri) (sized 50 (bbos_remote_uri gv)).

(** The loop of [write] over the epochs and what follows it: finish and
    the release of the handle. *)
Definition session (W : world) (NDEBUG : bool) (gv : gs) : M unit :=
  for_loop (Z.to_nat (nepochs gv)) 0 (writepoch W NDEBUG) ;;
  r <- do_call W deltafs_plfsdir_finish ;;
  when (negb (status r =? 0)) (complain ("error finalizing dir: " ++ errstr r)) ;;
  _ <- do_call W deltafs_plfsdir_free_handle ;;
  ret tt.

(** What holds when [write], started in [s], has opened the directory:
    the events [t0] of the setup and the state [s1] the session starts
    in. *)
Definition setup_done (NDEBUG : bool) (s : state) (t0 : list event) (s1 : state)
    : Prop :=
  calls_of t0 = setup_calls (g s) /\
  clean t0 /\ quiet t0 /\
  stdout_of t0 = (if NDEBUG then [] else info_text (descriptor (g s))) /\
  g s1 = g s /\ deadline s1 = deadline s /\ argv0 s1 = argv0 s /\
  cf s1 = descriptor (g s) /\
  ncalls s1 = (ncalls s + List.length (setup_calls (g s)))%nat /\
  (exists r, In (Call (deltafs_plfsdir_create_handle (descriptor (g s))) r) t0 /\
             dir s1 = handle r) /\
  (env s1 = 0 <-> bbos (g s) = 0) /\ (bgp s1 = 0 <-> bg (g s) = 0).

(** The two ways a run of [write] goes: it ends in [exit(1)] during the
    setup, or the setup is done and the run continues with the session. *)
Definition write_parts (W : world) (NDEBUG : bool) (s : state)
    (o : outcome unit) (s' : state) (t : list event) : Prop :=
  (o = Exited 1 /\ g s' = g s /\
   prefix (calls_of t) (setup_calls (g s)) /\
   prefix (stdout_of t) (if NDEBUG then [] else info_text (descriptor (g s)))) \/
  (exists t0 s1,
     setup_done NDEBUG s t0 s1 /\
     (o, s', t) = with_prefix t0 (session W NDEBUG (g s) s1)).

(** A piece of the program that stops at the first error it tests for: a
    call that reports one is followed by the complaint and nothing else,
    and the process ends with [exit(1)]. *)
Definition failfast {A} (o : outcome A) (s' : state) (t : list event) : Prop :=
  forall t0 c r t1,
    t = (t0 ++ Call c r :: t1)%list -> failed c r = true ->
    o = Exited 1 /\ exists msg, t1 = complaint (argv0 s') msg.

(** The three diagnostics of the program. *)
Definition diagnostic (d : list event) : Prop :=
  (exists name msg, d = complaint name msg) \/
  (exists name msg, d = usage_text name msg) \/
  (exists c, d = Pending c :: sigalarm_diag).

(** A run prints one diagnostic, as the last thing it does, when it ends
    with [exit(1)], and none otherwise. *)
Definition one_diagnostic {A} (o : outcome A) (s' : state) (t : list event)
    : Prop :=
  (o <> Exited 1 /\ quiet t) \/
  (o = Exited 1 /\ exists t0 d, t = (t0 ++ d)%list /\ quiet t0 /\ diagnostic d).

(** What a whole run of [main] prints on stdout: the options, the verbose
    messages of rank 0 and, in a build without NDEBUG, the descriptor. *)
Definition expected_stdout (NDEBUG : bool) (name : string) (gv : gs)
    : list string :=
  (prologue_stdout name gv ++
   (if NDEBUG then [] else info_text (descriptor gv)) ++
   (if chatty gv then info_text "all done!" ++ info_text "bye" else []))%list.

(** The message of the usage error a command line ends in, if it does:
    the first option refused, or no plfsdir operand, or a port that is
    not positive. *)
Definition refusal (rank size : Z) (opts : list (ascii * string))
    (operands : list string) : option (option string) :=
  match snd (options_parse opts (g_defaults rank size)) with
  | Some msg => Some msg
  | None =>
      match operands with
      | [] => Some (Some "bad args")
      | _ :: _ =>
          if bbosport (parameters rank size opts operands) <=? 0
          then Some (Some "bad bbos port")
          else None
      end
  end.

(** How a run of [main] goes once MPI has started: into the usage message
    of the [refusal], or on to [printopts], signal and alarm. *)
Definition command_line_checked (W : world) (name : string)
    (opts : list (ascii * string)) (operands : list string)
    (o : outcome unit) (s' : state) (t : list event) : Prop :=
  let rank := Fmt.to_int (out (W 1%nat)) in
  let size := Fmt.to_int (out (W 2%nat)) in
  let gv := parameters rank size opts operands in
  match refusal rank size opts operands with
  | Some msg =>
      o = Exited 1 /\
      t = ([Call MPI_Init (W 0%nat); Call MPI_Comm_rank (W 1%nat);
            Call MPI_Comm_size (W 2%nat)] ++ usage_text name msg)%list
  | None =>
      prefix ([Call MPI_Init (W 0%nat); Call MPI_Comm_rank (W 1%nat);
               Call MPI_Comm_size (W 2%nat)] ++
              map Stdout (printopts_text name gv) ++
              [Call signal_SIGALRM (W 3%nat);
               Call (alarm (Fmt.to_unsigned (timeout gv))) (W 4%nat)])%list t
  end.

(** The calls that append a record, flush an epoch, and so on. *)
Definition is_append (c : call) : bool :=
  match c with deltafs_plfsdir_append _ _ _ => true | _ => false end.

Definition is_flush (c : call) : bool :=
  match c with deltafs_plfsdir_epoch_flush _ => true | _ => false end.

Definition is_barrier (c : call) : bool :=
  match c with MPI_Barrier => true | _ => false end.

Definition is_finish (c : call) : bool :=
  match c with deltafs_plfsdir_finish => true | _ => false end.

Definition is_free (c : call) : bool :=
  match c with deltafs_plfsdir_free_handle => true | _ => false end.

Definition count (f : call -> bool) (cs : list call) : Z :=
  Z.of_nat (List.length (filter f cs)).

(** The run is [r]. *)
Definition run_is {A} (r : outcome A * state * list event)
    (o : outcome A) (s' : state) (t : list event) : Prop :=
  (o, s', t) = r.

(** A run that started after [n] calls of the process stops at the first
    error the program tests for: a call that reports one is followed by
    the complaint and nothing else, and the process ends with [exit(1)].
    The barrier of [main] itself, the sixth call of the process, is the
    one call whose result is not looked at. *)
Definition stops_from (n : nat) (o : outcome unit) (s' : state)
    (t : list event) : Prop :=
  forall t0 c r t1,
    t = (t0 ++ Call c r :: t1)%list -> failed c r = true ->
    (n + List.length (calls_of t0))%nat <> 5%nat ->
    o = Exited 1 /\ exists msg, t1 = complaint (argv0 s') msg.

Definition stops_at_error : outcome unit -> state -> list event -> Prop :=
  stops_from 0.

Definition is_create (c : call) : bool :=
  match c with deltafs_plfsdir_create_handle _ => true | _ => false end.

(** The world of one rank in which the call number [n] reports an error
    (a status that is not 0, a NULL) and every other call succeeds. *)
Definition failing_at (n : nat) : world :=
  fun i => if Nat.eqb i n then mkresp 1 0 0 "No such file or directory" 0
           else single_rank 0 i.

(** The appends and the flush of the epoch [e]. *)
Definition is_append_of (e : Z) (c : call) : bool :=
  match c with deltafs_plfsdir_append _ e' _ => e' =? e | _ => false end.

Definition is_flush_of (e : Z) (c : call) : bool :=
  match c with deltafs_plfsdir_epoch_flush e' => e' =? e | _ => false end.

(* ================================================================== *)
(** * Facts about strings and formatting *)
(* ================================================================== *)

Module FmtFacts.
Import Fmt.

Lemma length_append (s1 s2 : string) :
  String.length (s1 ++ s2) = (String.length s1 + String.length s2)%nat.
Proof. induction s1 as [|c s1 IH]; simpl; [reflexivity | now rewrite IH]. Qed.

Lemma append_assoc (s1 s2 s3 : string) : (s1 ++ s2) ++ s3 = s1 ++ (s2 ++ s3).
Proof. induction s1 as [|c s1 IH]; simpl; [reflexivity | now rewrite IH]. Qed.

Lemma append_empty_r (s : string) : s ++ "" = s.
Proof. induction s as [|c s IH]; simpl; [reflexivity | now rewrite IH]. Qed.

Lemma take_all (n : nat) (s : string) :
  (String.length s <= n)%nat -> take n s = s.
Proof.
  unfold take. revert n.
  induction s as [|c s IH]; intros [|n] H; simpl in *; try reflexivity; try lia.
  f_equal. apply IH. lia.
Qed.

Lemma take_append (s1 s2 : string) : take (String.length s1) (s1 ++ s2) = s1.
Proof.
  unfold take. induction s1 as [|c s1 IH]; simpl.
  - destruct s2; reflexivity.
  - now rewrite IH.
Qed.

Lemma append_inj (a1 a2 b1 b2 : string) :
  String.length a1 = String.length a2 ->
  a1 ++ b1 = a2 ++ b2 -> a1 = a2 /\ b1 = b2.
Proof.
  revert a2. induction a1 as [|c a1 IH]; intros [|c' a2] Hl H; simpl in *;
    try discriminate.
  - auto.
  - injection H as -> H. destruct (IH a2) as [-> ->]; auto.
Qed.

Lemma length_replicate (n : nat) (c : ascii) : String.length (replicate n c) = n.
Proof. induction n; simpl; congruence. Qed.

Lemma length_of_list (l : list ascii) :
  String.length (string_of_list_ascii l) = List.length l.
Proof. induction l; simpl; congruence. Qed.

Lemma list_of_append (s1 s2 : string) :
  list_ascii_of_string (s1 ++ s2)
  = (list_ascii_of_string s1 ++ list_ascii_of_string s2)%list.
Proof. induction s1 as [|c s1 IH]; simpl; [reflexivity | now rewrite IH]. Qed.

Lemma list_of_replicate (n : nat) (c : ascii) :
  list_ascii_of_string (replicate n c) = repeat c n.
Proof. induction n; simpl; congruence. Qed.

(** ** Digits *)

Lemma digits_le_length (base : Z) (k : nat) :
  2 <= base ->
  forall fuel n, 0 <= n < base ^ Z.of_nat (S k) ->
    (List.length (digits_le base fuel n) <= S k)%nat.
Proof.
  intros Hb. induction k as [|k IH]; intros fuel n Hn.
  - destruct fuel; simpl; [lia|].
    change (Z.of_nat 1) with 1 in Hn. rewrite Z.pow_1_r in Hn.
    rewrite Z.div_small by lia. simpl. lia.
  - destruct fuel; simpl; [lia|].
    destruct (n / base =? 0); simpl; [lia|].
    apply le_n_S, IH. split; [apply Z.div_pos; lia|].
    apply Z.div_lt_upper_bound; [lia|].
    rewrite <- Z.pow_succ_r by lia. rewrite <- Nat2Z.inj_succ. apply Hn.
Qed.

Lemma digits_le_range (base : Z) :
  2 <= base ->
  forall fuel n, Forall (fun d => 0 <= d < base) (digits_le base fuel n).
Proof.
  intros Hb. induction fuel as [|f IH]; intros n; simpl.
  - constructor; [apply Z.mod_pos_bound; lia | constructor].
  - constructor; [apply Z.mod_pos_bound; lia |].
    destruct (n / base =? 0); [constructor | apply IH].
Qed.

(** With enough fuel the digits denote the number. *)
Lemma digits_le_value (base : Z) :
  2 <= base ->
  forall fuel n, 0 <= n < base ^ Z.of_nat (S fuel) ->
    value_le base (digits_le base fuel n) = n.
Proof.
  intros Hb. induction fuel as [|f IH]; intros n Hn.
  - change (Z.of_nat 1) with 1 in Hn. rewrite Z.pow_1_r in Hn.
    simpl. rewrite Z.mod_small by lia. lia.
  - cbn [digits_le]. destruct (n / base =? 0) eqn:E.
    + apply Z.eqb_eq in E. simpl.
      pose proof (Z.div_mod n base ltac:(lia)). nia.
    + cbn [value_le]. rewrite IH.
      * pose proof (Z.div_mod n base ltac:(lia)). lia.
      * split; [apply Z.div_pos; lia|].
        apply Z.div_lt_upper_bound; [lia|].
        rewrite <- Z.pow_succ_r by lia. rewrite <- Nat2Z.inj_succ. apply Hn.
Qed.

Lemma log2_fuel (base n : Z) :
  2 <= base -> 0 <= n -> n < base ^ Z.of_nat (S (Z.to_nat (Z.log2 n))).
Proof.
  intros Hb Hn.
  rewrite Nat2Z.inj_succ, Z2Nat.id by apply Z.log2_nonneg.
  destruct (Z.eq_dec n 0) as [->|Hz].
  - simpl. lia.
  - apply Z.lt_le_trans with (2 ^ Z.succ (Z.log2 n)).
    + apply Z.log2_spec. lia.
    + apply Z.pow_le_mono_l. lia.
Qed.

Lemma value_le_zeros (base : Z) (ds : list Z) (k : nat) :
  value_le base (ds ++ repeat 0 k) = value_le base ds.
Proof.
  induction ds as [|d ds IH]; simpl.
  - induction k; simpl; lia.
  - now rewrite IH.
Qed.

Lemma digit_val_char (d : Z) : 0 <= d < 16 -> digit_val (digit_char d) = d.
Proof.
  intros H.
  assert (d = 0 \/ d = 1 \/ d = 2 \/ d = 3 \/ d = 4 \/ d = 5 \/ d = 6 \/ d = 7 \/
          d = 8 \/ d = 9 \/ d = 10 \/ d = 11 \/ d = 12 \/ d = 13 \/ d = 14 \/ d = 15)
    as C by lia.
  repeat (destruct C as [->|C]; [reflexivity|]). subst; reflexivity.
Qed.

Lemma map_digit_val_char (base : Z) (ds : list Z) :
  base <= 16 -> Forall (fun d => 0 <= d < base) ds ->
  map digit_val (map digit_char ds) = ds.
Proof.
  intros Hb H. induction H as [|d ds Hd _ IH]; simpl; [reflexivity|].
  rewrite IH, digit_val_char by lia. reflexivity.
Qed.

(** ** [utoa], [itoa] *)

Lemma utoa_length (base n : Z) (k : nat) :
  2 <= base -> 0 <= n < base ^ Z.of_nat (S k) ->
  (String.length (utoa base n) <= S k)%nat.
Proof.
  intros Hb Hn. unfold utoa.
  rewrite length_of_list, length_map, length_rev.
  now apply digits_le_length.
Qed.

(** Reading back what [utoa] wrote, behind any number of zeros. *)
Lemma read_utoa_padded (base n : Z) (k : nat) :
  2 <= base <= 16 -> 0 <= n ->
  read_digits base (replicate k "0" ++ utoa base n) = n.
Proof.
  intros Hb Hn. unfold read_digits, utoa.
  rewrite list_of_append, list_of_replicate, list_ascii_of_string_of_list_ascii.
  rewrite map_app, map_repeat.
  rewrite (map_digit_val_char base) by
    (try lia; apply Forall_rev, digits_le_range; lia).
  rewrite rev_app_distr, rev_involutive, rev_repeat.
  change (digit_val "0") with 0.
  rewrite value_le_zeros. apply digits_le_value; [lia|].
  split; [lia | apply log2_fuel; lia].
Qed.

Lemma read_utoa (base n : Z) :
  2 <= base <= 16 -> 0 <= n -> read_digits base (utoa base n) = n.
Proof. intros. now apply (read_utoa_padded base n 0). Qed.

Lemma itoa_length (z : Z) : int_range z -> (String.length (itoa z) <= 11)%nat.
Proof.
  unfold int_range, itoa. intros H.
  destruct (z <? 0) eqn:E.
  - apply Z.ltb_lt in E. simpl. apply le_n_S.
    apply (utoa_length 10 (- z) 9); [lia|].
    change (10 ^ Z.of_nat 10) with 10000000000. lia.
  - apply Z.ltb_ge in E.
    apply Nat.le_trans with 10%nat; [|lia].
    apply (utoa_length 10 z 9); [lia|].
    change (10 ^ Z.of_nat 10) with 10000000000. lia.
Qed.

(** [%d] writes the number: the digits of a non-negative [int] read back
    give it, and a negative one is written as the sign and its opposite. *)
Lemma read_itoa (z : Z) : 0 <= z -> read_digits 10 (itoa z) = z.
Proof.
  intros H. unfold itoa. destruct (Z.ltb_spec z 0); [lia|].
  apply read_utoa; lia.
Qed.

Lemma itoa_negative (z : Z) : z < 0 -> itoa z = String "-" (itoa (- z)).
Proof.
  intros H. unfold itoa.
  destruct (Z.ltb_spec z 0); [|lia].
  destruct (Z.ltb_spec (- z) 0); [lia | reflexivity].
Qed.

(** ** [%08x] *)

Lemma to_unsigned_range (z : Z) : 0 <= to_unsigned z < 2 ^ 32.
Proof. unfold to_unsigned. apply Z.mod_pos_bound. lia. Qed.

Lemma to_unsigned_inj (a b : Z) :
  int_range a -> int_range b -> to_unsigned a = to_unsigned b -> a = b.
Proof.
  unfold int_range, to_unsigned. intros Ha Hb H.
  pose proof (Z.div_mod a (2 ^ 32) ltac:(lia)).
  pose proof (Z.div_mod b (2 ^ 32) ltac:(lia)).
  pose proof (Z.mod_pos_bound a (2 ^ 32) ltac:(lia)).
  pose proof (Z.mod_pos_bound b (2 ^ 32) ltac:(lia)).
  lia.
Qed.

Lemma hex08_length (z : Z) : String.length (hex08 z) = 8%nat.
Proof.
  unfold hex08, zero_pad. rewrite length_append, length_replicate.
  pose proof (to_unsigned_range z) as R.
  assert ((String.length (utoa 16 (to_unsigned z)) <= 8)%nat).
  { apply (utoa_length 16 _ 7); [lia|].
    change (16 ^ Z.of_nat 8) with (2 ^ 32). exact R. }
  lia.
Qed.

Lemma read_hex08 (z : Z) : read_digits 16 (hex08 z) = to_unsigned z.
Proof.
  unfold hex08, zero_pad. apply read_utoa_padded; [lia|].
  apply to_unsigned_range.
Qed.

Lemma hex08_inj (a b : Z) :
  int_range a -> int_range b -> hex08 a = hex08 b -> a = b.
Proof.
  intros Ha Hb H. apply to_unsigned_inj; trivial.
  rewrite <- (read_hex08 a), <- (read_hex08 b). now rewrite H.
Qed.

End FmtFacts.

(* ================================================================== *)
(** * The configuration descriptor *)
(* ================================================================== *)

Section Descriptor.
Import Fmt FmtFacts.

(** A piece that fits is stored whole. *)
Lemma cf_snprintf_fits (buf piece : string) :
  Z.of_nat (String.length buf + String.length piece) < cf_size ->
  cf_snprintf (buf, Z.of_nat (String.length buf)) piece
  = Some (buf ++ piece, Z.of_nat (String.length (buf ++ piece))).
Proof.
  unfold cf_snprintf, snprintf, cf_size. intros H.
  destruct (Z.ltb_spec (Z.of_nat (String.length buf)) 0); [lia|].
  destruct (Z.ltb_spec 500 (Z.of_nat (String.length buf))); [lia|].
  destruct (Z.leb_spec (500 - Z.of_nat (String.length buf)) 0); [lia|].
  simpl orb. cbv iota.
  rewrite Z.ltb_irrefl, Nat2Z.id.
  rewrite (take_all _ piece) by lia.
  rewrite (take_all _ buf) by lia.
  rewrite length_append, Nat2Z.inj_add. reflexivity.
Qed.

Lemma cf_fold_fits (ps : list string) :
  forall buf,
    Z.of_nat (String.length buf + total_length ps) < cf_size ->
    fold_left (fun st piece => and_then st (fun st' => cf_snprintf st' piece))
              ps (Some (buf, Z.of_nat (String.length buf)))
    = Some (buf ++ String.concat "" ps,
            Z.of_nat (String.length (buf ++ String.concat "" ps))).
Proof.
  induction ps as [|p ps IH]; intros buf H; cbn [fold_left and_then total_length] in *.
  - simpl. now rewrite append_empty_r.
  - rewrite cf_snprintf_fits by lia.
    rewrite IH by (rewrite length_append; lia).
    destruct ps as [|q ps]; simpl.
    + now rewrite !append_empty_r.
    + now rewrite !append_assoc.
Qed.

Lemma conf_pieces_length (gv : gs) :
  gs_ints gv -> (total_length (conf_pieces gv) <= 267)%nat.
Proof.
  unfold gs_ints. intros H. decompose [and] H.
  unfold conf_pieces, total_length. rewrite !length_append.
  repeat match goal with
         | Hr : int_range ?z |- _ =>
             pose proof (itoa_length z Hr); clear Hr
         end.
  simpl String.length. lia.
Qed.

Lemma conf_pieces_descriptor (gv : gs) :
  String.concat "" (conf_pieces gv) = descriptor gv.
Proof.
  unfold descriptor, conf_fields, conf_pieces. simpl.
  repeat (rewrite ?append_assoc; simpl; repeat f_equal).
Qed.

Lemma descriptor_length (gv : gs) :
  gs_ints gv -> (String.length (descriptor gv) <= 267)%nat.
Proof.
  intros H. rewrite <- conf_pieces_descriptor.
  pose proof (conf_pieces_length gv H) as L. revert L.
  generalize (conf_pieces gv). intros ps.
  assert (forall qs, String.length (String.concat "" qs) = total_length qs) as E.
  { induction qs as [|q qs IH]; simpl; [reflexivity|].
    destruct qs as [|q' qs]; simpl in *.
    - lia.
    - rewrite length_append. simpl. rewrite IH. reflexivity. }
  now rewrite E.
Qed.

(** The snprintf calls of [mkconf] leave the whole descriptor in [cf]. *)
Lemma mkconf_cf_descriptor (gv : gs) :
  gs_ints gv -> mkconf_cf gv = Some (descriptor gv).
Proof.
  intros H. unfold mkconf_cf.
  pose proof (conf_pieces_length gv H) as L.
  change (Some ("", 0)) with (Some ("", Z.of_nat (String.length ""))).
  rewrite cf_fold_fits by (unfold cf_size; simpl String.length; lia).
  cbn [and_then fst append]. now rewrite conf_pieces_descriptor.
Qed.

End Descriptor.

(* ================================================================== *)
(** * Rules for running the program step by step *)
(* ================================================================== *)

Local Open Scope list_scope.

Lemma complain_run {A} (msg : string) s :
  @complain A msg s = (Exited 1, s, complaint (argv0 s) msg).
Proof. reflexivity. Qed.

Lemma usage_run {A} (msg : option string) s :
  @usage A msg s = (Exited 1, s, usage_text (argv0 s) msg).
Proof. destruct msg; reflexivity. Qed.
Section Rules.
Variable W : world.
Variable NDEBUG : bool.
Context {A B : Type}.
Implicit Types (Q : outcome B -> state -> list event -> Prop).

Lemma wp_bind_then (m : M A) (k : A -> M B) s Q
    (Q1 : outcome A -> state -> list event -> Prop) :
  wp m s Q1 ->
  (forall o s1 t1, Q1 o s1 t1 ->
     match o with
     | Returned a => wp (k a) s1 (fun o' s2 t2 => Q o' s2 (t1 ++ t2))
     | Exited c => Q (Exited c) s1 t1
     | Aborted => Q Aborted s1 t1
     | Undefined => Q Undefined s1 t1
     end) ->
  wp (bind m k) s Q.
Proof.
  unfold wp, bind, outcome_of, state_of, events_of. intros H1 H2.
  specialize (H2 _ _ _ H1).
  destruct (m s) as [[o s1] t1]. simpl in *.
  destruct o; simpl; trivial.
  destruct (k a s1) as [[o' s2] t2]. exact H2.
Qed.

Lemma wp_ret (b0 : B) s Q : Q (Returned b0) s [] -> wp (ret b0) s Q.
Proof. trivial. Qed.

Lemma wp_exit (c : Z) s Q : Q (Exited c) s [] -> wp (exit c) s Q.
Proof. trivial. Qed.

Lemma wp_abort s Q : Q Aborted s [] -> wp abort s Q.
Proof. trivial. Qed.

Lemma wp_undefined s Q : Q Undefined s [] -> wp undefined s Q.
Proof. trivial. Qed.

Lemma wp_get (k : state -> M B) s Q : wp (k s) s Q -> wp (bind get k) s Q.
Proof.
  unfold wp, bind, get, outcome_of, state_of, events_of. simpl.
  destruct (k s s) as [[o s2] t2]. trivial.
Qed.

Lemma wp_modify (f : state -> state) (k : unit -> M B) s Q :
  wp (k tt) (f s) Q -> wp (bind (modify f) k) s Q.
Proof.
  unfold wp, bind, modify, outcome_of, state_of, events_of. simpl.
  destruct (k tt (f s)) as [[o s2] t2]. trivial.
Qed.

Lemma wp_modify_g (f : gs -> gs) (k : unit -> M B) s Q :
  wp (k tt) (set_g (f (g s)) s) Q -> wp (bind (modify_g f) k) s Q.
Proof. apply wp_modify. Qed.

Lemma wp_emit (e : event) (k : unit -> M B) s Q :
  wp (k tt) s (fun o s' t => Q o s' (e :: t)) -> wp (bind (emit e) k) s Q.
Proof.
  unfold wp, bind, emit, outcome_of, state_of, events_of. simpl.
  destruct (k tt s) as [[o s2] t2]. trivial.
Qed.

Lemma wp_modify_end (f : state -> state) s
    (Q : outcome unit -> state -> list event -> Prop) :
  Q (Returned tt) (f s) [] -> wp (modify f) s Q.
Proof. trivial. Qed.

Lemma wp_emit_end (e : event) s
    (Q : outcome unit -> state -> list event -> Prop) :
  Q (Returned tt) s [e] -> wp (emit e) s Q.
Proof. trivial. Qed.

Lemma wp_sigalarm s Q : Q (Exited 1) s sigalarm_diag -> wp sigalarm s Q.
Proof. trivial. Qed.

Lemma wp_complain (msg : string) s Q :
  Q (Exited 1) s (complaint (argv0 s) msg) -> wp (complain msg) s Q.
Proof. trivial. Qed.

Lemma wp_usage (msg : option string) s Q :
  Q (Exited 1) s (usage_text (argv0 s) msg) -> wp (usage msg) s Q.
Proof. destruct msg; trivial. Qed.

(** A call: either SIGALRM arrives first, or it returns the next answer of
    the world. *)
Lemma wp_call (c : call) (k : response -> M B) s Q :
  (fires W s = true -> Q (Exited 1) s (Pending c :: sigalarm_diag)) ->
  (fires W s = false ->
   wp (k (W (ncalls s))) (count_call s)
      (fun o s' t => Q o s' (Call c (W (ncalls s)) :: t))) ->
  wp (bind (do_call W c) k) s Q.
Proof.
  unfold wp, bind, do_call, fires, outcome_of, state_of, events_of.
  intros H1 H2.
  destruct (match deadline s with Some t => t <=? elapsed W (S (ncalls s)) | None => false end).
  - simpl. apply H1. reflexivity.
  - specialize (H2 eq_refl). simpl in *.
    destruct (k (W (ncalls s)) (count_call s)) as [[o s2] t2]. exact H2.
Qed.

(** [if (c) complain(...)] and its like: a guard whose body does not
    return. *)
Lemma wp_when_exit (c : bool) (m : M unit) (k : unit -> M B) s Q
    (t : list event) (code : Z) :
  m s = (Exited code, s, t) ->
  (c = true -> Q (Exited code) s t) ->
  (c = false -> wp (k tt) s Q) ->
  wp (bind (when c m) k) s Q.
Proof.
  unfold wp, bind, when, outcome_of, state_of, events_of. intros Hm H1 H2.
  destruct c.
  - rewrite Hm. simpl. auto.
  - specialize (H2 eq_refl). simpl in *.
    destruct (k tt s) as [[o s2] t2]. exact H2.
Qed.

Lemma wp_assert (k : unit -> M B) s Q :
  (NDEBUG = false -> dir s = 0 -> Q Aborted s []) ->
  wp (k tt) s Q ->
  wp (bind (assert_dir NDEBUG) k) s Q.
Proof.
  unfold wp, assert_dir, outcome_of, state_of, events_of.
  intros H1 H2. cbv [bind get].
  destruct NDEBUG; simpl.
  - destruct (k tt s) as [[o s2] t2]. exact H2.
  - destruct (Z.eqb_spec (dir s) 0); simpl.
    + apply H1; trivial.
    + destruct (k tt s) as [[o s2] t2]. exact H2.
Qed.

Lemma wp_ret_bind (a : A) (k : A -> M B) s Q :
  wp (k a) s Q -> wp (bind (ret a) k) s Q.
Proof.
  unfold wp, bind, ret, outcome_of, state_of, events_of. simpl.
  destruct (k a s) as [[o s2] t2]. trivial.
Qed.

Lemma wp_abort_bind (k : A -> M B) s Q :
  Q Aborted s [] -> wp (bind abort k) s Q.
Proof. trivial. Qed.

Lemma wp_usage_bind (msg : option string) (k : A -> M B) s Q :
  Q (Exited 1) s (usage_text (argv0 s) msg) -> wp (bind (usage msg) k) s Q.
Proof.
  intros H. unfold wp, bind, outcome_of, state_of, events_of.
  rewrite (usage_run msg s). exact H.
Qed.

End Rules.

Lemma wp_assoc {A B C} (m : M A) (k1 : A -> M B) (k2 : B -> M C) s
    (Q : outcome C -> state -> list event -> Prop) :
  wp (bind m (fun x => bind (k1 x) k2)) s Q -> wp (bind (bind m k1) k2) s Q.
Proof.
  unfold wp, bind, outcome_of, state_of, events_of.
  destruct (m s) as [[[a|c| |] s1] t1]; simpl; trivial.
  destruct (k1 a s1) as [[[b0|c| |] s2] t2]; simpl; trivial.
  destruct (k2 b0 s2) as [[o s3] t3]. simpl. now rewrite app_assoc.
Qed.

Lemma wp_and {A} (m : M A) s (Q1 Q2 : outcome A -> state -> list event -> Prop) :
  wp m s Q1 -> wp m s Q2 -> wp m s (fun o s' t => Q1 o s' t /\ Q2 o s' t).
Proof. unfold wp. auto. Qed.

Lemma wp_mono {A} (m : M A) s (Q Q' : outcome A -> state -> list event -> Prop) :
  wp m s Q -> (forall o s' t, Q o s' t -> Q' o s' t) -> wp m s Q'.
Proof. unfold wp. auto. Qed.

(* ================================================================== *)
(** * Traces *)
(* ================================================================== *)

Lemma calls_of_app (t1 t2 : list event) :
  calls_of (t1 ++ t2) = calls_of t1 ++ calls_of t2.
Proof. apply flat_map_app. Qed.

Lemma calls_of_call (c : call) (r : response) (t : list event) :
  calls_of (Call c r :: t) = c :: calls_of t.
Proof. reflexivity. Qed.

Lemma calls_of_nil : calls_of [] = [].
Proof. reflexivity. Qed.

Lemma prefix_refl {A} (l : list A) : prefix l l.
Proof. exists []. now rewrite app_nil_r. Qed.

Lemma prefix_nil {A} (l : list A) : prefix [] l.
Proof. now exists l. Qed.

Lemma prefix_app {A} (l l1 l2 : list A) : prefix l1 l2 -> prefix (l ++ l1) (l ++ l2).
Proof. intros [x ->]. exists x. now rewrite app_assoc. Qed.

Lemma prefix_app_r {A} (l1 l2 l : list A) : prefix l1 l2 -> prefix l1 (l2 ++ l).
Proof. intros [x ->]. exists (x ++ l). now rewrite app_assoc. Qed.

Lemma prefix_cons {A} (a : A) (l1 l2 : list A) : prefix l1 l2 -> prefix (a :: l1) (a :: l2).
Proof. apply (prefix_app [a]). Qed.

Lemma prefix_trans {A} (l1 l2 l3 : list A) : prefix l1 l2 -> prefix l2 l3 -> prefix l1 l3.
Proof. intros [x ->] [y ->]. exists (x ++ y). now rewrite app_assoc. Qed.

Lemma flat_map_single {A B} (f : A -> B) (l : list A) :
  flat_map (fun x => [f x]) l = map f l.
Proof. induction l; simpl; congruence. Qed.

Create HintDb prefix.
#[export] Hint Resolve prefix_refl prefix_nil prefix_app prefix_app_r prefix_cons : prefix.

Ltac solve_quiet :=
  unfold quiet in *;
  repeat first [ assumption | apply Forall_nil
               | apply Forall_cons; [reflexivity|]
               | apply Forall_app; split ].

Ltac norm_state :=
  cbn [initial deadline g dir argv0 env bgp cf b ncalls count_call
       set_dir set_env set_bgp set_cf set_b set_g set_argv0 set_deadline] in *.

(** Bring the state a run has reached into constructor form. *)
Ltac norm_term s :=
  let s1 := eval cbv beta delta [initial set_argv0 set_dir set_env set_bgp set_cf
                                 set_b set_g set_deadline count_call] in s in
  let s2 := eval cbn [argv0 dir env bgp cf b g deadline ncalls] in s1 in
  s2.

Ltac norm_run :=
  lazymatch goal with
  | |- wp ?m ?s ?Q => let s' := norm_term s in change (wp m s' Q)
  | |- ?P ?o ?s ?t => let s' := norm_term s in change (P o s' t)
  end.

(* ================================================================== *)
(** * The calls of [writekey], [writepoch] and the epoch loop *)
(* ================================================================== *)

Section Protocol.
Variable W : world.
Variable NDEBUG : bool.

(** Sequencing two runs that follow their calls. *)
Lemma follows_seq (gv : gs) (c1 c2 : list call) (m : M unit) (k : unit -> M unit) s :
  wp m s (follows gv c1) ->
  (forall s1, g s1 = gv -> wp (k tt) s1 (follows gv c2)) ->
  wp (bind m k) s (follows gv (c1 ++ c2)).
Proof.
  intros H1 H2. eapply wp_bind_then; [exact H1|].
  intros o s1 t1 (Hg & Hp & Hr).
  destruct o as [[]| | |].
  - eapply wp_mono; [apply H2, Hg|].
    intros o' s2 t2 (Hg' & Hp' & Hr'). unfold follows.
    rewrite calls_of_app, (Hr eq_refl). repeat split; auto with prefix.
    intros E. now rewrite (Hr' E).
  - repeat split; auto with prefix. discriminate.
  - repeat split; auto with prefix. discriminate.
  - repeat split; auto with prefix. discriminate.
Qed.

Lemma for_loop_follows (gv : gs) (body : Z -> M unit) (canon : Z -> list call) :
  (forall i s, g s = gv -> wp (body i) s (follows gv (canon i))) ->
  forall n i s, g s = gv ->
    wp (for_loop n i body) s (follows gv (flat_map canon (zrange n i))).
Proof.
  intros Hb. induction n as [|n IH]; intros i s Hg; cbn [for_loop zrange flat_map].
  - apply wp_ret. repeat split; auto with prefix.
  - apply follows_seq; auto.
Qed.

Ltac close_follows :=
  unfold follows; cbn [g count_call calls_of flat_map app complaint sigalarm_diag];
  repeat split; auto with prefix; try discriminate.

Lemma writekey_follows (k e : Z) (val : string) s :
  wp (writekey W NDEBUG k e val) s
     (follows (g s) [deltafs_plfsdir_append (fname_of k (myrank (g s))) e val]).
Proof.
  unfold writekey.
  apply wp_assert; [intros; close_follows|].
  apply wp_get.
  apply wp_call; intros F; [close_follows|].
  destruct (negb (status (W (ncalls s)) =? 0)); cbn [when].
  - apply wp_complain. close_follows.
  - apply wp_ret. close_follows.
Qed.

Lemma writepoch_follows (e : Z) s :
  wp (writepoch W NDEBUG e) s (follows (g s) (epoch_calls (g s) e)).
Proof.
  unfold writepoch.
  apply wp_assert; [intros; close_follows|].
  apply wp_get.
  destruct (valsz (g s) <? 0); [apply wp_abort_bind; close_follows|].
  apply wp_ret_bind.
  unfold epoch_calls. apply follows_seq.
  - unfold append_calls. rewrite <- flat_map_single.
    apply for_loop_follows; [|reflexivity].
    intros i s0 Hg. rewrite <- Hg. apply writekey_follows.
  - intros s1 Hg.
    apply wp_call; intros F; [close_follows|].
    eapply wp_when_exit; [apply complain_run | intros; close_follows |].
    intros _.
    apply wp_call; intros F'; [close_follows|].
    destruct (negb (status (W (ncalls (count_call s1))) =? 0)); cbn [when].
    + apply wp_complain. close_follows.
    + apply wp_ret. close_follows.
Qed.

Lemma epochs_follow (n : nat) (i : Z) s :
  wp (for_loop n i (writepoch W NDEBUG)) s
     (follows (g s) (flat_map (epoch_calls (g s)) (zrange n i))).
Proof.
  apply for_loop_follows; [|reflexivity].
  intros j s0 Hg. rewrite <- Hg. apply writepoch_follows.
Qed.

(** ** Setup *)

Lemma setup_then {A} (gv : gs) (m : M A) (k : A -> M unit) s :
  wp m s (setup_only gv) ->
  (forall a s1, g s1 = gv -> wp (k a) s1 (session_run gv)) ->
  wp (bind m k) s (session_run gv).
Proof.
  intros H1 H2. eapply wp_bind_then; [exact H1|].
  intros o s1 t1 (Hg & Hs).
  assert (forall o', o' <> Returned tt -> session_run gv o' s1 t1) as Stop.
  { intros o' Ho'. exists (calls_of t1). unfold follows.
    repeat split; auto with prefix. intros; contradiction. }
  destruct o as [a| | |]; try (apply Stop; discriminate).
  eapply wp_mono; [apply H2, Hg|].
  intros o' s2 t2 (pre & Hpre & Hg' & Hp & Hr).
  exists (calls_of t1 ++ pre). unfold follows.
  rewrite calls_of_app, <- !app_assoc.
  repeat split; auto with prefix.
  - apply Forall_app; auto.
  - intros E. now rewrite (Hr E).
Qed.

Lemma call_setup (c : call) s :
  is_setup_call c = true -> wp (do_call W c) s (setup_only (g s)).
Proof.
  intros Hc. unfold wp, do_call, setup_only, outcome_of, state_of, events_of.
  destruct (match deadline s with Some t => _ | None => _ end); simpl; auto.
Qed.

Lemma when_complain_setup (c : bool) (msg : string) s :
  wp (when c (complain msg)) s (setup_only (g s)).
Proof. destruct c; split; simpl; auto. Qed.

Ltac setup_call :=
  eapply wp_bind_then; [apply call_setup; reflexivity|];
  let o := fresh "o" in let s1 := fresh "s" in let t1 := fresh "t" in
  let Hg := fresh "Hg" in let Hs := fresh "Hs" in
  intros o s1 t1 (Hg & Hs).

Lemma mkbbos_setup s : wp (mkbbos W) s (setup_only (g s)).
Proof.
  unfold mkbbos. apply wp_get.
  destruct (_ || _); [split; simpl; auto|].
  do 2 apply wp_modify.
  apply wp_call; intros F; [split; simpl; auto|].
  apply wp_modify.
  destruct (handle _ =? 0); split; simpl; auto.
Qed.

Lemma mkconf_setup s : wp (mkconf W NDEBUG) s (setup_only (g s)).
Proof.
  unfold mkconf. apply wp_get.
  assert (forall s0, g s0 = g s ->
            wp (s1 <- get;;
                when (negb (bg (g s1) =? 0) && (bgp s1 =? 0))
                     (complain "fail to init thread pool");;
                match mkconf_cf (g s1) with
                | Some c => modify (set_cf c);; when (negb NDEBUG) (info c)
                | None => undefined
                end) s0 (fun o s' t => g s' = g s /\ calls_of t = [])) as Rest.
  { intros s0 Hg. apply wp_get.
    eapply wp_when_exit; [apply complain_run | intros; split; auto |].
    intros _. destruct (mkconf_cf (g s0)); [|apply wp_undefined; split; auto].
    apply wp_modify. destruct NDEBUG; split; simpl; auto. }
  destruct (_ && _).
  - eapply wp_bind_then.
    + apply wp_call; intros F.
      * instantiate (1 := setup_only (g s)). split; simpl; auto.
      * apply wp_modify_end. split; simpl; auto.
    + intros o s1 t1 (Hg & Hs).
      destruct o; try (split; assumption).
      eapply wp_mono; [apply Rest, Hg|].
      intros o' s2 t2 (Hg' & Hc). split; [assumption|].
      now rewrite calls_of_app, Hc, app_nil_r.
  - apply wp_ret_bind. eapply wp_mono; [apply Rest; reflexivity|].
    intros o' s2 t2 (Hg' & Hc). split; [assumption|]. rewrite Hc. constructor.
Qed.

Ltac at_g :=
  match goal with
  | |- wp _ ?s0 (setup_only ?gv) => replace gv with (g s0) by (simpl; congruence)
  end.

Lemma optional_call_setup (c : bool) (x : call) s :
  is_setup_call x = true ->
  wp (if c then _ <- do_call W x;; ret tt else ret tt) s (setup_only (g s)).
Proof.
  intros Hx. destruct c; [|split; simpl; auto].
  eapply wp_bind_then; [apply call_setup, Hx|].
  intros [a| | |] s1 t1 H; try exact H.
  apply wp_ret. now rewrite app_nil_r.
Qed.

(** [write] makes setup calls, then the calls of the session in order. *)
Lemma write_session s : wp (write W NDEBUG) s (session_run (g s)).
Proof.
  unfold write. apply wp_get.
  apply setup_then.
  { destruct (negb _); [apply mkbbos_setup | split; simpl; auto]. }
  intros _ s1 Hg1.
  apply setup_then; [at_g; apply mkconf_setup|].
  intros _ s2 Hg2. apply wp_get.
  apply setup_then; [at_g; apply call_setup; reflexivity|].
  intros r s3 Hg3. apply wp_modify.
  apply setup_then; [at_g; apply call_setup; reflexivity|].
  intros _ s4 Hg4. apply wp_get.
  apply setup_then; [at_g; apply optional_call_setup; reflexivity|].
  intros _ s5 Hg5.
  apply setup_then; [at_g; apply optional_call_setup; reflexivity|].
  intros _ s6 Hg6.
  apply setup_then; [at_g; apply call_setup; reflexivity|].
  intros r' s7 Hg7.
  apply setup_then; [at_g; apply when_complain_setup|].
  intros _ s8 Hg8.
  exists []. split; [constructor|]. cbn [app]. unfold session_calls, epochs_calls.
  rewrite Hg4. rewrite <- Hg8.
  apply follows_seq; [apply epochs_follow|].
  intros s9 Hg9.
  apply wp_call; intros F; [close_follows|].
  eapply wp_when_exit; [apply complain_run | intros; close_follows |].
  intros _.
  apply wp_call; intros F'; [close_follows|].
  apply wp_ret. close_follows.
Qed.

End Protocol.

(* ================================================================== *)
(** * The order of appends and flushes *)
(* ================================================================== *)

Section Order.

Lemma ordered_app (l1 l2 : list call) :
  ordered l1 -> ordered l2 ->
  (forall c1 c2 z1 z2, In c1 l1 -> In c2 l2 ->
     stamp c1 = Some z1 -> stamp c2 = Some z2 -> z1 <= z2) ->
  ordered (l1 ++ l2).
Proof.
  intros O1 O2 X i j c1 c2 z1 z2 Hij H1 H2 S1 S2.
  destruct (Nat.lt_ge_cases j (List.length l1)) as [Hj|Hj].
  - rewrite nth_error_app1 in H1 by lia. rewrite nth_error_app1 in H2 by lia.
    apply (O1 i j c1 c2 z1 z2); assumption.
  - rewrite nth_error_app2 in H2 by lia.
    destruct (Nat.lt_ge_cases i (List.length l1)) as [Hi|Hi].
    + rewrite nth_error_app1 in H1 by lia.
      apply (X c1 c2 z1 z2); eauto using nth_error_In.
    + rewrite nth_error_app2 in H1 by lia.
      apply (O2 (i - List.length l1)%nat (j - List.length l1)%nat c1 c2 z1 z2);
        try assumption. lia.
Qed.

Lemma ordered_flat (l : list call) (z : Z) :
  (forall c z', In c l -> stamp c = Some z' -> z' = z) -> ordered l.
Proof.
  intros H i j c1 c2 z1 z2 _ H1 H2 S1 S2.
  apply nth_error_In in H1, H2.
  rewrite (H _ _ H1 S1), (H _ _ H2 S2). lia.
Qed.

Lemma ordered_prefix (l1 l2 : list call) : prefix l1 l2 -> ordered l2 -> ordered l1.
Proof.
  intros [x ->] O i j c1 c2 z1 z2 Hij H1 H2.
  apply (O i j c1 c2 z1 z2 Hij).
  - rewrite nth_error_app1; [assumption|]. apply nth_error_Some. congruence.
  - rewrite nth_error_app1; [assumption|]. apply nth_error_Some. congruence.
Qed.

Variable gv : gs.

Lemma append_calls_stamp (e : Z) (c : call) (z : Z) :
  In c (append_calls gv e) -> stamp c = Some z -> z = 2 * e.
Proof.
  unfold append_calls. intros H S. apply in_map_iff in H as (i & <- & _).
  change (Some (2 * e) = Some z) in S. congruence.
Qed.

Lemma epoch_calls_stamp (e : Z) (c : call) (z : Z) :
  In c (epoch_calls gv e) -> stamp c = Some z -> 2 * e <= z <= 2 * e + 1.
Proof.
  unfold epoch_calls. intros H S. apply in_app_iff in H as [H|H].
  - rewrite (append_calls_stamp e c z H S). lia.
  - destruct H as [<-|[<-|[]]]; [discriminate|].
    change (Some (2 * e + 1) = Some z) in S. assert (z = 2 * e + 1) by congruence. lia.
Qed.

Lemma epoch_calls_ordered (e : Z) : ordered (epoch_calls gv e).
Proof.
  unfold epoch_calls. apply ordered_app.
  - apply (ordered_flat _ (2 * e)). intros c z. apply append_calls_stamp.
  - apply (ordered_flat _ (2 * e + 1)).
    intros c z [<-|[<-|[]]] S; [discriminate|].
    change (Some (2 * e + 1) = Some z) in S. congruence.
  - intros c1 c2 z1 z2 H1 H2 S1 S2.
    rewrite (append_calls_stamp e c1 z1 H1 S1).
    destruct H2 as [<-|[<-|[]]]; [discriminate|].
    change (Some (2 * e + 1) = Some z2) in S2. assert (z2 = 2 * e + 1) by congruence. lia.
Qed.

Lemma epochs_stamp_from (n : nat) (i : Z) (c : call) (z : Z) :
  In c (flat_map (epoch_calls gv) (zrange n i)) -> stamp c = Some z -> 2 * i <= z.
Proof.
  revert i. induction n as [|n IH]; intros i H S; simpl in H; [contradiction|].
  apply in_app_iff in H as [H|H].
  - pose proof (epoch_calls_stamp i c z H S). lia.
  - pose proof (IH (i + 1) H S). lia.
Qed.

Lemma epochs_ordered (n : nat) (i : Z) :
  ordered (flat_map (epoch_calls gv) (zrange n i)).
Proof.
  revert i. induction n as [|n IH]; intros i; simpl.
  - intros [|a] j c1 c2 z1 z2 _ H; discriminate.
  - apply ordered_app; [apply epoch_calls_ordered | apply IH |].
    intros c1 c2 z1 z2 H1 H2 S1 S2.
    pose proof (epoch_calls_stamp i c1 z1 H1 S1).
    pose proof (epochs_stamp_from n (i + 1) c2 z2 H2 S2). lia.
Qed.

Lemma session_ordered (pre : list call) :
  Forall (fun c => is_setup_call c = true) pre ->
  ordered (pre ++ session_calls gv).
Proof.
  intros Hpre.
  assert (forall c z, In c pre -> stamp c = Some z -> False) as Npre.
  { intros c z Hc S. rewrite Forall_forall in Hpre. specialize (Hpre c Hc).
    destruct c; simpl in *; discriminate. }
  apply ordered_app.
  - apply (ordered_flat _ 0). intros c z Hc S. destruct (Npre c z Hc S).
  - unfold session_calls. apply ordered_app.
    + apply epochs_ordered.
    + apply (ordered_flat _ 0). intros c z [<-|[<-|[]]] S; discriminate.
    + intros c1 c2 z1 z2 _ [<-|[<-|[]]] _ S; discriminate.
  - intros c1 c2 z1 z2 H1 _ S1 _. destruct (Npre c1 z1 H1 S1).
Qed.

(** In an ordered list the appends of an epoch come before its flush, and
    the flush before the appends of every later epoch. *)
Lemma ordered_appends_flush (l : list call) :
  ordered l ->
  forall i j k e x e',
    nth_error l i = Some (deltafs_plfsdir_append k e x) ->
    nth_error l j = Some (deltafs_plfsdir_epoch_flush e') ->
    (e <= e' -> (i < j)%nat) /\ (e' < e -> (j < i)%nat).
Proof.
  intros O i j k e x e' Hi Hj. split; intros He.
  - destruct (Nat.lt_ge_cases i j) as [|Hji]; [assumption|].
    pose proof (O j i _ _ (2 * e' + 1) (2 * e) Hji Hj Hi eq_refl eq_refl). lia.
  - destruct (Nat.lt_ge_cases j i) as [|Hij]; [assumption|].
    pose proof (O i j _ _ (2 * e) (2 * e' + 1) Hij Hi Hj eq_refl eq_refl). lia.
Qed.

End Order.

(* ================================================================== *)
(** * Record keys *)
(* ================================================================== *)

Section Keys.
Import Fmt FmtFacts.
Local Open Scope string_scope.

Lemma fname_of_eq (k rank : Z) :
  fname_of k rank = "f" ++ hex08 k ++ "-r" ++ hex08 rank.
Proof.
  unfold fname_of, sized, snprintf. change (20 <=? 0)%Z with false. cbn [fst].
  apply take_all. simpl String.length.
  rewrite length_append, hex08_length. simpl String.length.
  rewrite hex08_length. simpl. lia.
Qed.

Lemma fname_of_length (k rank : Z) : String.length (fname_of k rank) = 19%nat.
Proof.
  rewrite fname_of_eq. simpl String.length.
  rewrite length_append, hex08_length. simpl String.length.
  now rewrite hex08_length.
Qed.

Lemma fname_of_inj (k rank k' rank' : Z) :
  int_range k -> int_range rank -> int_range k' -> int_range rank' ->
  fname_of k rank = fname_of k' rank' -> k = k' /\ rank = rank'.
Proof.
  intros Hk Hr Hk' Hr' E. rewrite !fname_of_eq in E.
  simpl in E. injection E as E.
  apply append_inj in E as [E1 E2]; [|now rewrite !hex08_length].
  simpl in E2. injection E2 as E2.
  split; apply hex08_inj; assumption.
Qed.

End Keys.

(* ================================================================== *)
(** * Runs in which nothing goes wrong *)
(* ================================================================== *)

Section Calm.
Variable W : world.
Variable NDEBUG : bool.
Hypothesis Wok : no_errors W.

Lemma never_late_fires s : never_late W s -> fires W s = false.
Proof.
  unfold never_late, fires. destruct (deadline s) as [t|]; [|reflexivity].
  intros H. apply Z.leb_gt. apply H.
Qed.

Lemma never_late_same s s' : deadline s' = deadline s -> never_late W s -> never_late W s'.
Proof. unfold never_late. now intros ->. Qed.

Lemma completes_seq (c1 c2 : list call) (m : M unit) (k : unit -> M unit) s :
  wp m s (completes s c1) ->
  (forall s1, g s1 = g s -> deadline s1 = deadline s -> dir s1 = dir s ->
              argv0 s1 = argv0 s ->
              wp (k tt) s1 (completes s1 c2)) ->
  wp (bind m k) s (completes s (c1 ++ c2)).
Proof.
  intros H1 H2. eapply wp_bind_then; [exact H1|].
  intros o s1 t1 (-> & Hc & Hg & Hd & Hr & Ha & Hq).
  eapply wp_mono; [apply H2; assumption|].
  intros o' s2 t2 (-> & Hc' & Hg' & Hd' & Hr' & Ha' & Hq').
  unfold completes. rewrite calls_of_app, Hc, Hc'.
  repeat split; try congruence. now apply Forall_app.
Qed.

Lemma for_loop_completes (body : Z -> M unit) (canon : gs -> Z -> list call)
    (P : state -> Prop) :
  (forall s s', g s' = g s -> deadline s' = deadline s -> dir s' = dir s ->
                P s -> P s') ->
  (forall i s, P s -> wp (body i) s (completes s (canon (g s) i))) ->
  forall n i s, P s ->
    wp (for_loop n i body) s (completes s (flat_map (canon (g s)) (zrange n i))).
Proof.
  intros HP Hb. induction n as [|n IH]; intros i s Hs; cbn [for_loop zrange flat_map].
  - apply wp_ret. repeat split. constructor.
  - apply completes_seq; [auto|].
    intros s1 Hg Hd Hr Ha. rewrite <- Hg. apply IH. eapply HP; eauto.
Qed.

Lemma ready_same s s' :
  g s' = g s -> deadline s' = deadline s -> dir s' = dir s ->
  ready W s -> ready W s'.
Proof.
  unfold ready. intros Hg Hd Hr (L & D & X). rewrite Hg, Hr.
  eauto using never_late_same.
Qed.

Ltac close_completes :=
  unfold completes, quiet;
  cbn [g deadline dir argv0 count_call calls_of flat_map app];
  repeat split; try reflexivity; try assumption;
  repeat (constructor; try reflexivity).

Lemma writekey_completes (k e : Z) (val : string) s :
  ready W s ->
  wp (writekey W NDEBUG k e val) s
     (completes s [deltafs_plfsdir_append (fname_of k (myrank (g s))) e val]).
Proof.
  intros (L & D & X). unfold writekey.
  apply wp_assert; [intros; contradiction|].
  apply wp_get.
  apply wp_call; intros F; [rewrite never_late_fires in F by assumption; discriminate|].
  rewrite (proj1 (Wok _)). apply wp_ret. close_completes.
Qed.

Lemma writepoch_completes (e : Z) s :
  ready W s ->
  wp (writepoch W NDEBUG e) s (completes s (epoch_calls (g s) e)).
Proof.
  intros R. pose proof R as (L & D & X). unfold writepoch.
  apply wp_assert; [intros; contradiction|].
  apply wp_get.
  destruct (Z.ltb_spec (valsz (g s)) 0); [lia|].
  apply wp_ret_bind.
  unfold epoch_calls. apply completes_seq.
  - unfold append_calls. rewrite <- flat_map_single.
    apply (for_loop_completes
             (fun i => writekey W NDEBUG i e (Fmt.replicate (Z.to_nat (valsz (g s))) "."))
             (fun gv i => [deltafs_plfsdir_append (fname_of i (myrank gv)) e (filler (g s))])
             (fun s0 => ready W s0 /\ g s0 = g s)).
    + intros s0 s0' Hg Hd Hr [R0 G0]. split; [eapply ready_same; eauto | congruence].
    + intros i s0 [R0 G0]. apply writekey_completes, R0.
    + split; [assumption | reflexivity].
  - intros s1 Hg Hd Hr Ha.
    assert (never_late W s1) as L1 by (eapply never_late_same; eauto).
    apply wp_call; intros F; [rewrite never_late_fires in F by assumption; discriminate|].
    rewrite (proj1 (Wok _)). cbn [negb Z.eqb when]. apply wp_ret_bind.
    apply wp_call; intros F'; [rewrite never_late_fires in F' by assumption; discriminate|].
    rewrite (proj1 (Wok _)). apply wp_ret. close_completes.
Qed.

Ltac not_fired F L :=
  rewrite never_late_fires in F
    by (eapply never_late_same; [|exact L]; norm_state; congruence);
  discriminate.

(** [mkbbos], when asked for, creates the environment. *)
Lemma mkbbos_calm s :
  never_late W s -> env s = 0 ->
  wp (when (negb (bbos (g s) =? 0)) (mkbbos W)) s
     (fun o s' t =>
        o = Returned tt /\
        calls_of t = (if bbos (g s) =? 0 then []
                      else [deltafs_env_init "bbos" (sized 50 "bmi+tcp")
                              (sized 50 ("bmi+tcp://" ++ bboshostname (g s) ++ ":"
                                           ++ Fmt.itoa (bbosport (g s))))%string]) /\
        g s' = g s /\ deadline s' = deadline s /\ argv0 s' = argv0 s /\
        bgp s' = bgp s /\ (env s' =? 0) = (bbos (g s) =? 0) /\ quiet t).
Proof.
  intros L E. destruct (bbos (g s) =? 0) eqn:B; cbn [negb when].
  - apply wp_ret. rewrite E. repeat split. constructor.
  - unfold mkbbos. apply wp_get. rewrite B, E. cbn [Z.eqb negb orb].
    do 2 apply wp_modify.
    apply wp_call; intros F; [not_fired F L|].
    apply wp_modify. cbn [ncalls set_b].
    destruct (Z.eqb_spec (handle (W (ncalls s))) 0) as [H0|H0];
      [destruct (proj2 (Wok _) H0)|].
    apply wp_ret. cbn [env set_env]. rewrite (proj2 (Z.eqb_neq _ _) H0).
    repeat split. repeat (constructor; try reflexivity).
Qed.

(** [mkconf] creates the thread pool, when asked for, and leaves the
    descriptor in [cf]. *)
Lemma mkconf_calm s :
  never_late W s -> bgp s = 0 -> gs_ints (g s) ->
  wp (mkconf W NDEBUG) s
     (fun o s' t =>
        o = Returned tt /\
        calls_of t = (if bg (g s) =? 0 then [] else [deltafs_tp_init (bg (g s))]) /\
        cf s' = descriptor (g s) /\
        g s' = g s /\ deadline s' = deadline s /\ argv0 s' = argv0 s /\
        env s' = env s /\ (bgp s' =? 0) = (bg (g s) =? 0) /\ quiet t).
Proof.
  intros L Bp Hi. unfold mkconf. apply wp_get.
  rewrite Bp. cbn [Z.eqb]. rewrite andb_true_r.
  assert (forall s0, g s0 = g s -> (bgp s0 =? 0) = (bg (g s) =? 0) ->
            wp (s1 <- get;;
                when (negb (bg (g s1) =? 0) && (bgp s1 =? 0))
                     (complain "fail to init thread pool");;
                match mkconf_cf (g s1) with
                | Some c => modify (set_cf c);; when (negb NDEBUG) (info c)
                | None => undefined
                end) s0
               (fun o s' t => o = Returned tt /\ calls_of t = [] /\
                  cf s' = descriptor (g s) /\ g s' = g s /\
                  deadline s' = deadline s0 /\ argv0 s' = argv0 s0 /\
                  env s' = env s0 /\ bgp s' = bgp s0 /\ quiet t)) as Rest.
  { intros s0 Hg Hb. apply wp_get. rewrite Hg, Hb.
    destruct (bg (g s) =? 0); cbn [negb andb when]; apply wp_ret_bind;
      rewrite (mkconf_cf_descriptor _ Hi); apply wp_modify;
      destruct NDEBUG; cbn [negb when]; repeat split;
      repeat (constructor; try reflexivity); assumption. }
  destruct (bg (g s) =? 0) eqn:Bg; cbn [negb].
  - apply wp_ret_bind. eapply wp_mono; [apply Rest; [reflexivity | now rewrite Bp]|].
    intros o s' t (-> & Hc & Hf & Hg & Hd & Ha & He & Hb & Hq).
    rewrite Hb, Bp. repeat split; assumption.
  - eapply wp_bind_then.
    + apply wp_call; intros F; [not_fired F L|].
      apply wp_modify_end.
      instantiate (1 := fun o s' t =>
         o = Returned tt /\ calls_of t = [deltafs_tp_init (bg (g s))] /\
         g s' = g s /\ deadline s' = deadline s /\ argv0 s' = argv0 s /\
         env s' = env s /\ bgp s' <> 0 /\ quiet t).
      repeat split; [apply (proj2 (Wok _)) | repeat (constructor; try reflexivity)].
    + intros o s1 t1 (-> & Hc1 & Hg1 & Hd1 & Ha1 & He1 & Hb1 & Hq1).
      apply Z.eqb_neq in Hb1.
      eapply wp_mono; [apply Rest; [assumption | exact Hb1]|].
      intros o s' t (-> & Hc & Hf & Hg & Hd & Ha & He & Hb & Hq).
      rewrite calls_of_app, Hc1, Hc, Hb, Hb1.
      repeat split; try congruence. now apply Forall_app.
Qed.

Lemma optional_call_calm (c : bool) (x : call) s :
  never_late W s ->
  wp (if c then _ <- do_call W x;; ret tt else ret tt) s
     (completes s (if c then [x] else [])).
Proof.
  intros L. destruct c.
  - apply wp_call; intros F; [not_fired F L|]. apply wp_ret. close_completes.
  - apply wp_ret. close_completes.
Qed.

(** In a world without errors [write] returns, after its setup calls and
    the calls of the whole session. *)
Lemma write_calm s : fresh W s -> wp (write W NDEBUG) s (written s).
Proof.
  intros (L & E & Bp & Hi & X). unfold write. apply wp_get.
  eapply wp_bind_then; [apply mkbbos_calm; assumption|].
  intros o s1 t1 (-> & Hc1 & Hg1 & Hd1 & Ha1 & Hb1 & He1 & Hq1).
  eapply wp_bind_then;
    [apply mkconf_calm;
     [eapply never_late_same; eauto | congruence | now rewrite Hg1]|].
  intros o s2 t2 (-> & Hc2 & Hf2 & Hg2 & Hd2 & Ha2 & He2 & Hb2 & Hq2).
  apply wp_get.
  apply wp_call; intros F; [not_fired F L|].
  apply wp_modify.
  apply wp_call; intros F2; [not_fired F2 L|].
  apply wp_get.
  eapply wp_bind_then;
    [apply optional_call_calm; eapply never_late_same; [|exact L]; norm_state; congruence|].
  intros o s3 t3 (-> & Hc3 & Hg3 & Hd3 & Hr3 & Ha3 & Hq3).
  eapply wp_bind_then;
    [apply optional_call_calm; eapply never_late_same; [|exact L]; norm_state; congruence|].
  intros o s4 t4 (-> & Hc4 & Hg4 & Hd4 & Hr4 & Ha4 & Hq4).
  apply wp_call; intros F4; [not_fired F4 L|].
  rewrite (proj1 (Wok _)). cbn [negb Z.eqb when]. apply wp_ret_bind.
  eapply wp_bind_then.
  { apply (for_loop_completes (writepoch W NDEBUG) epoch_calls (ready W)).
    - apply ready_same.
    - intros i s0. apply writepoch_completes.
    - repeat split.
      + eapply never_late_same; [|exact L]. norm_state. congruence.
      + norm_state. rewrite Hr4, Hr3. apply (proj2 (Wok _)).
      + norm_state. congruence. }
  intros o s5 t5 (-> & Hc5 & Hg5 & Hd5 & Hr5 & Ha5 & Hq5).
  apply wp_call; intros F5; [not_fired F5 L|].
  rewrite (proj1 (Wok _)). cbn [negb Z.eqb when]. apply wp_ret_bind.
  apply wp_call; intros F6; [not_fired F6 L|].
  apply wp_ret.
  unfold written. norm_state.
  repeat split; try congruence.
  - repeat (rewrite calls_of_app || rewrite calls_of_call || rewrite calls_of_nil).
    rewrite Hc1, Hc2, Hc3, Hc4, Hc5, Hf2, Hb2, He2, He1, Hg1, Hg4, Hg3.
    cbn [g count_call set_dir].
    rewrite Hg2, Hg1.
    unfold setup_calls, session_calls, epochs_calls.
    destruct (bbos (g s) =? 0), (bg (g s) =? 0); cbn [negb app];
      rewrite <- ?app_assoc; reflexivity.
  - solve_quiet.
Qed.

End Calm.

(* ================================================================== *)
(** * Runs in any world: exit codes, diagnostics, the deadline *)
(* ================================================================== *)

Section Sound.
Variable W : world.
Variable NDEBUG : bool.

Lemma quiet_app (t1 t2 : list event) : quiet t1 -> quiet t2 -> quiet (t1 ++ t2).
Proof. intros H1 H2. apply Forall_app. now split. Qed.

Lemma quiet_no_pending (t : list event) (c : call) : quiet t -> ~ In (Pending c) t.
Proof.
  intros Q H. unfold quiet in Q. rewrite Forall_forall in Q.
  specialize (Q _ H). discriminate.
Qed.

Lemma quiet_no_stderr (t : list event) (x : string) : quiet t -> ~ In (Stderr x) t.
Proof.
  intros Q H. unfold quiet in Q. rewrite Forall_forall in Q.
  specialize (Q _ H). discriminate.
Qed.

Lemma quiet_is_no_pending (t : list event) : quiet t -> no_pending t.
Proof.
  unfold quiet, no_pending. apply Forall_impl. intros [] H; trivial; discriminate.
Qed.

Lemma no_pending_app (t1 t2 : list event) :
  no_pending t1 -> no_pending t2 -> no_pending (t1 ++ t2).
Proof. intros H1 H2. apply Forall_app. now split. Qed.

Lemma watchdog_last_quiet (t : list event) : quiet t -> watchdog_last t.
Proof. intros Q c H. destruct (quiet_no_pending t c Q H). Qed.

Lemma watchdog_last_app (t1 t2 : list event) :
  quiet t1 -> watchdog_last t2 -> watchdog_last (t1 ++ t2).
Proof.
  intros Q H c Hc. apply in_app_iff in Hc as [Hc|Hc].
  - destruct (quiet_no_pending t1 c Q Hc).
  - destruct (H c Hc) as [t0 ->]. exists (t1 ++ t0). now rewrite app_assoc.
Qed.

Lemma no_calls_answers (t : list event) : calls_of t = [] -> answers_from W t.
Proof.
  unfold answers_from. induction t as [|[c r| | |] t IH]; intros H;
    try discriminate; constructor; auto.
Qed.

Lemma orderly_nil : orderly W [].
Proof. split; [intros c [] | constructor]. Qed.

Lemma orderly_quiet (t : list event) : quiet t -> calls_of t = [] -> orderly W t.
Proof. intros Q C. split; [now apply watchdog_last_quiet | now apply no_calls_answers]. Qed.

Lemma orderly_app (t1 t2 : list event) :
  quiet t1 -> orderly W t1 -> orderly W t2 -> orderly W (t1 ++ t2).
Proof.
  intros Q [_ A1] [L2 A2]. split; [now apply watchdog_last_app|].
  apply Forall_app. now split.
Qed.

Lemma ends_in_diagnostic_app (t1 t2 : list event) :
  ends_in_diagnostic t2 -> ends_in_diagnostic (t1 ++ t2).
Proof. intros (t0 & x & ->). exists (t1 ++ t0), x. now rewrite app_assoc. Qed.

Lemma exits_one_app {A B} (a : A) (o : outcome B) (t1 t2 : list event) :
  exits_one (Returned a) t1 -> exits_one o t2 -> exits_one o (t1 ++ t2).
Proof.
  intros Q1 Q2. simpl in Q1.
  destruct o; simpl in *; try (apply quiet_app; assumption).
  destruct Q2. split; [assumption | now apply ends_in_diagnostic_app].
Qed.

(** ** Composition *)

Lemma sound_bind {A B} (m : M A) (k : A -> M B) s :
  wp m s (sound W s) ->
  (forall a s1, wp (k a) s1 (sound W s1)) ->
  wp (bind m k) s (sound W s).
Proof.
  intros H1 H2. eapply wp_bind_then; [exact H1|].
  intros o s1 t1 (Ht & Hn & Hx & Hw).
  destruct o as [a|c| |]; cbn [exits_one] in Hx.
  2:{ destruct Hx as [-> He]. destruct Hw. repeat split; assumption. }
  2:{ destruct Hw. repeat split; assumption. }
  2:{ destruct Hw. repeat split; assumption. }
  eapply wp_mono; [apply H2|].
  intros o' s2 t2 (Ht' & Hn' & Hx' & Hw'). unfold sound.
  rewrite calls_of_app, length_app. split; [|split; [|split]].
  - auto.
  - try lia; try reflexivity.
  - apply (exits_one_app a); assumption.
  - apply orderly_app; assumption.
Qed.

Lemma tidy_bind {A B} (m : M A) (k : A -> M B) s :
  wp m s (tidy W s) ->
  (forall a s1, g s1 = g s -> deadline s1 = deadline s -> argv0 s1 = argv0 s ->
                wp (k a) s1 (tidy W s1)) ->
  wp (bind m k) s (tidy W s).
Proof.
  intros H1 H2. eapply wp_bind_then; [exact H1|].
  intros o s1 t1 (Hg & Hd & Ha & Hu & Hp & Ht & Hn & Hx & Hw).
  destruct o as [a|c| |]; cbn [exits_one] in Hx.
  2:{ destruct Hx as [-> He]. destruct Hw.
      repeat split; try assumption; intros; discriminate. }
  2:{ destruct Hw. repeat split; try assumption; intros; discriminate. }
  2:{ destruct Hw. repeat split; try assumption. intros Hi. destruct (Hu Hi eq_refl). }
  eapply wp_mono; [apply H2; assumption|].
  intros o' s2 t2 (Hg' & Hd' & Ha' & Hu' & Hp' & Ht' & Hn' & Hx' & Hw').
  unfold tidy, sound.
  rewrite calls_of_app, length_app.
  split; [congruence|]. split; [congruence|]. split; [congruence|].
  split; [|split; [|split; [|split; [|split]]]].
  - rewrite <- Hg. assumption.
  - intros Hnone. apply no_pending_app; [auto|]. apply Hp'. congruence.
  - auto.
  - try lia; try reflexivity.
  - apply (exits_one_app a); assumption.
  - apply orderly_app; assumption.
Qed.

Lemma main_sound_bind {A} (m : M A) (k : A -> M unit) s :
  wp m s (sound W s) ->
  (forall a s1, wp (k a) s1 (main_sound W s1)) ->
  wp (bind m k) s (main_sound W s).
Proof.
  intros H1 H2. eapply wp_bind_then; [exact H1|].
  intros o s1 t1 (Ht & Hn & Hx & Hw).
  destruct o as [a| | |]; simpl in Hx.
  - eapply wp_mono; [apply H2|].
    intros o' s2 t2 (Ht' & Hn' & Hx' & Hw'). unfold main_sound.
    rewrite calls_of_app, length_app. split; [|split; [|split]].
    + auto.
    + lia.
    + destruct o' as [[]|c| |]; simpl in *; try (apply quiet_app; assumption); trivial.
      destruct Hx' as [[-> Hq]|[-> He]].
      * left. split; [reflexivity | now apply quiet_app].
      * right. split; [reflexivity | now apply ends_in_diagnostic_app].
    + apply orderly_app; assumption.
  - split; [assumption|]. split; [assumption|]. split; [right; exact Hx | assumption].
  - split; [assumption|]. split; [assumption|]. split; assumption.
  - split; [assumption|]. split; [assumption|]. split; assumption.
Qed.

Lemma tidy_sound {A} (m : M A) s : wp m s (tidy W s) -> wp m s (sound W s).
Proof. intros H. eapply wp_mono; [exact H|]. intros o s' t H'. apply H'. Qed.

(** ** The primitives *)

Lemma sound_quiet_step {A} (a : A) s s' (t : list event) :
  deadline s' = deadline s -> ncalls s' = ncalls s -> calls_of t = [] -> quiet t ->
  sound W s (Returned a) s' t.
Proof.
  intros Hd Hn Hc Hq. unfold sound, on_time. rewrite Hd, Hn, Hc. simpl.
  split; [trivial|]. split; [lia|]. split; [exact Hq | now apply orderly_quiet].
Qed.

Lemma sound_exit_one {A} s s' (t : list event) (x : string) :
  deadline s' = deadline s -> ncalls s' = ncalls s ->
  calls_of (t ++ [Stderr x]) = [] ->
  Forall (fun e => is_pending e = false) t ->
  sound W s (@Exited A 1) s' (t ++ [Stderr x]).
Proof.
  intros Hd Hn Hc Hq. unfold sound, on_time. rewrite Hc, Hd, Hn. simpl.
  split; [trivial|]. split; [lia|]. split; [|split].
  - split; [reflexivity | now exists t, x].
  - intros c Hin. apply in_app_iff in Hin as [Hin|[Hin|[]]]; [|discriminate].
    rewrite Forall_forall in Hq. specialize (Hq _ Hin). discriminate.
  - now apply no_calls_answers.
Qed.

Lemma usage_text_sound {A} (name : string) (msg : option string) s s' :
  deadline s' = deadline s -> ncalls s' = ncalls s ->
  sound W s (@Exited A 1) s' (usage_text name msg).
Proof.
  intros Hd Hn. destruct msg as [m|]; unfold usage_text; cbn [app].
  - apply (sound_exit_one s s' [_; _; _; _]); trivial. repeat constructor.
  - apply (sound_exit_one s s' [_; _; _]); trivial. repeat constructor.
Qed.

Lemma tidy_intro {A} s (o : outcome A) s' (t : list event) :
  g s' = g s -> deadline s' = deadline s -> argv0 s' = argv0 s ->
  o <> Undefined -> (deadline s = None -> no_pending t) ->
  sound W s o s' t -> tidy W s o s' t.
Proof. unfold tidy. auto 10. Qed.

Lemma tidy_intro_quiet {A} s (a : A) s' (t : list event) :
  g s' = g s -> deadline s' = deadline s -> argv0 s' = argv0 s ->
  ncalls s' = ncalls s -> calls_of t = [] -> quiet t ->
  tidy W s (Returned a) s' t.
Proof.
  intros. apply tidy_intro; trivial; try discriminate.
  - intros _. now apply quiet_is_no_pending.
  - now apply sound_quiet_step.
Qed.

Lemma call_sound (c : call) s : wp (do_call W c) s (sound W s).
Proof.
  unfold wp, do_call, outcome_of, state_of, events_of.
  destruct (match deadline s with Some t => _ | None => _ end) eqn:F; simpl.
  - unfold sound. simpl. split; [trivial|]. split; [lia|]. split; [|split].
    + split; [reflexivity|].
      now exists [Pending c; Stderr ("!!! SIGALRM detected !!!" ++ nl)%string],
                 ("alarm clock" ++ nl)%string.
    + intros c' [Hin|[Hin|[Hin|[]]]]; try discriminate.
      injection Hin as <-. now exists [].
    + now apply no_calls_answers.
  - unfold sound, on_time. simpl. split; [|split; [lia|split; [|split]]].
    + intros _. destruct (deadline s); [|trivial]. now apply Z.leb_gt in F.
    + repeat constructor.
    + apply watchdog_last_quiet. repeat constructor.
    + repeat constructor. now exists (ncalls s).
Qed.

Lemma call_tidy (c : call) s : wp (do_call W c) s (tidy W s).
Proof.
  pose proof (call_sound c s) as H. revert H.
  unfold wp, do_call, outcome_of, state_of, events_of.
  destruct (match deadline s with Some t => _ | None => _ end) eqn:F; simpl;
    intros H; apply tidy_intro; try reflexivity; try discriminate; try exact H.
  - intros Hn. rewrite Hn in F. discriminate.
  - intros _. repeat constructor.
Qed.

Lemma complain_tidy {A} (msg : string) s : wp (@complain A msg) s (tidy W s).
Proof.
  apply wp_complain. apply tidy_intro; try reflexivity; try discriminate.
  - intros _. repeat constructor.
  - apply (sound_exit_one s s [_; _]); trivial. repeat constructor.
Qed.

Lemma usage_sound {A} (msg : option string) s : wp (@usage A msg) s (sound W s).
Proof. apply wp_usage. now apply usage_text_sound. Qed.

Lemma ret_tidy {A} (a : A) s : wp (ret a) s (tidy W s).
Proof.
  apply wp_ret. apply tidy_intro_quiet; trivial. constructor.
Qed.

Lemma when_tidy (c : bool) (m : M unit) s :
  wp m s (tidy W s) -> wp (when c m) s (tidy W s).
Proof. intros H. destruct c; [exact H | apply ret_tidy]. Qed.

Lemma when_sound (c : bool) (m : M unit) s :
  wp m s (sound W s) -> wp (when c m) s (sound W s).
Proof.
  intros H. destruct c; [exact H|].
  apply wp_ret. apply sound_quiet_step; trivial. constructor.
Qed.

Lemma abort_tidy {A} s : wp (@abort A) s (tidy W s).
Proof.
  apply wp_abort. apply tidy_intro; try reflexivity; try discriminate.
  - intros _. constructor.
  - split; [trivial|]. split; [simpl; lia|].
    split; [constructor | apply orderly_nil].
Qed.

Lemma get_tidy s : wp get s (tidy W s).
Proof. apply (ret_tidy s s). Qed.

Lemma modify_tidy (f : state -> state) s :
  g (f s) = g s -> deadline (f s) = deadline s -> argv0 (f s) = argv0 s ->
  ncalls (f s) = ncalls s ->
  wp (modify f) s (tidy W s).
Proof.
  intros Hg Hd Ha Hn. apply wp_modify_end.
  apply tidy_intro_quiet; trivial. constructor.
Qed.

Lemma modify_sound (f : state -> state) s :
  deadline (f s) = deadline s -> ncalls (f s) = ncalls s ->
  wp (modify f) s (sound W s).
Proof.
  intros Hd Hn. apply wp_modify_end. apply sound_quiet_step; trivial. constructor.
Qed.

Lemma stdout_tidy (x : string) s : wp (emit (Stdout x)) s (tidy W s).
Proof.
  apply wp_emit_end. apply tidy_intro_quiet; trivial. repeat constructor.
Qed.

Lemma info_tidy (msg : string) s : wp (info msg) s (tidy W s).
Proof.
  unfold info, vinfo.
  apply tidy_bind; [apply stdout_tidy|]. intros _ s1 _ _ _.
  apply tidy_bind; [apply stdout_tidy|]. intros _ s2 _ _ _.
  apply stdout_tidy.
Qed.

Lemma assert_tidy s : wp (assert_dir NDEBUG) s (tidy W s).
Proof.
  unfold assert_dir. apply wp_get.
  destruct NDEBUG; [apply ret_tidy|].
  destruct (dir s =? 0); [apply abort_tidy | apply ret_tidy].
Qed.

Lemma for_loop_tidy (body : Z -> M unit) :
  (forall i s, wp (body i) s (tidy W s)) ->
  forall n i s, wp (for_loop n i body) s (tidy W s).
Proof.
  intros Hb. induction n as [|n IH]; intros i s; cbn [for_loop].
  - apply ret_tidy.
  - apply tidy_bind; [apply Hb|]. intros _ s1 _ _ _. apply IH.
Qed.

(** ** The functions of the program *)

Ltac tidy_step :=
  lazymatch goal with
  | |- wp (assert_dir _) _ _ => apply assert_tidy
  | |- wp (bind get _) _ _ => apply wp_get
  | |- wp (do_call _ _) _ _ => apply call_tidy
  | |- wp (complain _) _ _ => apply complain_tidy
  | |- wp (info _) _ _ => apply info_tidy
  | |- wp (ret _) _ _ => apply ret_tidy
  | |- wp abort _ _ => apply abort_tidy
  | |- wp (when _ _) _ _ => apply when_tidy
  | |- wp (modify _) _ _ => apply modify_tidy; reflexivity
  | |- wp (emit (Stdout _)) _ _ => apply stdout_tidy
  | |- wp (for_loop _ _ _) _ _ => apply for_loop_tidy; intros
  | |- wp (if ?c then _ else _) _ _ => destruct c
  | |- wp (bind _ _) _ _ => apply tidy_bind; [| intros ? ? ? _ _ ]
  end.

Lemma writekey_tidy (k e : Z) (val : string) s :
  wp (writekey W NDEBUG k e val) s (tidy W s).
Proof. unfold writekey. repeat tidy_step. Qed.

Lemma writepoch_tidy (e : Z) s : wp (writepoch W NDEBUG e) s (tidy W s).
Proof. unfold writepoch. repeat first [tidy_step | apply writekey_tidy]. Qed.

Lemma mkbbos_tidy s : wp (mkbbos W) s (tidy W s).
Proof. unfold mkbbos. repeat tidy_step. Qed.

Lemma mkconf_tidy s : wp (mkconf W NDEBUG) s (tidy W s).
Proof.
  unfold mkconf. repeat tidy_step.
  match goal with
  | |- context [mkconf_cf (g ?s1)] =>
      destruct (mkconf_cf (g s1)) eqn:E; [repeat tidy_step|];
      apply wp_undefined; split; [reflexivity|]; split; [reflexivity|];
      split; [reflexivity|]; split;
      [ intros Hi _; rewrite (mkconf_cf_descriptor (g s1)) in E by congruence;
        discriminate |]
  end.
  split; [intros _; constructor|].
  split; [trivial|]. split; [simpl; lia|].
  split; [constructor | apply orderly_nil].
Qed.

Lemma write_tidy s : wp (write W NDEBUG) s (tidy W s).
Proof.
  unfold write.
  repeat first [tidy_step | apply mkbbos_tidy | apply mkconf_tidy | apply writepoch_tidy].
Qed.

Lemma printopts_tidy s : wp printopts s (tidy W s).
Proof. unfold printopts. repeat tidy_step. Qed.

(** [alarm] arms a deadline that is still ahead. *)
Lemma arm_sound (seconds : Z) s :
  0 <= seconds -> wp (arm W seconds) s (sound W s).
Proof.
  intros Hs. unfold arm.
  apply sound_bind; [apply call_sound|]. intros _ s1.
  apply wp_get. apply wp_modify_end.
  unfold sound, on_time. cbn [deadline ncalls set_deadline calls_of flat_map].
  split; [|split; [simpl; lia|split; [constructor | apply orderly_nil]]].
  intros _. destruct (Z.eqb_spec seconds 0); [trivial | lia].
Qed.

End Sound.

(* ================================================================== *)
(** * The option loop *)
(* ================================================================== *)

Section Options.
Variable W : world.

(** One turn of the option loop stores the option and, if the value is
    refused, ends in [usage]. *)
Lemma option_case_run (ch : ascii) (optarg : string) s :
  option_case ch optarg s
  = match option_error ch optarg with
    | Some msg => (Exited 1, set_g (option_apply ch optarg (g s)) s,
                   usage_text (argv0 s) msg)
    | None => (Returned tt, set_g (option_apply ch optarg (g s)) s, [])
    end.
Proof.
  destruct ch as [[] [] [] [] [] [] [] []];
    try (destruct s as [a0 d0 e0 p0 c0 b0 g0 l0 n0]; reflexivity);
    cbv [option_case option_error option_apply bind modify_g modify get when ret];
    cbn [g set_g iosz nepochs nkeys filterbits keysz valsz bg timeout
         set_iosz set_nepochs set_nkeys set_filterbits set_keysz set_valsz
         set_bg set_timeout];
    match goal with
    | |- context [if ?c then _ else _] => destruct c
    end; reflexivity.
Qed.

Lemma option_loop_run (opts : list (ascii * string)) s :
  option_loop opts s
  = match options_parse opts (g s) with
    | (gv, Some msg) => (Exited 1, set_g gv s, usage_text (argv0 s) msg)
    | (gv, None) => (Returned tt, set_g gv s, [])
    end.
Proof.
  revert s. induction opts as [|[ch optarg] rest IH]; intros s.
  - destruct s; reflexivity.
  - cbn [option_loop options_parse]. unfold bind.
    rewrite option_case_run.
    destruct (option_error ch optarg) as [msg|]; [reflexivity|].
    rewrite IH. cbn [g set_g argv0].
    destruct (options_parse rest (option_apply ch optarg (g s))) as [gv [msg|]];
      reflexivity.
Qed.

Lemma option_loop_sound (opts : list (ascii * string)) s :
  wp (option_loop opts) s (sound W s).
Proof.
  unfold wp, outcome_of, state_of, events_of. rewrite option_loop_run.
  destruct (options_parse opts (g s)) as [gv [msg|]]; cbn [fst snd].
  - now apply usage_text_sound.
  - apply sound_quiet_step; trivial. constructor.
Qed.


End Options.

(* ================================================================== *)
(** * [main]: exit codes and diagnostics *)
(* ================================================================== *)

Section MainSound.
Variable W : world.
Variable NDEBUG : bool.

Lemma complain_sound {A} (msg : string) s : wp (@complain A msg) s (sound W s).
Proof. apply tidy_sound, complain_tidy. Qed.

Lemma modify_g_sound (f : gs -> gs) s : wp (modify_g f) s (sound W s).
Proof. apply modify_sound; reflexivity. Qed.

Lemma exit_zero_main_sound s : wp (exit 0) s (main_sound W s).
Proof.
  apply wp_exit. unfold main_sound. simpl.
  split; [trivial|]. split; [lia|]. split; [|apply orderly_nil].
  left. split; [reflexivity | constructor].
Qed.

Ltac sound_step :=
  lazymatch goal with
  | |- wp (do_call _ _) _ _ => apply call_sound
  | |- wp (complain _) _ _ => apply complain_sound
  | |- wp (usage _) _ _ => apply usage_sound
  | |- wp (when _ _) _ _ => apply when_sound
  | |- wp (modify_g _) _ _ => apply modify_g_sound
  | |- wp (modify _) _ _ => apply modify_sound; reflexivity
  | |- wp (option_loop _) _ _ => apply option_loop_sound
  | |- wp printopts _ _ => apply tidy_sound, printopts_tidy
  | |- wp (info _) _ _ => apply tidy_sound, info_tidy
  | |- wp (write _ _) _ _ => apply tidy_sound, write_tidy
  | |- wp (arm _ _) _ _ => apply arm_sound, FmtFacts.to_unsigned_range
  | |- wp get _ _ => apply tidy_sound, get_tidy
  | |- wp (ret _) _ _ => apply tidy_sound, ret_tidy
  | |- wp (bind _ _) _ (sound _ _) => apply sound_bind; [| intros ? ?]
  | |- wp (exit 0) _ (main_sound _ _) => apply exit_zero_main_sound
  | |- wp (bind _ _) _ (main_sound _ _) => apply main_sound_bind; [| intros ? ?]
  end.

Lemma main_is_sound (name : string) (opts : list (ascii * string))
    (operands : list string) s :
  wp (main W NDEBUG name opts operands) s (main_sound W s).
Proof.
  unfold main. repeat sound_step.
  destruct operands as [|d [|h [|p more]]]; repeat sound_step.
Qed.

End MainSound.

(* ================================================================== *)
(** * [main]: the parameters it hands to [write] *)
(* ================================================================== *)

Section Parameters.
Import Fmt FmtFacts.

Lemma to_int_range (z : Z) : int_range (to_int z).
Proof.
  unfold int_range, to_int.
  pose proof (Z.mod_pos_bound (z + 2 ^ 31) (2 ^ 32) ltac:(lia)). lia.
Qed.

Lemma atoi_range (a : string) : int_range (atoi a).
Proof. apply to_int_range. Qed.

Lemma option_apply_ints (ch : ascii) (a : string) (gv : gs) :
  gs_ints gv -> gs_ints (option_apply ch a gv).
Proof.
  unfold gs_ints. intros H. decompose [and] H.
  pose proof (atoi_range a).
  assert (int_range 1) by (unfold int_range; lia).
  destruct ch as [[] [] [] [] [] [] [] []]; cbn; auto 20.
Qed.

Lemma options_parse_ints (opts : list (ascii * string)) (gv : gs) :
  gs_ints gv -> gs_ints (fst (options_parse opts gv)).
Proof.
  revert gv. induction opts as [|[ch a] rest IH]; intros gv H; cbn [options_parse].
  - exact H.
  - destruct (option_error ch a); [apply option_apply_ints, H|].
    apply IH, option_apply_ints, H.
Qed.

Lemma operands_apply_ints (operands : list string) (gv : gs) :
  gs_ints gv -> gs_ints (operands_apply operands gv).
Proof.
  unfold gs_ints. intros H. decompose [and] H.
  destruct operands as [|d [|h [|p more]]]; cbn; auto 20 using atoi_range.
Qed.

Lemma g_defaults_ints (rank size : Z) : gs_ints (g_defaults (to_int rank) (to_int size)).
Proof.
  unfold gs_ints, g_defaults.
  cbn [bg bbos bbosport myrank commsz nepochs nkeys filterbits keysz valsz
       iosz logrotation timeout v].
  repeat match goal with
         | |- int_range _ /\ _ => split
         | |- int_range (to_int _) => apply to_int_range
         | |- int_range _ => vm_compute; split; [discriminate | reflexivity]
         end.
Qed.

(** The globals [main] has stored when the option loop starts. *)
Lemma g_defaults_eq (rank size : Z) :
  set_iosz DEF_IO_SIZE
    (set_timeout DEF_TIMEOUT
       (set_bbosport DEF_BBOS_PORT
          (set_bboshostname DEF_BBOS_HOSTNAME
             (set_valsz DEF_VAL_SIZE
                (set_keysz DEF_KEY_SIZE
                   (set_filterbits DEF_FILTER_BITS
                      (set_nkeys DEF_NUM_KEYS_PER_EPOCH
                         (set_nepochs DEF_NUM_EPOCHS
                            (set_commsz size (set_myrank rank g_zero))))))))))
  = g_defaults rank size.
Proof. reflexivity. Qed.

(** The options keep the timeout an [int] that [alarm] reads as it is. *)
Lemma to_unsigned_nonneg (z : Z) : 0 <= z -> int_range z -> to_unsigned z = z.
Proof. unfold int_range, to_unsigned. intros. apply Z.mod_small. lia. Qed.

End Parameters.

(* ================================================================== *)
(** * [main]: the shape of a run *)
(* ================================================================== *)

Lemma wp_option_loop {B} (opts : list (ascii * string)) (k : unit -> M B) s
    (Q : outcome B -> state -> list event -> Prop) :
  (forall gv msg, options_parse opts (g s) = (gv, Some msg) ->
     Q (Exited 1) (set_g gv s) (usage_text (argv0 s) msg)) ->
  (forall gv, options_parse opts (g s) = (gv, None) ->
     wp (k tt) (set_g gv s) Q) ->
  wp (bind (option_loop opts) k) s Q.
Proof.
  intros H1 H2. unfold wp, bind, outcome_of, state_of, events_of.
  rewrite option_loop_run.
  destruct (options_parse opts (g s)) as [gv [msg|]].
  - apply (H1 gv msg eq_refl).
  - specialize (H2 gv eq_refl). unfold wp, outcome_of, state_of, events_of in H2.
    destruct (k tt (set_g gv s)) as [[o s2] t2]. exact H2.
Qed.

(** Pieces that only print on stdout. *)
Lemma wp_print {B} (m : M unit) (k : unit -> M B) s
    (Q : outcome B -> state -> list event -> Prop) :
  wp m s (fun o s' t => o = Returned tt /\ s' = s /\ quiet t /\ calls_of t = []) ->
  (forall t1, quiet t1 -> calls_of t1 = [] ->
     wp (k tt) s (fun o s' t => Q o s' (t1 ++ t))) ->
  wp (bind m k) s Q.
Proof.
  intros H1 H2. eapply wp_bind_then; [exact H1|].
  intros o s1 t1 (-> & -> & Hq & Hc). now apply H2.
Qed.

Lemma printopts_prints s :
  wp printopts s (fun o s' t => o = Returned tt /\ s' = s /\ quiet t /\ calls_of t = []).
Proof. repeat split. repeat constructor. Qed.

Lemma when_info_prints (c : bool) (msg : string) s :
  wp (when c (info msg)) s
     (fun o s' t => o = Returned tt /\ s' = s /\ quiet t /\ calls_of t = []).
Proof. destruct c; repeat split; repeat constructor. Qed.

Lemma calls_of_complaint (name msg : string) : calls_of (complaint name msg) = [].
Proof. reflexivity. Qed.

Lemma calls_of_usage_text (name : string) (msg : option string) :
  calls_of (usage_text name msg) = [].
Proof. destruct msg; reflexivity. Qed.

Lemma no_pending_usage_text (name : string) (msg : option string) :
  no_pending (usage_text name msg).
Proof. destruct msg; repeat constructor. Qed.

(** Storing the operands. *)
Lemma wp_operands {B} (operands : list string) (k : unit -> M B) s
    (Q : outcome B -> state -> list event -> Prop) :
  (operands = [] -> Q (Exited 1) s (usage_text (argv0 s) (Some "bad args"%string))) ->
  (operands <> [] -> wp (k tt) (set_g (operands_apply operands (g s)) s) Q) ->
  wp (bind
        match operands with
        | [] => usage (Some "bad args"%string)
        | d :: more =>
            modify_g (set_dirname d) ;;
            match more with
            | h :: more' =>
                modify_g (set_bboshostname h) ;;
                match more' with
                | p :: _ => modify_g (set_bbosport (Fmt.atoi p))
                | [] => ret tt
                end
            | [] => ret tt
            end
        end k) s Q.
Proof.
  intros H1 H2. destruct operands as [|d [|h [|p more]]].
  - apply wp_usage_bind. now apply H1.
  - specialize (H2 ltac:(discriminate)).
    apply wp_assoc, wp_modify_g, wp_ret_bind. exact H2.
  - specialize (H2 ltac:(discriminate)).
    apply wp_assoc, wp_modify_g, wp_assoc, wp_modify_g, wp_ret_bind. exact H2.
  - specialize (H2 ltac:(discriminate)).
    apply wp_assoc, wp_modify_g, wp_assoc, wp_modify_g, wp_modify_g. exact H2.
Qed.

Ltac mstep :=
  lazymatch goal with
  | |- wp (bind get _) _ _ => apply wp_get
  | |- wp (bind (modify _) _) _ _ => apply wp_modify
  | |- wp (bind (modify_g _) _) _ _ => apply wp_modify_g
  | |- wp (modify_g _) _ _ => apply wp_modify_end
  | |- wp (bind (do_call _ _) _) _ _ => apply wp_call; intros ?F
  | |- wp (bind (when _ (complain _)) _) _ _ =>
      eapply wp_when_exit; [apply complain_run | intros ?C | intros ?C]
  | |- wp (bind (when _ (usage _)) _) _ _ =>
      eapply wp_when_exit; [apply usage_run | intros ?C | intros ?C]
  | |- wp (bind (option_loop _) _) _ _ =>
      apply wp_option_loop; [intros ?gv ?msg ?P | intros ?gv ?P]
  | |- wp (bind printopts _) _ _ =>
      eapply wp_print; [apply printopts_prints | intros ?t ?Hq ?Hc]
  | |- wp (bind (when _ (info _)) _) _ _ =>
      eapply wp_print; [apply when_info_prints | intros ?t ?Hq ?Hc]
  | |- wp (bind (bind _ _) _) _ _ => apply wp_assoc
  | |- wp (bind (ret _) _) _ _ => apply wp_ret_bind
  | |- wp (bind (usage _) _) _ _ => apply wp_usage_bind
  | |- wp (bind (arm _ _) _) _ _ => unfold arm
  | |- wp (exit _) _ _ => apply wp_exit
  | |- wp (bind (match _ with [] => _ | _ :: _ => _ end) _) _ _ =>
      apply wp_operands; intros ?E
  end.

Lemma calls_of_pending (c : call) : calls_of (Pending c :: sigalarm_diag) = [].
Proof. reflexivity. Qed.

Ltac shape_calls :=
  repeat first
    [ rewrite calls_of_app | rewrite calls_of_call | rewrite calls_of_nil
    | rewrite calls_of_complaint | rewrite calls_of_usage_text
    | rewrite calls_of_pending
    | match goal with H : calls_of ?t = [] |- _ => rewrite H end ];
  cbn [app].

Ltac shape_no_pending :=
  unfold no_pending, complaint;
  repeat first
    [ assumption
    | apply no_pending_usage_text
    | apply quiet_is_no_pending; assumption
    | apply Forall_nil
    | apply Forall_cons; [reflexivity|]
    | apply Forall_app; split ].

(** An interrupted call needs an armed deadline. *)
Ltac not_armed :=
  match goal with
  | F : fires _ _ = true |- _ =>
      unfold fires in F; cbn [deadline] in F;
      try match goal with E : (_ =? _) = true |- _ => rewrite E in F end;
      discriminate F
  end.

Ltac shape_leaf :=
  unfold main_shape; cbn [g deadline ncalls];
  split;
  [ exists []; split; [constructor|]; split;
    [ shape_calls; unfold main_calls, startup_calls; cbn [app];
      auto 10 with prefix
    | discriminate ]
  | split;
    [ reflexivity
    | split;
      [ intros Hnone;
        try match type of Hnone with
            | (if ?c then _ else _) = None =>
                let Z0 := fresh "Z" in destruct c eqn:Z0; [|discriminate Hnone]
            end;
        first [ not_armed | shape_no_pending ]
      | discriminate ] ] ].

Section MainShape.
Variable W : world.
Variable NDEBUG : bool.

(** What [write] does in any world. *)
Lemma write_any s :
  wp (write W NDEBUG) s (fun o s' t => session_run (g s) o s' t /\ tidy W s o s' t).
Proof. apply wp_and; [apply write_session | apply write_tidy]. Qed.

Lemma main_has_shape (name : string) (opts : list (ascii * string))
    (operands : list string) :
  wp (main W NDEBUG name opts operands) initial (main_shape W).
Proof.
  unfold main. norm_run. repeat (mstep; norm_state; norm_run).
  1-12: shape_leaf.
  assert (gs_ints (operands_apply operands gv)) as Hints.
  { apply operands_apply_ints. rewrite g_defaults_eq in P.
    pose proof (options_parse_ints opts _
                  (g_defaults_ints (out (W 1%nat)) (out (W 2%nat)))) as X.
    now rewrite P in X. }
  eapply wp_bind_then; [apply write_any|].
  intros o s1 t1 [(pre & Hpre & Hg & Hp & Hr) (_ & Hd & Ha & Hu & Hnp & _ & Hn & Hx & _)].
  cbn [g deadline argv0 ncalls] in *.
  assert ((ncalls s1 <? 5)%nat = false) as Hlate by (apply Nat.ltb_ge; lia).
  assert (forall o' : outcome unit, o' <> Exited 0 -> o' <> Undefined ->
          main_shape W o' s1
            (Call MPI_Init (W 0%nat) :: Call MPI_Comm_rank (W 1%nat)
             :: Call MPI_Comm_size (W 2%nat)
             :: t ++ Call signal_SIGALRM (W 3%nat)
             :: Call (alarm (Fmt.to_unsigned (timeout (operands_apply operands gv))))
                     (W 4%nat)
             :: t0 ++ Call MPI_Barrier (W 5%nat) :: t1)) as Stop.
  { intros o' Ho' Hu'. unfold main_shape. rewrite Hg, Hd, Hlate. cbn [orb].
    split; [|split; [reflexivity|split; [|exact Hu']]].
    - exists pre. split; [exact Hpre|]. split; [|intros; contradiction].
      shape_calls. unfold main_calls, startup_calls. cbn [app].
      repeat apply prefix_cons. rewrite app_assoc. now apply prefix_app_r.
    - intros Hnone. shape_no_pending. now apply Hnp. }
  destruct o as [[]|c| |].
  2:{ apply Stop; [|discriminate]. destruct Hx as [-> _]. discriminate. }
  2:{ apply Stop; discriminate. }
  2:{ destruct (Hu Hints eq_refl). }
  specialize (Hr eq_refl). cbn [exits_one] in Hx.
  repeat (mstep; norm_state; norm_run).
  - (* SIGALRM during MPI_Finalize *)
    unfold main_shape. rewrite Hg, Hd, Hlate. cbn [orb].
    split; [|split; [reflexivity|split; [|discriminate]]].
    + exists pre. split; [exact Hpre|]. split; [|discriminate].
      shape_calls. rewrite Hr. unfold main_calls, startup_calls. cbn [app].
      repeat apply prefix_cons. rewrite app_nil_r, (app_assoc pre).
      apply prefix_app_r, prefix_refl.
    + intros Hnone.
      match goal with
      | Hf : fires W s1 = true |- _ =>
          unfold fires in Hf; rewrite Hd, Hnone in Hf; discriminate Hf
      end.
  - (* exit(0) *)
    unfold main_shape. cbn [g deadline ncalls]. rewrite Hg, Hd.
    replace (S (ncalls s1) <? 5)%nat with false by (symmetry; apply Nat.ltb_ge; lia).
    cbn [orb].
    split; [|split; [reflexivity|split; [|discriminate]]].
    + exists pre. split; [exact Hpre|].
      assert (calls_of
                (Call MPI_Init (W 0%nat) :: Call MPI_Comm_rank (W 1%nat)
                 :: Call MPI_Comm_size (W 2%nat)
                 :: t ++ Call signal_SIGALRM (W 3%nat)
                 :: Call (alarm (Fmt.to_unsigned (timeout (operands_apply operands gv))))
                         (W 4%nat)
                 :: t0 ++ Call MPI_Barrier (W 5%nat)
                 :: t1 ++ Call MPI_Finalize (W (ncalls s1)) :: t2 ++ t3 ++ [])
              = main_calls (operands_apply operands gv) pre) as Hall.
      { shape_calls. rewrite Hr. unfold main_calls, startup_calls. cbn [app].
        rewrite <- ?app_assoc. reflexivity. }
      rewrite Hall. split; [apply prefix_refl | reflexivity].
    + intros Hnone. shape_no_pending.
Qed.

End MainShape.

(* ================================================================== *)
(** * [main]: refused command lines *)
(* ================================================================== *)

Section Refused.
Variable W : world.
Variable NDEBUG : bool.

Ltac mstep_front :=
  lazymatch goal with
  | |- wp (bind (option_loop _) _) _ _ => fail
  | |- wp (bind printopts _) _ _ => fail
  | |- _ => mstep; norm_state; norm_run
  end.

Ltac status_ok H :=
  match goal with
  | C : negb (status ?r =? 0) = true |- _ =>
      rewrite H in C; discriminate C
  end.

Ltac refused_leaf :=
  unfold refused; split; [reflexivity|]; split;
  [ shape_calls; repeat (constructor; try reflexivity)
  | intros H0 H1 H2;
    first [ not_armed | status_ok H0 | status_ok H1 | status_ok H2
          | eexists; reflexivity ] ].


Lemma main_refuses_bad_port (name : string) (opts : list (ascii * string))
    (d h p : string) (more : list string) :
  Fmt.atoi p <= 0 ->
  wp (main W NDEBUG name opts (d :: h :: p :: more)) initial (refused W name).
Proof.
  intros Hp. unfold main. norm_run. repeat mstep_front.
  1-6: refused_leaf.
  mstep; norm_state; norm_run; [refused_leaf|].
  repeat mstep_front.
  - refused_leaf.
  - exfalso.
    match goal with
    | X : (bbosport _ <=? 0) = false |- _ =>
        cbn [bbosport set_bbosport] in X; apply Z.leb_gt in X; lia
    end.
Qed.

(** When the options are accepted, the message is the one of the port. *)
Lemma main_bad_port_message (name : string) (opts : list (ascii * string))
    (d h p : string) (more : list string) :
  Fmt.atoi p <= 0 ->
  status (W 0%nat) = 0 -> status (W 1%nat) = 0 -> status (W 2%nat) = 0 ->
  snd (options_parse opts
         (g_defaults (Fmt.to_int (out (W 1%nat))) (Fmt.to_int (out (W 2%nat))))) = None ->
  events_of (main W NDEBUG name opts (d :: h :: p :: more) initial)
  = [Call MPI_Init (W 0%nat); Call MPI_Comm_rank (W 1%nat);
     Call MPI_Comm_size (W 2%nat)] ++ usage_text name (Some "bad bbos port"%string).
Proof.
  intros Hp H0 H1 H2 Hopts.
  change (wp (main W NDEBUG name opts (d :: h :: p :: more)) initial
            (fun _ _ t => t = [Call MPI_Init (W 0%nat); Call MPI_Comm_rank (W 1%nat);
                               Call MPI_Comm_size (W 2%nat)]
                              ++ usage_text name (Some "bad bbos port"%string))).
  unfold main. norm_run. repeat mstep_front.
  1-6: first [not_armed | status_ok H0 | status_ok H1 | status_ok H2].
  mstep; norm_state; norm_run.
  - rewrite g_defaults_eq in P. rewrite P in Hopts. discriminate.
  - repeat mstep_front.
    + reflexivity.
    + exfalso.
      match goal with
      | X : (bbosport _ <=? 0) = false |- _ =>
          cbn [bbosport set_bbosport] in X; apply Z.leb_gt in X; lia
      end.
Qed.

(** Without -b the remote backend stays disabled. *)
Lemma option_apply_bbos (ch : ascii) (optarg : string) (gv : gs) :
  ch <> "b"%char -> bbos (option_apply ch optarg gv) = bbos gv.
Proof.
  intros H. destruct ch as [[] [] [] [] [] [] [] []]; try reflexivity.
  now destruct H.
Qed.

Lemma options_parse_bbos (opts : list (ascii * string)) (gv : gs) :
  (forall x, ~ In ("b"%char, x) opts) ->
  bbos (fst (options_parse opts gv)) = bbos gv.
Proof.
  revert gv. induction opts as [|[ch optarg] rest IH]; intros gv H; [reflexivity|].
  assert (ch <> "b"%char) as Hch by (intros ->; apply (H optarg); now left).
  cbn [options_parse].
  destruct (option_error ch optarg); cbn [fst].
  - now apply option_apply_bbos.
  - rewrite IH; [now apply option_apply_bbos|].
    intros x Hx. apply (H x). now right.
Qed.

Lemma main_bad_port_bbos (name : string) (opts : list (ascii * string))
    (d h p : string) (more : list string) :
  Fmt.atoi p <= 0 ->
  (forall x, ~ In ("b"%char, x) opts) ->
  bbos (g (state_of (main W NDEBUG name opts (d :: h :: p :: more) initial))) = 0.
Proof.
  intros Hp Hb.
  change (wp (main W NDEBUG name opts (d :: h :: p :: more)) initial
            (fun _ s' _ => bbos (g s') = 0)).
  unfold main. norm_run. repeat mstep_front.
  1-6: reflexivity.
  mstep; norm_state; norm_run.
  - cbn [g set_g].
    match type of P with
    | options_parse _ ?G = _ => pose proof (options_parse_bbos opts G Hb) as X
    end.
    rewrite P in X. exact X.
  - repeat mstep_front.
    + cbn [g set_g bbos set_dirname set_bboshostname set_bbosport].
      match type of P with
      | options_parse _ ?G = _ => pose proof (options_parse_bbos opts G Hb) as X
      end.
      rewrite P in X. exact X.
    + exfalso.
      match goal with
      | X : (bbosport _ <=? 0) = false |- _ =>
          cbn [bbosport set_bbosport] in X; apply Z.leb_gt in X; lia
      end.
Qed.

End Refused.

(* ================================================================== *)
(** * [main]: a whole run in which nothing goes wrong *)
(* ================================================================== *)

Section MainCalm.
Variable W : world.
Variable NDEBUG : bool.
Hypothesis Wok : no_errors W.

Lemma in_time_never_late (seconds : Z) s :
  in_time W seconds ->
  deadline s = (if seconds =? 0 then None else Some (elapsed W 5 + seconds)) ->
  never_late W s.
Proof.
  unfold never_late. intros [->|H] ->; [reflexivity|].
  destruct (seconds =? 0); [trivial | exact H].
Qed.

Ltac calm_leaf L :=
  exfalso;
  first
    [ not_armed
    | match goal with
      | F : fires W ?s = true |- _ =>
          rewrite (never_late_fires W s) in F by (apply L; reflexivity);
          discriminate F
      end
    | match goal with
      | C : negb (status ?r =? 0) = true |- _ =>
          rewrite (proj1 (Wok _)) in C; discriminate C
      end ].

Lemma main_calm (name : string) (opts : list (ascii * string))
    (operands : list string) :
  let gv := parameters (Fmt.to_int (out (W 1%nat))) (Fmt.to_int (out (W 2%nat)))
                       opts operands in
  accepted opts operands ->
  0 <= valsz gv ->
  in_time W (Fmt.to_unsigned (timeout gv)) ->
  wp (main W NDEBUG name opts operands) initial (main_done W gv).
Proof.
  intros gv (Hopts & Hoper & Hport) Hval Htime.
  specialize (Hopts (Fmt.to_int (out (W 1%nat))) (Fmt.to_int (out (W 2%nat)))).
  specialize (Hport (Fmt.to_int (out (W 1%nat))) (Fmt.to_int (out (W 2%nat)))).
  fold gv in Hport.
  assert (gs_ints gv) as Hints.
  { apply operands_apply_ints, options_parse_ints, g_defaults_ints. }
  assert (forall s,
            deadline s = (if Fmt.to_unsigned (timeout gv) =? 0 then None
                          else Some (elapsed W 5 + Fmt.to_unsigned (timeout gv))) ->
            never_late W s) as L.
  { intros s. now apply in_time_never_late. }
  unfold main. norm_run.
  repeat lazymatch goal with
         | |- wp (bind (option_loop _) _) _ _ => fail
         | |- _ => mstep; norm_state; norm_run
         end.
  1-6: calm_leaf L.
  mstep; norm_state; norm_run.
  { exfalso. rewrite g_defaults_eq in P. rewrite P in Hopts. discriminate. }
  rewrite g_defaults_eq in P.
  assert (gv = operands_apply operands gv0) as Egv.
  { unfold gv, parameters. now rewrite P. }
  repeat lazymatch goal with
         | |- wp (bind (write _ _) _) _ _ => fail
         | |- _ => mstep; norm_state; norm_run
         end.
  all: rewrite <- ?Egv in *.
  1: contradiction.
  1: exfalso;
     match goal with
     | X : (bbosport gv <=? 0) = true |- _ => apply Z.leb_le in X; lia
     end.
  1-3: calm_leaf L.
  eapply wp_bind_then.
  { apply write_calm; [exact Wok|].
    split; [apply L; reflexivity|]. split; [reflexivity|]. split; [reflexivity|].
    split; [exact Hints | exact Hval]. }
  intros o s1 t1 (-> & Hc1 & Hg1 & Hd1 & Ha1 & Hq1). norm_state.
  assert (never_late W s1) as L1 by (apply L; exact Hd1).
  apply wp_call; intros F6; [rewrite never_late_fires in F6 by exact L1; discriminate|].
  norm_run.
  repeat (mstep; norm_state; norm_run).
  unfold main_done. cbn [g]. repeat split; [exact Hg1 | |].
  - shape_calls. rewrite Hc1. unfold main_calls, startup_calls. cbn [app].
    now rewrite <- !app_assoc.
  - solve_quiet.
Qed.

End MainCalm.

(* ================================================================== *)
(** * Every error tested for ends the process with exit(1) *)
(* ================================================================== *)






Section Checked.
Variable W : world.
Variable NDEBUG : bool.













End Checked.

(* ================================================================== *)
(** * The watchdog goes off at the deadline, not before *)
(* ================================================================== *)

Section Watched.
Variable W : world.
Variable NDEBUG : bool.

Lemma watched_quiet {A} (o : outcome A) s (t : list event) :
  no_pending t -> watched W o s t.
Proof. intros H. destruct o; cbn [watched]; auto. Qed.

Lemma watched_bind {A B} (m : M A) (k : A -> M B) s :
  wp m s (watched W) -> (forall a s1, wp (k a) s1 (watched W)) ->
  wp (bind m k) s (watched W).
Proof.
  intros H1 H2. eapply wp_bind_then; [exact H1|].
  intros o s1 t1 Q1. destruct o as [a|c| |]; try exact Q1.
  cbn [watched] in Q1. eapply wp_mono; [apply H2|].
  intros o' s2 t2 Q2. destruct o'; cbn [watched] in *;
    try (now apply no_pending_app).
  destruct Q2 as [Q2|Q2]; [left; now apply no_pending_app | now right].
Qed.

Lemma call_watched (c : call) s : wp (do_call W c) s (watched W).
Proof.
  unfold wp, do_call, outcome_of, state_of, events_of.
  destruct (deadline s) as [d|] eqn:D;
    [destruct (d <=? elapsed W (S (ncalls s))) eqn:F|]; cbn [fst snd watched].
  - right. change (fires W s = true). unfold fires. now rewrite D.
  - repeat constructor.
  - repeat constructor.
Qed.

Lemma ret_watched {A} (a : A) s : wp (ret a) s (watched W).
Proof. apply wp_ret, watched_quiet. constructor. Qed.

Lemma complain_watched {A} (msg : string) s : wp (@complain A msg) s (watched W).
Proof. apply wp_complain, watched_quiet. repeat constructor. Qed.

Lemma usage_watched {A} (msg : option string) s : wp (@usage A msg) s (watched W).
Proof. apply wp_usage, watched_quiet, no_pending_usage_text. Qed.

Lemma when_watched (c : bool) (m : M unit) s :
  wp m s (watched W) -> wp (when c m) s (watched W).
Proof. intros H. destruct c; [exact H | apply ret_watched]. Qed.

Lemma modify_watched (f : state -> state) s : wp (modify f) s (watched W).
Proof. apply wp_modify_end, watched_quiet. constructor. Qed.

Lemma info_watched (msg : string) s : wp (info msg) s (watched W).
Proof. apply watched_quiet. repeat constructor. Qed.

Lemma printopts_watched s : wp printopts s (watched W).
Proof. apply watched_quiet. repeat constructor. Qed.

Lemma assert_watched s : wp (assert_dir NDEBUG) s (watched W).
Proof.
  unfold assert_dir. apply wp_get.
  destruct NDEBUG; [apply ret_watched|].
  destruct (dir s =? 0); [|apply ret_watched].
  apply wp_abort, watched_quiet. constructor.
Qed.

Lemma for_loop_watched (body : Z -> M unit) :
  (forall i s, wp (body i) s (watched W)) ->
  forall n i s, wp (for_loop n i body) s (watched W).
Proof.
  intros Hb. induction n as [|n IH]; intros i s; cbn [for_loop].
  - apply ret_watched.
  - apply watched_bind; [apply Hb|]. intros _ s1. apply IH.
Qed.

Lemma option_loop_watched (opts : list (ascii * string)) s :
  wp (option_loop opts) s (watched W).
Proof.
  unfold wp, outcome_of, state_of, events_of. rewrite option_loop_run.
  destruct (options_parse opts (g s)) as [gv [msg|]]; cbn [fst snd];
    apply watched_quiet; [apply no_pending_usage_text | constructor].
Qed.

Ltac watch_step :=
  lazymatch goal with
  | |- wp (assert_dir _) _ _ => apply assert_watched
  | |- wp (bind get _) _ _ => apply wp_get
  | |- wp (do_call _ _) _ _ => apply call_watched
  | |- wp (complain _) _ _ => apply complain_watched
  | |- wp (usage _) _ _ => apply usage_watched
  | |- wp (info _) _ _ => apply info_watched
  | |- wp printopts _ _ => apply printopts_watched
  | |- wp (option_loop _) _ _ => apply option_loop_watched
  | |- wp (ret _) _ _ => apply ret_watched
  | |- wp abort _ _ => apply wp_abort, watched_quiet; constructor
  | |- wp undefined _ _ => apply wp_undefined, watched_quiet; constructor
  | |- wp (exit _) _ _ => apply wp_exit, watched_quiet; constructor
  | |- wp (when _ _) _ _ => apply when_watched
  | |- wp (modify_g _) _ _ => apply modify_watched
  | |- wp (modify _) _ _ => apply modify_watched
  | |- wp (for_loop _ _ _) _ _ => apply for_loop_watched; intros
  | |- wp (arm _ _) _ _ => unfold arm
  | |- wp (if ?c then _ else _) _ _ => destruct c
  | |- wp (match ?x with Some _ => _ | None => _ end) _ _ => destruct x
  | |- wp (bind _ _) _ _ => apply watched_bind; [| intros ? ? ]
  end.

Lemma writekey_watched (k e : Z) (val : string) s :
  wp (writekey W NDEBUG k e val) s (watched W).
Proof. unfold writekey. repeat watch_step. Qed.

Lemma writepoch_watched (e : Z) s : wp (writepoch W NDEBUG e) s (watched W).
Proof. unfold writepoch. repeat first [watch_step | apply writekey_watched]. Qed.

Lemma write_watched s : wp (write W NDEBUG) s (watched W).
Proof.
  unfold write, mkbbos, mkconf.
  repeat first [watch_step | apply writepoch_watched].
Qed.

Lemma main_is_watched (name : string) (opts : list (ascii * string))
    (operands : list string) s :
  wp (main W NDEBUG name opts operands) s (watched W).
Proof.
  unfold main. repeat first [watch_step | apply write_watched].
  destruct operands as [|d [|h [|p more]]];
    repeat first [watch_step | apply write_watched].
Qed.

End Watched.

(* ================================================================== *)
(** * Reading numbers: atoi *)
(* ================================================================== *)

Section Atoi.
Import Fmt FmtFacts.

(** The digits of a decimal text, most significant first. *)
Lemma digits_value_chars (ms : list Z) (acc : Z) :
  Forall (fun d => 0 <= d < 10) ms ->
  digits_value (string_of_list_ascii (map digit_char ms)) acc
  = fold_left (fun a d => a * 10 + d) ms acc.
Proof.
  revert acc. induction ms as [|d ms IH]; intros acc H; [reflexivity|].
  inversion H as [|? ? Hd Hms]; subst.
  cbn [map string_of_list_ascii digits_value fold_left].
  assert (d = 0 \/ d = 1 \/ d = 2 \/ d = 3 \/ d = 4 \/ d = 5 \/ d = 6 \/
          d = 7 \/ d = 8 \/ d = 9) as C by lia.
  destruct C as [->|[->|[->|[->|[->|[->|[->|[->|[->| ->]]]]]]]]];
    cbn [digit_char isdigit]; simpl nat_of_ascii; cbn [Nat.leb andb];
    rewrite IH by assumption; reflexivity.
Qed.

Lemma fold_left_value_le (le : list Z) :
  fold_left (fun a d => a * 10 + d) (rev le) 0 = value_le 10 le.
Proof.
  rewrite <- fold_left_rev_right, rev_involutive.
  induction le as [|d le IH]; [reflexivity|].
  cbn [fold_right value_le]. rewrite IH. lia.
Qed.

Lemma digits_value_utoa (n : Z) : 0 <= n -> digits_value (utoa 10 n) 0 = n.
Proof.
  intros Hn. unfold utoa. rewrite digits_value_chars.
  - rewrite fold_left_value_le. apply digits_le_value; [lia|].
    split; [exact Hn | apply log2_fuel; lia].
  - apply Forall_rev, digits_le_range. lia.
Qed.

(** A decimal text starts with a digit. *)
Lemma utoa_head (n : Z) :
  exists d rest, 0 <= d < 10 /\ utoa 10 n = String (digit_char d) rest.
Proof.
  unfold utoa.
  pose proof (digits_le_range 10 ltac:(lia) (Z.to_nat (Z.log2 n)) n) as R.
  apply Forall_rev in R.
  destruct (rev (digits_le 10 (Z.to_nat (Z.log2 n)) n)) as [|d ms] eqn:E.
  - apply (f_equal (@List.length Z)) in E. rewrite length_rev in E.
    destruct (Z.to_nat (Z.log2 n)); discriminate E.
  - inversion R; subst. exists d, (string_of_list_ascii (map digit_char ms)).
    split; [assumption | reflexivity].
Qed.

Lemma strtol10_utoa (n : Z) : 0 <= n -> strtol10 (utoa 10 n) = clamp_long n.
Proof.
  intros Hn. pose proof (digits_value_utoa n Hn) as V.
  destruct (utoa_head n) as (d & rest & Hd & E). rewrite E in *.
  assert (d = 0 \/ d = 1 \/ d = 2 \/ d = 3 \/ d = 4 \/ d = 5 \/ d = 6 \/
          d = 7 \/ d = 8 \/ d = 9) as C by lia.
  unfold strtol10.
  destruct C as [->|[->|[->|[->|[->|[->|[->|[->|[->| ->]]]]]]]]];
    cbn [digit_char] in *;
    (lazymatch goal with
     | |- context [skip_space (String ?c ?r)] =>
         change (skip_space (String c r)) with (String c r)
     end);
    cbv iota beta; now rewrite V.
Qed.

Lemma atoi_itoa (z : Z) : int_range z -> atoi (itoa z) = z.
Proof.
  unfold int_range. intros H. unfold atoi, itoa.
  destruct (Z.ltb_spec z 0).
  - unfold strtol10.
    change (skip_space (String "-" (utoa 10 (- z))))
      with (String "-" (utoa 10 (- z))).
    cbv iota beta. rewrite digits_value_utoa by lia.
    unfold clamp_long, to_int. rewrite Z.opp_involutive.
    rewrite Z.max_r, Z.min_r by lia.
    rewrite Z.mod_small by lia. lia.
  - rewrite strtol10_utoa by lia.
    unfold clamp_long, to_int.
    rewrite Z.max_r, Z.min_r by lia.
    rewrite Z.mod_small by lia. lia.
Qed.

(** A text that does not start like a number reads as 0. *)
Lemma atoi_not_a_number (s : string) : not_a_number s -> atoi s = 0.
Proof.
  destruct s as [|c s]; [reflexivity|].
  intros (Hs & Hd & Hm & Hp).
  unfold atoi, strtol10. cbn [skip_space]. rewrite Hs.
  destruct c as [[] [] [] [] [] [] [] []];
    try (now destruct Hm); try (now destruct Hp);
    cbn [digits_value]; rewrite Hd; reflexivity.
Qed.

End Atoi.

(* ================================================================== *)
(** * The option loop, option by option *)
(* ================================================================== *)

Section OptionFacts.

Lemma options_parse_app (o1 o2 : list (ascii * string)) (gv : gs) :
  options_parse (o1 ++ o2) gv
  = match options_parse o1 gv with
    | (gv1, Some msg) => (gv1, Some msg)
    | (gv1, None) => options_parse o2 gv1
    end.
Proof.
  revert gv. induction o1 as [|[ch x] o1 IH]; intros gv; [reflexivity|].
  cbn [app options_parse]. destruct (option_error ch x); [reflexivity | apply IH].
Qed.

Lemma options_parse_stops (o1 o2 : list (ascii * string)) (ch : ascii)
    (x : string) (msg : option string) (gv : gs) :
  option_error ch x = Some msg ->
  options_parse (o1 ++ (ch, x) :: o2) gv = options_parse (o1 ++ [(ch, x)]) gv.
Proof.
  intros E. rewrite !options_parse_app.
  destruct (options_parse o1 gv) as [gv1 [m|]]; [reflexivity|].
  cbn [options_parse]. now rewrite E.
Qed.

Lemma option_apply_valid (ch : ascii) (x : string) (gv : gs) :
  option_error ch x = None -> valid_params gv ->
  valid_params (option_apply ch x gv).
Proof.
  unfold valid_params.
  destruct ch as [[] [] [] [] [] [] [] []]; try discriminate;
    cbn [option_error option_apply]; intros E H;
    try (destruct (Z.leb_spec (Fmt.atoi x) 0); [discriminate E|]);
    try (destruct (Z.ltb_spec (Fmt.atoi x) 0); [discriminate E|]);
    cbn [iosz nepochs nkeys filterbits keysz valsz bg timeout bbosport
         set_iosz set_nepochs set_nkeys set_filterbits set_keysz set_valsz
         set_bg set_timeout set_logrotation set_bbos set_v];
    intuition lia.
Qed.

Lemma options_parse_valid (opts : list (ascii * string)) (gv : gs) :
  snd (options_parse opts gv) = None -> valid_params gv ->
  valid_params (fst (options_parse opts gv)).
Proof.
  revert gv. induction opts as [|[ch x] opts IH]; intros gv E H; [exact H|].
  cbn [options_parse] in *.
  destruct (option_error ch x) eqn:Ex; [discriminate E|].
  apply IH; [exact E | now apply option_apply_valid].
Qed.

Lemma g_defaults_valid (rank size : Z) : valid_params (g_defaults rank size).
Proof.
  unfold valid_params, g_defaults, DEF_IO_SIZE, DEF_NUM_EPOCHS,
    DEF_NUM_KEYS_PER_EPOCH, DEF_FILTER_BITS, DEF_KEY_SIZE, DEF_VAL_SIZE,
    DEF_TIMEOUT, DEF_BBOS_PORT.
  cbn. lia.
Qed.

Lemma parameters_valid (rank size : Z) (opts : list (ascii * string))
    (operands : list string) :
  snd (options_parse opts (g_defaults rank size)) = None ->
  0 < bbosport (parameters rank size opts operands) ->
  valid_params (parameters rank size opts operands).
Proof.
  intros E Hp.
  pose proof (options_parse_valid opts _ E (g_defaults_valid rank size)) as H.
  unfold parameters in *. unfold valid_params in *.
  destruct operands as [|d [|h [|p more]]];
    cbn [operands_apply iosz nepochs nkeys filterbits keysz valsz bg timeout
         bbosport set_dirname set_bboshostname set_bbosport] in *;
    intuition lia.
Qed.

Lemma option_apply_myrank (ch : ascii) (x : string) (gv : gs) :
  myrank (option_apply ch x gv) = myrank gv /\
  commsz (option_apply ch x gv) = commsz gv.
Proof. destruct ch as [[] [] [] [] [] [] [] []]; split; reflexivity. Qed.

Lemma options_parse_myrank (opts : list (ascii * string)) (gv : gs) :
  myrank (fst (options_parse opts gv)) = myrank gv /\
  commsz (fst (options_parse opts gv)) = commsz gv.
Proof.
  revert gv. induction opts as [|[ch x] opts IH]; intros gv; [now split|].
  cbn [options_parse]. destruct (option_apply_myrank ch x gv) as [E1 E2].
  destruct (option_error ch x); cbn [fst]; [now split|].
  destruct (IH (option_apply ch x gv)) as [I1 I2]. split; congruence.
Qed.

Lemma parameters_myrank (rank size : Z) (opts : list (ascii * string))
    (operands : list string) :
  myrank (parameters rank size opts operands) = rank /\
  commsz (parameters rank size opts operands) = size.
Proof.
  destruct (options_parse_myrank opts (g_defaults rank size)) as [E1 E2].
  unfold parameters.
  destruct operands as [|d [|h [|p more]]];
    cbn [operands_apply myrank commsz set_dirname set_bboshostname set_bbosport];
    split; assumption.
Qed.

Lemma parameters_ints (rank size : Z) (opts : list (ascii * string))
    (operands : list string) :
  gs_ints (parameters (Fmt.to_int rank) (Fmt.to_int size) opts operands).
Proof.
  unfold parameters. apply operands_apply_ints.
  apply options_parse_ints, g_defaults_ints.
Qed.

End OptionFacts.

(* ================================================================== *)
(** * now *)
(* ================================================================== *)

Section Now.

Lemma now_exact (tv_sec tv_usec : Z) :
  0 <= tv_sec -> 0 <= tv_usec -> tv_sec * 1000000 + tv_usec < 2 ^ 64 ->
  now tv_sec tv_usec = tv_sec * 1000000 + tv_usec.
Proof.
  intros H1 H2 H3. unfold now, to_uint64.
  rewrite (Z.mod_small tv_sec) by lia.
  rewrite (Z.mod_small tv_usec) by lia.
  rewrite (Z.mod_small (tv_sec * 1000000)) by lia.
  apply Z.mod_small. lia.
Qed.

End Now.

(* ================================================================== *)
(** * [main] in two parts: up to [write], and from [write] on *)
(* ================================================================== *)

Lemma stdout_of_app (t1 t2 : list event) :
  stdout_of (t1 ++ t2) = stdout_of t1 ++ stdout_of t2.
Proof. apply flat_map_app. Qed.

Lemma stdout_of_call (c : call) (r : response) (t : list event) :
  stdout_of (Call c r :: t) = stdout_of t.
Proof. reflexivity. Qed.

Lemma stdout_of_pending (c : call) (t : list event) :
  stdout_of (Pending c :: t) = stdout_of t.
Proof. reflexivity. Qed.

Lemma stdout_of_stderr (x : string) (t : list event) :
  stdout_of (Stderr x :: t) = stdout_of t.
Proof. reflexivity. Qed.

Lemma stdout_of_stdout (x : string) (t : list event) :
  stdout_of (Stdout x :: t) = x :: stdout_of t.
Proof. reflexivity. Qed.

Lemma stdout_of_printed (l : list string) : stdout_of (map Stdout l) = l.
Proof. induction l as [|x l IH]; [reflexivity|]. cbn [map]. now rewrite stdout_of_stdout, IH. Qed.

Lemma stdout_of_usage_text (name : string) (msg : option string) :
  stdout_of (usage_text name msg) = [].
Proof. destruct msg; reflexivity. Qed.

Lemma calls_of_printed (l : list string) : calls_of (map Stdout l) = [].
Proof. induction l as [|x l IH]; [reflexivity | exact IH]. Qed.

Lemma printopts_run s :
  printopts s = (Returned tt, s, map Stdout (printopts_text (argv0 s) (g s))).
Proof. reflexivity. Qed.

Lemma when_info_run (c : bool) (msg : string) s :
  when c (info msg) s
  = (Returned tt, s, if c then map Stdout (info_text msg) else []).
Proof. destruct c; reflexivity. Qed.

Lemma wp_run_bind {A B} (m : M A) (k : A -> M B) s (a : A) s1 (t1 : list event)
    (Q : outcome B -> state -> list event -> Prop) :
  m s = (Returned a, s1, t1) ->
  wp (k a) s1 (fun o s' t => Q o s' (t1 ++ t)) ->
  wp (bind m k) s Q.
Proof.
  intros E H. unfold wp, bind, outcome_of, state_of, events_of in *.
  rewrite E. destruct (k a s1) as [[o s2] t2]. exact H.
Qed.

Ltac dstep :=
  lazymatch goal with
  | |- wp (bind printopts _) _ _ =>
      eapply wp_run_bind; [apply printopts_run|]
  | |- wp (bind (when _ (info _)) _) _ _ =>
      eapply wp_run_bind; [apply when_info_run|]
  | |- wp (bind (write _ _) _) _ _ => fail
  | |- _ => mstep
  end.

Ltac early_stdout :=
  repeat first
    [ rewrite stdout_of_app | rewrite stdout_of_call | rewrite stdout_of_pending
    | rewrite stdout_of_stderr | rewrite stdout_of_printed
    | rewrite stdout_of_usage_text ];
  cbn [stdout_of flat_map app complaint sigalarm_diag].

Ltac early_leaf_core :=
  left; split; [reflexivity|]; split;
  [ shape_calls; rewrite ?calls_of_printed;
    cbn [calls_of flat_map app List.length];
    repeat (first [rewrite calls_of_printed | rewrite calls_of_app
                  | rewrite calls_of_call | rewrite calls_of_nil]);
    cbn [app List.length]; lia
  | early_stdout; rewrite ?app_nil_r; auto with prefix ].

Ltac early_leaf :=
  unfold main_parts, prologue_stdout, chatty; cbn [argv0 g];
  repeat match goal with
         | |- context [if ?c then map Stdout _ else []] => destruct c
         end;
  early_leaf_core.

Section MainParts.
Variable W : world.
Variable NDEBUG : bool.

Lemma main_decomposed (name : string) (opts : list (ascii * string))
    (operands : list string) :
  wp (main W NDEBUG name opts operands) initial
     (main_parts W NDEBUG name opts operands).
Proof.
  unfold main. norm_run. repeat (dstep; norm_state; norm_run).
  all: try not_armed.
  all: try early_leaf.
  rewrite g_defaults_eq in P.
  assert (parameters (Fmt.to_int (out (W 1%nat))) (Fmt.to_int (out (W 2%nat)))
            opts operands = operands_apply operands gv) as Egv
    by (unfold parameters; now rewrite P).
  unfold wp, main_parts. cbv zeta. rewrite Egv. right.
  repeat match goal with
         | C : negb (status _ =? 0) = false |- _ =>
             apply negb_false_iff, Z.eqb_eq in C
         end.
  split; [repeat split; assumption|].
  split; [now rewrite P|]. split; [assumption|].
  split; [match goal with
          | X : (bbosport _ <=? 0) = false |- _ => apply Z.leb_gt in X; exact X
          end|].
  split.
  { match goal with
    | X : fires W ?S = false |- _ =>
        lazymatch S with context [elapsed] => idtac end;
        unfold fires in X; cbn [deadline ncalls] in X; unfold barrier_late;
        destruct (Fmt.to_unsigned (timeout (operands_apply operands gv)) =? 0)
          eqn:D; [reflexivity | rewrite ?D in X; exact X]
    end. }
  unfold with_prefix, write_entry, prologue_events, chatty, finish_up.
  f_equal. cbn [app]. rewrite <- !app_assoc. cbn [app]. rewrite <- !app_assoc.
  reflexivity.
Qed.

End MainParts.

(* ================================================================== *)
(** * [write] in two parts: the setup, and the session *)
(* ================================================================== *)

Ltac use_flags :=
  repeat match goal with
         | H : ?c = true |- context [?c] => rewrite H
         | H : ?c = false |- context [?c] => rewrite H
         end;
  change (0 =? 0) with true;
  cbn [negb andb orb];
  rewrite ?orb_false_r, ?andb_true_r, ?andb_false_r, ?orb_true_r.

Ltac split_flag c :=
  lazymatch c with
  | context [?a =? ?b] =>
      let E := fresh "E" in destruct (a =? b) eqn:E
  | _ => is_var c; destruct c
  end.

Lemma info_run (msg : string) s :
  info msg s = (Returned tt, s, map Stdout (info_text msg)).
Proof. reflexivity. Qed.

Ltac wstep :=
  lazymatch goal with
  | |- wp (bind (info _) _) _ _ => eapply wp_run_bind; [apply info_run|]
  | |- wp (bind (when false _) _) _ _ => cbn [when]
  | |- wp (bind (when _ (complain _)) _) _ _ => dstep
  | |- wp (bind (when _ (info _)) _) _ _ => dstep
  | |- wp (bind (when true _) _) _ _ => cbn [when]
  | |- wp (bind (when ?c _) _) _ _ => split_flag c
  | |- wp (bind (if true then _ else _) _) _ _ => cbv iota
  | |- wp (bind (if false then _ else _) _) _ _ => cbv iota
  | |- wp (bind (if ?c then _ else _) _) _ _ => split_flag c
  | |- wp (bind (match mkconf_cf ?gv with Some _ => _ | None => _ end) _) _ _ =>
      rewrite (mkconf_cf_descriptor gv) by assumption
  | |- _ => dstep
  end.

Ltac flags_to_facts :=
  repeat match goal with
         | H : (_ =? _) = true |- _ => apply Z.eqb_eq in H
         | H : (_ =? _) = false |- _ => apply Z.eqb_neq in H
         | H : negb (_ =? _) = false |- _ => apply negb_false_iff, Z.eqb_eq in H
         end.

Ltac write_early :=
  unfold write_parts; cbn [g]; left;
  split; [reflexivity|]; split; [reflexivity|]; split;
  [ unfold setup_calls; use_flags; shape_calls; rewrite ?calls_of_printed;
    shape_calls; cbn [app]; auto 10 with prefix
  | early_stdout; cbn [app]; auto 10 with prefix ].

Ltac setup_facts :=
  unfold setup_done; cbn [g deadline argv0 cf ncalls dir env bgp];
  split; [unfold setup_calls; use_flags; reflexivity|];
  split; [repeat (apply Forall_cons; [cbn [is_failure failed]; first [assumption | reflexivity]|]);
          apply Forall_nil|];
  split; [repeat constructor|];
  split; [reflexivity|];
  split; [reflexivity|]; split; [reflexivity|]; split; [reflexivity|];
  split; [reflexivity|];
  split; [unfold setup_calls; use_flags; cbn [app List.length]; lia|];
  split; [eexists; split; [cbn [In]; auto 20 | reflexivity]|];
  flags_to_facts; split; split; intros; first [assumption | reflexivity | congruence | lia].

Ltac write_enters :=
  lazymatch goal with
  | |- wp ?m ?S1 (fun o s' t => write_parts ?W0 ?N ?S0 o s' (@?F t)) =>
      let T0 := eval cbn [app map info_text] in (F []) in
      unfold wp; right; exists T0, S1; split;
      [ setup_facts
      | unfold with_prefix, session; cbn [g app map info_text]; reflexivity ]
  end.

Section WriteParts.
Variable W : world.
Variable NDEBUG : bool.

Lemma write_decomposed s :
  env s = 0 -> bgp s = 0 -> gs_ints (g s) ->
  wp (write W NDEBUG) s (write_parts W NDEBUG s).
Proof.
  destruct s as [a0 d0 e0 p0 c0 b0 g0 dl n0]. cbn [env bgp g].
  intros -> -> Hints.
  unfold write, mkbbos, mkconf. norm_run.
  destruct NDEBUG.
  all: repeat (use_flags; wstep; norm_state; norm_run).
  all: try discriminate.
  all: try write_early.
  all: write_enters.
Qed.

End WriteParts.

(* ================================================================== *)
(** * The session: its calls, its output, its assertions *)
(* ================================================================== *)

Ltac stop_follows :=
  unfold follows; cbn [g count_call calls_of flat_map app complaint sigalarm_diag];
  repeat split; auto with prefix; try discriminate.

Section Session.
Variable W : world.
Variable NDEBUG : bool.

Lemma session_follows (gv : gs) s :
  g s = gv -> wp (session W NDEBUG gv) s (follows gv (session_calls gv)).
Proof.
  intros Hg. unfold session, session_calls, epochs_calls. subst gv.
  apply follows_seq; [apply epochs_follow|].
  intros s1 Hg1.
  apply wp_call; intros F; [stop_follows|].
  eapply wp_when_exit; [apply complain_run | intros; stop_follows |].
  intros _.
  apply wp_call; intros F'; [stop_follows|].
  apply wp_ret. stop_follows.
Qed.

(** ** What is printed on stdout *)

Lemma mute_bind {A B} (m : M A) (k : A -> M B) s :
  wp m s (fun _ _ t => stdout_of t = []) ->
  (forall a s1, wp (k a) s1 (fun _ _ t => stdout_of t = [])) ->
  wp (bind m k) s (fun _ _ t => stdout_of t = []).
Proof.
  intros H1 H2. eapply wp_bind_then; [exact H1|].
  intros o s1 t1 Q1. destruct o as [a|c| |]; try exact Q1.
  eapply wp_mono; [apply H2|]. intros o' s2 t2 Q2.
  now rewrite stdout_of_app, Q1, Q2.
Qed.

Lemma call_mute (c : call) s : wp (do_call W c) s (fun _ _ t => stdout_of t = []).
Proof.
  unfold wp, do_call, outcome_of, state_of, events_of.
  destruct (match deadline s with Some t => _ | None => _ end); reflexivity.
Qed.

Lemma for_loop_mute (body : Z -> M unit) :
  (forall i s, wp (body i) s (fun _ _ t => stdout_of t = [])) ->
  forall n i s, wp (for_loop n i body) s (fun _ _ t => stdout_of t = []).
Proof.
  intros Hb. induction n as [|n IH]; intros i s; cbn [for_loop].
  - reflexivity.
  - apply mute_bind; [apply Hb|]. intros _ s1. apply IH.
Qed.

Ltac mute_step :=
  lazymatch goal with
  | |- wp (assert_dir _) _ _ =>
      unfold assert_dir; apply wp_get;
      destruct NDEBUG; [reflexivity|];
      match goal with |- context [if ?c then _ else _] => destruct c end;
      reflexivity
  | |- wp (bind get _) _ _ => apply wp_get
  | |- wp (do_call _ _) _ _ => apply call_mute
  | |- wp (complain _) _ _ => reflexivity
  | |- wp (ret _) _ _ => reflexivity
  | |- wp abort _ _ => reflexivity
  | |- wp (when ?c _) _ _ => destruct c; cbn [when]
  | |- wp (for_loop _ _ _) _ _ => apply for_loop_mute; intros
  | |- wp (if ?c then _ else _) _ _ => destruct c
  | |- wp (bind _ _) _ _ => apply mute_bind; [| intros ? ? ]
  end.

Lemma writekey_mute (k e : Z) (val : string) s :
  wp (writekey W NDEBUG k e val) s (fun _ _ t => stdout_of t = []).
Proof. unfold writekey. repeat mute_step. Qed.

Lemma writepoch_mute (e : Z) s :
  wp (writepoch W NDEBUG e) s (fun _ _ t => stdout_of t = []).
Proof. unfold writepoch. repeat first [mute_step | apply writekey_mute]. Qed.

Lemma session_mute (gv : gs) s :
  wp (session W NDEBUG gv) s (fun _ _ t => stdout_of t = []).
Proof. unfold session. repeat first [mute_step | apply writepoch_mute]. Qed.

(** ** The assertions *)

Lemma writekey_asserted (k e : Z) (val : string) s :
  NDEBUG = true \/ dir s <> 0 ->
  wp (writekey W NDEBUG k e val) s
     (fun o s' _ => o <> Aborted /\ dir s' = dir s /\ g s' = g s).
Proof.
  intros Hd. unfold writekey.
  apply wp_assert; [intros -> E; destruct Hd; [discriminate | contradiction]|].
  apply wp_get. apply wp_call; intros F; [repeat split; discriminate|].
  destruct (negb _); cbn [when]; repeat split; discriminate.
Qed.

Lemma writekeys_asserted (e : Z) (val : string) (n : nat) :
  forall i s, NDEBUG = true \/ dir s <> 0 ->
  wp (for_loop n i (fun j => writekey W NDEBUG j e val)) s
     (fun o s' _ => o <> Aborted /\ dir s' = dir s /\ g s' = g s).
Proof.
  induction n as [|n IH]; intros i s Hd; cbn [for_loop].
  - repeat split. discriminate.
  - eapply wp_bind_then; [apply writekey_asserted, Hd|].
    intros o s1 t1 (Ho & Hdir & Hg).
    destruct o as [[]|c| |]; try (repeat split; (discriminate || assumption)).
    eapply wp_mono; [apply IH; now rewrite Hdir|].
    intros o' s2 t2 (Ho' & Hdir' & Hg'). repeat split; congruence.
Qed.

Lemma wp_assert_cases {B} (k : unit -> M B) s
    (Q : outcome B -> state -> list event -> Prop) :
  (NDEBUG = false -> dir s = 0 -> Q Aborted s []) ->
  (NDEBUG = true \/ dir s <> 0 -> wp (k tt) s Q) ->
  wp (bind (assert_dir NDEBUG) k) s Q.
Proof.
  intros H1 H2. unfold wp, assert_dir, outcome_of, state_of, events_of in *.
  cbv [bind get]. destruct NDEBUG; simpl.
  - specialize (H2 (or_introl eq_refl)).
    destruct (k tt s) as [[o s2] t2]. exact H2.
  - destruct (Z.eqb_spec (dir s) 0) as [D|D]; simpl.
    + now apply H1.
    + specialize (H2 (or_intror D)).
      destruct (k tt s) as [[o s2] t2]. exact H2.
Qed.

(** [writepoch] fails its assertion at once when the handle is NULL in a
    build with assertions, and never otherwise. *)
Lemma writepoch_asserted (e : Z) s :
  0 <= valsz (g s) ->
  wp (writepoch W NDEBUG e) s
     (fun o s' t =>
        dir s' = dir s /\ g s' = g s /\
        (o = Aborted -> NDEBUG = false /\ dir s = 0 /\ t = []) /\
        (NDEBUG = false -> dir s = 0 -> o = Aborted)).
Proof.
  intros Hv. unfold writepoch.
  apply wp_assert_cases; [intros N D; repeat split; assumption|].
  intros Hd.
  assert (NDEBUG = false -> dir s = 0 -> False) as No
    by (intros N D; destruct Hd; congruence).
  apply wp_get.
  destruct (Z.ltb_spec (valsz (g s)) 0); [lia|]. apply wp_ret_bind.
  eapply wp_bind_then; [apply writekeys_asserted, Hd|].
  intros o s1 t1 (Ho & Hdir & Hg).
  assert (forall (o' : outcome unit) s2 (t' : list event), o' <> Aborted ->
          dir s2 = dir s -> g s2 = g s ->
          dir s2 = dir s /\ g s2 = g s /\
          (o' = Aborted -> NDEBUG = false /\ dir s = 0 /\ t' = []) /\
          (NDEBUG = false -> dir s = 0 -> o' = Aborted)) as Fine.
  { intros o' s2 t' Ho' D2 G2. repeat split; try assumption; try contradiction.
    intros N D. destruct (No N D). }
  destruct o as [[]|c| |];
    try (apply Fine; [discriminate | assumption | assumption]).
  2:{ now destruct Ho. }
  apply wp_call; intros F; [apply Fine; [discriminate | assumption..]|].
  eapply wp_when_exit;
    [apply complain_run | intros; apply Fine; [discriminate | assumption..] |].
  intros _.
  apply wp_call; intros F'; [apply Fine; [discriminate | assumption..]|].
  destruct (negb _); cbn [when]; apply Fine; (discriminate || assumption).
Qed.

(** The epoch loop stops at a failed assertion only in its first round,
    before any call. *)
Lemma epochs_asserted (n : nat) :
  forall i s, 0 <= valsz (g s) ->
  wp (for_loop n i (writepoch W NDEBUG)) s
     (fun o s' t =>
        dir s' = dir s /\ g s' = g s /\
        (o = Aborted -> NDEBUG = false /\ dir s = 0 /\ t = [] /\ n <> O)).
Proof.
  induction n as [|n IH]; intros i s Hv; cbn [for_loop].
  - repeat split; discriminate.
  - eapply wp_bind_then; [apply writepoch_asserted, Hv|].
    intros o s1 t1 (Hdir & Hg & Ha & Hb).
    destruct o as [[]|c| |].
    + eapply wp_mono; [apply IH; now rewrite Hg|].
      intros o' s2 t2 (Hdir' & Hg' & Ha').
      split; [congruence|]. split; [congruence|].
      intros E. destruct (Ha' E) as (N & D & _ & _).
      rewrite Hdir in D. specialize (Hb N D). discriminate Hb.
    + split; [assumption|]. split; [assumption|]. discriminate.
    + destruct (Ha eq_refl) as (N & D & T).
      split; [assumption|]. split; [assumption|]. intros _.
      split; [assumption|]. split; [assumption|]. split; [assumption|].
      discriminate.
    + split; [assumption|]. split; [assumption|]. discriminate.
Qed.

Lemma session_asserted (gv : gs) s :
  g s = gv -> 0 <= valsz gv ->
  wp (session W NDEBUG gv) s
     (fun o s' t =>
        g s' = gv /\
        (o = Aborted ->
         NDEBUG = false /\ dir s = 0 /\ t = [] /\ 0 < nepochs gv)).
Proof.
  intros Hg Hv. unfold session.
  eapply wp_bind_then; [apply epochs_asserted; now rewrite Hg|].
  intros o s1 t1 (Hdir & Hg1 & Ha).
  assert (forall (o' : outcome unit) s2 (t' : list event),
          o' <> Aborted -> g s2 = gv ->
          g s2 = gv /\
          (o' = Aborted ->
           NDEBUG = false /\ dir s = 0 /\ t' = [] /\ 0 < nepochs gv)) as Fine.
  { intros o' s2 t' Ho' G. split; [exact G | intros; contradiction]. }
  assert (g s1 = gv) as G1 by congruence.
  destruct o as [[]|c| |]; try (apply Fine; [discriminate | exact G1]).
  - apply wp_call; intros F; [apply Fine; [discriminate | exact G1]|].
    eapply wp_when_exit;
      [apply complain_run | intros; apply Fine; [discriminate | exact G1] |].
    intros _.
    apply wp_call; intros F'; [apply Fine; [discriminate | exact G1]|].
    apply wp_ret. apply Fine; [discriminate | exact G1].
  - split; [exact G1|]. intros _. destruct (Ha eq_refl) as (N & D & T & Hn).
    split; [assumption|]. split; [assumption|]. split; [assumption|].
    destruct (Z.to_nat (nepochs gv)) eqn:E; [now destruct Hn | lia].
Qed.

End Session.

(* ================================================================== *)
(** * Stopping at the first error *)
(* ================================================================== *)

Lemma split_events (ta tb t0 t1 : list event) (x : event) :
  ta ++ tb = t0 ++ x :: t1 ->
  (exists t1', ta = t0 ++ x :: t1' /\ t1 = t1' ++ tb) \/
  (exists t0', t0 = ta ++ t0' /\ tb = t0' ++ x :: t1).
Proof.
  revert t0. induction ta as [|a ta IH]; intros t0 E.
  - right. exists t0. now split.
  - destruct t0 as [|b t0].
    + injection E as <- <-. left. exists ta. now split.
    + injection E as <- E. destruct (IH t0 E) as [(t1' & -> & ->)|(t0' & -> & ->)].
      * left. exists t1'. now split.
      * right. exists t0'. now split.
Qed.

Lemma failfast_no_calls {A} (o : outcome A) s (t : list event) :
  calls_of t = [] -> failfast o s t.
Proof.
  intros H t0 c r t1 E _. rewrite E, calls_of_app, calls_of_call in H.
  destruct (calls_of t0); discriminate H.
Qed.

Ltac failed_complains :=
  let Hf := fresh "Hf" in
  cbn [failed]; intros Hf;
  first
    [ discriminate Hf
    | eexists; rewrite Hf; split; reflexivity
    | eexists; unfold bind at 1; rewrite Hf; split; reflexivity
    | eexists; unfold bind at 1; cbn [modify]; unfold bind at 1; rewrite Hf;
      split; reflexivity ].

Section FailFast.
Variable W : world.
Variable NDEBUG : bool.

Lemma failfast_bind {A B} (m : M A) (k : A -> M B) s :
  wp m s failfast -> (forall a s1, wp (k a) s1 failfast) ->
  wp (bind m k) s failfast.
Proof.
  intros H1 H2. eapply wp_bind_then; [exact H1|].
  intros o s1 t1 Q1. destruct o as [a|c| |].
  2:{ intros t0 c' r t2 E Hf. destruct (Q1 t0 c' r t2 E Hf) as [Ho Hm].
      split; [|exact Hm]. injection Ho as ->. reflexivity. }
  2,3: intros t0 c' r t2 E Hf; destruct (Q1 t0 c' r t2 E Hf) as [Ho _];
       discriminate Ho.
  eapply wp_mono; [apply H2|]. intros o' s2 t2 Q2 t0 c r t3 E Hf.
  destruct (split_events _ _ _ _ _ E) as [(t1' & E1 & _)|(t0' & _ & E2)].
  - destruct (Q1 _ _ _ _ E1 Hf) as [Ho _]. discriminate Ho.
  - apply (Q2 _ _ _ _ E2 Hf).
Qed.

Lemma failfast_call {B} (c : call) (k : response -> M B) s :
  (failed c (W (ncalls s)) = true ->
   exists msg,
     outcome_of (k (W (ncalls s)) (count_call s)) = Exited 1 /\
     events_of (k (W (ncalls s)) (count_call s))
     = complaint (argv0 (state_of (k (W (ncalls s)) (count_call s)))) msg) ->
  wp (k (W (ncalls s))) (count_call s) failfast ->
  wp (bind (do_call W c) k) s failfast.
Proof.
  intros H1 H2. apply wp_call; intros F.
  - apply failfast_no_calls. reflexivity.
  - unfold wp in *. intros t0 c' r t1 E Hf.
    destruct t0 as [|e t0].
    + injection E as <- <- <-. destruct (H1 Hf) as (msg & Ho & Ht).
      split; [exact Ho | now exists msg].
    + injection E as _ E. apply (H2 _ _ _ _ E Hf).
Qed.

Lemma for_loop_failfast (body : Z -> M unit) :
  (forall i s, wp (body i) s failfast) ->
  forall n i s, wp (for_loop n i body) s failfast.
Proof.
  intros Hb. induction n as [|n IH]; intros i s; cbn [for_loop].
  - apply failfast_no_calls. reflexivity.
  - apply failfast_bind; [apply Hb|]. intros _ s1. apply IH.
Qed.

Ltac ff_leaf := apply failfast_no_calls; reflexivity.

Ltac ff_step :=
  lazymatch goal with
  | |- wp (bind get _) _ _ => apply wp_get
  | |- wp (bind (modify _) _) _ _ => apply wp_modify
  | |- wp (bind (do_call _ _) _) _ _ => apply failfast_call; [failed_complains|]
  | |- wp (bind (when _ (complain _)) _) _ _ =>
      eapply wp_when_exit; [apply complain_run | intros _; ff_leaf | intros _]
  | |- wp (bind (assert_dir _) _) _ _ => apply wp_assert; [intros _ _; ff_leaf|]
  | |- wp (bind (bind _ _) _) _ _ => apply wp_assoc
  | |- wp (bind (ret _) _) _ _ => apply wp_ret_bind
  | |- wp (bind (if ?c then _ else _) _) _ _ => destruct c eqn:?
  | |- wp (bind abort _) _ _ => apply wp_abort_bind; ff_leaf
  | |- wp (if ?c then _ else _) _ _ => destruct c eqn:?
  | |- wp (when ?c _) _ _ => destruct c eqn:?; cbn [when]
  | |- wp (ret _) _ _ => ff_leaf
  | |- wp (complain _) _ _ => ff_leaf
  | |- wp (modify _) _ _ => ff_leaf
  | |- wp undefined _ _ => ff_leaf
  | |- wp (info _) _ _ => ff_leaf
  | |- wp (match ?x with Some _ => _ | None => _ end) _ _ => destruct x
  end.

Lemma writekey_failfast (k e : Z) (val : string) s :
  wp (writekey W NDEBUG k e val) s failfast.
Proof. unfold writekey. repeat ff_step. Qed.

Lemma writepoch_failfast (e : Z) s : wp (writepoch W NDEBUG e) s failfast.
Proof.
  unfold writepoch. repeat ff_step.
  apply failfast_bind; [apply for_loop_failfast; intros; apply writekey_failfast|].
  intros _ s1. repeat ff_step.
Qed.

Lemma mkbbos_failfast s : wp (mkbbos W) s failfast.
Proof. unfold mkbbos. repeat ff_step. Qed.

Lemma mkconf_failfast s : wp (mkconf W NDEBUG) s failfast.
Proof.
  unfold mkconf. apply wp_get.
  destruct (negb (bg (g s) =? 0) && (bgp s =? 0)) eqn:E.
  - apply wp_assoc, failfast_call.
    + cbn [failed]. intros Hf. apply andb_true_iff in E as [E _].
      eexists. cbv [bind modify get outcome_of events_of state_of].
      cbn [g bgp set_bgp count_call].
      rewrite E, Hf. split; reflexivity.
    + repeat ff_step.
  - repeat ff_step.
Qed.

Lemma write_failfast s : wp (write W NDEBUG) s failfast.
Proof.
  unfold write. apply wp_get.
  apply failfast_bind.
  { destruct (negb (bbos (g s) =? 0)); [apply mkbbos_failfast | ff_leaf]. }
  intros _ s1. apply failfast_bind; [apply mkconf_failfast|].
  intros _ s2. repeat ff_step.
  all: (apply failfast_bind;
         [apply for_loop_failfast; intros; apply writepoch_failfast|]);
    intros _ s3; repeat ff_step.
Qed.

End FailFast.

(* ================================================================== *)
(** * One diagnostic, at the end *)
(* ================================================================== *)

Section OneDiagnostic.
Variable W : world.
Variable NDEBUG : bool.

Lemma one_diagnostic_quiet {A} (o : outcome A) s (t : list event) :
  o <> Exited 1 -> quiet t -> one_diagnostic o s t.
Proof. intros H Q. left. now split. Qed.

Lemma one_diagnostic_last {A} s (d : list event) :
  diagnostic d -> @one_diagnostic A (Exited 1) s d.
Proof.
  intros D. right. split; [reflexivity|]. exists [], d.
  split; [reflexivity|]. split; [constructor | exact D].
Qed.

Lemma one_diagnostic_bind {A B} (m : M A) (k : A -> M B) s :
  wp m s one_diagnostic -> (forall a s1, wp (k a) s1 one_diagnostic) ->
  wp (bind m k) s one_diagnostic.
Proof.
  intros H1 H2. eapply wp_bind_then; [exact H1|].
  intros o s1 t1 Q1. destruct o as [a|c| |].
  - destruct Q1 as [[_ Q]|[E _]]; [|discriminate E].
    eapply wp_mono; [apply H2|]. intros o' s2 t2 [[Ho Q2]|(Ho & t0 & d & -> & Q0 & D)].
    + left. split; [exact Ho | now apply quiet_app].
    + right. split; [exact Ho|]. exists (t1 ++ t0), d.
      split; [now rewrite app_assoc|]. split; [now apply quiet_app | exact D].
  - destruct Q1 as [[Ho Q]|(Ho & X)].
    + left. split; [|exact Q]. intros E. apply Ho. injection E as ->. reflexivity.
    + right. split; [|exact X]. injection Ho as ->. reflexivity.
  - destruct Q1 as [[Ho Q]|(Ho & X)]; [|discriminate Ho].
    left. split; [discriminate | exact Q].
  - destruct Q1 as [[Ho Q]|(Ho & X)]; [|discriminate Ho].
    left. split; [discriminate | exact Q].
Qed.

Lemma call_one_diagnostic (c : call) s : wp (do_call W c) s one_diagnostic.
Proof.
  unfold wp, do_call, outcome_of, state_of, events_of.
  destruct (match deadline s with Some t => _ | None => _ end); cbn [fst snd].
  - apply one_diagnostic_last. right. right. now exists c.
  - apply one_diagnostic_quiet; [discriminate | repeat constructor].
Qed.

Lemma complain_one_diagnostic {A} (msg : string) s :
  wp (@complain A msg) s one_diagnostic.
Proof.
  apply wp_complain, one_diagnostic_last. left. now exists (argv0 s), msg.
Qed.

Lemma usage_one_diagnostic {A} (msg : option string) s :
  wp (@usage A msg) s one_diagnostic.
Proof.
  apply wp_usage, one_diagnostic_last. right. left. now exists (argv0 s), msg.
Qed.

Lemma ret_one_diagnostic {A} (a : A) s : wp (ret a) s one_diagnostic.
Proof. apply wp_ret, one_diagnostic_quiet; [discriminate | constructor]. Qed.

Lemma for_loop_one_diagnostic (body : Z -> M unit) :
  (forall i s, wp (body i) s one_diagnostic) ->
  forall n i s, wp (for_loop n i body) s one_diagnostic.
Proof.
  intros Hb. induction n as [|n IH]; intros i s; cbn [for_loop].
  - apply ret_one_diagnostic.
  - apply one_diagnostic_bind; [apply Hb|]. intros _ s1. apply IH.
Qed.

Lemma option_loop_one_diagnostic (opts : list (ascii * string)) s :
  wp (option_loop opts) s one_diagnostic.
Proof.
  unfold wp, outcome_of, state_of, events_of. rewrite option_loop_run.
  destruct (options_parse opts (g s)) as [gv [msg|]]; cbn [fst snd].
  - apply one_diagnostic_last. right. left. now exists (argv0 s), msg.
  - apply one_diagnostic_quiet; [discriminate | constructor].
Qed.

Ltac od_quiet := apply one_diagnostic_quiet; [discriminate | repeat constructor].

Ltac od_step :=
  lazymatch goal with
  | |- wp (assert_dir _) _ _ =>
      unfold assert_dir; apply wp_get;
      destruct NDEBUG; [od_quiet|];
      match goal with |- context [if ?c then _ else _] => destruct c end;
      od_quiet
  | |- wp (bind get _) _ _ => apply wp_get
  | |- wp (do_call _ _) _ _ => apply call_one_diagnostic
  | |- wp (complain _) _ _ => apply complain_one_diagnostic
  | |- wp (usage _) _ _ => apply usage_one_diagnostic
  | |- wp (info _) _ _ => od_quiet
  | |- wp printopts _ _ => od_quiet
  | |- wp (option_loop _) _ _ => apply option_loop_one_diagnostic
  | |- wp (ret _) _ _ => apply ret_one_diagnostic
  | |- wp abort _ _ => od_quiet
  | |- wp undefined _ _ => od_quiet
  | |- wp (exit 0) _ _ => od_quiet
  | |- wp (when ?c _) _ _ => destruct c; cbn [when]
  | |- wp (modify_g _) _ _ => od_quiet
  | |- wp (modify _) _ _ => od_quiet
  | |- wp (for_loop _ _ _) _ _ => apply for_loop_one_diagnostic; intros
  | |- wp (arm _ _) _ _ => unfold arm
  | |- wp (if ?c then _ else _) _ _ => destruct c
  | |- wp (match ?x with Some _ => _ | None => _ end) _ _ => destruct x
  | |- wp (bind _ _) _ _ => apply one_diagnostic_bind; [| intros ? ? ]
  end.

Lemma writekey_one_diagnostic (k e : Z) (val : string) s :
  wp (writekey W NDEBUG k e val) s one_diagnostic.
Proof. unfold writekey. repeat od_step. Qed.

Lemma writepoch_one_diagnostic (e : Z) s :
  wp (writepoch W NDEBUG e) s one_diagnostic.
Proof. unfold writepoch. repeat first [od_step | apply writekey_one_diagnostic]. Qed.

Lemma write_one_diagnostic s : wp (write W NDEBUG) s one_diagnostic.
Proof.
  unfold write, mkbbos, mkconf.
  repeat first [od_step | apply writepoch_one_diagnostic].
Qed.

Lemma main_one_diagnostic (name : string) (opts : list (ascii * string))
    (operands : list string) s :
  wp (main W NDEBUG name opts operands) s one_diagnostic.
Proof.
  unfold main. repeat first [od_step | apply write_one_diagnostic].
  destruct operands as [|d [|h [|p more]]];
    repeat first [od_step | apply write_one_diagnostic].
Qed.

End OneDiagnostic.

(* ================================================================== *)
(** * What the calls of a session carry *)
(* ================================================================== *)

Section SessionCalls.
Import Fmt FmtFacts.

Lemma in_zrange (n : nat) (lo i : Z) :
  In i (zrange n lo) <-> lo <= i < lo + Z.of_nat n.
Proof.
  revert lo. induction n as [|n IH]; intros lo; cbn [zrange In].
  - lia.
  - rewrite IH. lia.
Qed.

Lemma prefix_in {A} (l1 l2 : list A) (x : A) : prefix l1 l2 -> In x l1 -> In x l2.
Proof. intros [l3 ->] H. apply in_app_iff. now left. Qed.

Lemma prefix_nth_error {A} (l1 l2 : list A) (i : nat) (x : A) :
  prefix l1 l2 -> nth_error l1 i = Some x -> nth_error l2 i = Some x.
Proof.
  intros [l3 ->] H. rewrite nth_error_app1; [assumption|].
  apply nth_error_Some. congruence.
Qed.

(** Every append of a session writes the key of an index below [nkeys]
    and of the local rank, with the filler value, in an epoch below
    [nepochs]. *)
Lemma append_in_session (gv : gs) (k : string) (e : Z) (x : string) :
  In (deltafs_plfsdir_append k e x) (session_calls gv) ->
  (exists i, 0 <= i < nkeys gv /\ k = fname_of i (myrank gv)) /\
  x = filler gv /\ 0 <= e < nepochs gv.
Proof.
  unfold session_calls, epochs_calls. intros H.
  apply in_app_iff in H as [H|[H|[H|[]]]]; try discriminate.
  apply in_flat_map in H as (e' & He' & H).
  apply in_zrange in He'.
  unfold epoch_calls in H. apply in_app_iff in H as [H|[H|[H|[]]]]; try discriminate.
  unfold append_calls in H. apply in_map_iff in H as (i & Hi & Hin).
  apply in_zrange in Hin. injection Hi as <- <- <-.
  split; [exists i; split; [lia | reflexivity]|]. split; [reflexivity | lia].
Qed.

Lemma setup_not_append (pre : list call) (k : string) (e : Z) (x : string) :
  Forall (fun c => is_setup_call c = true) pre ->
  ~ In (deltafs_plfsdir_append k e x) pre.
Proof.
  intros H Hin. rewrite Forall_forall in H. specialize (H _ Hin). discriminate.
Qed.

(** The appends of any run of [write] are appends of the session. *)
Lemma write_appends (W : world) (NDEBUG : bool) s (k : string) (e : Z) (x : string) :
  In (deltafs_plfsdir_append k e x) (calls_of (events_of (write W NDEBUG s))) ->
  In (deltafs_plfsdir_append k e x) (session_calls (g s)).
Proof.
  intros H. destruct (write_session W NDEBUG s) as (pre & Hpre & _ & Hp & _).
  apply (prefix_in _ _ _ Hp) in H. apply in_app_iff in H as [H|H]; [|exact H].
  destruct (setup_not_append pre k e x Hpre H).
Qed.

Lemma filler_length (gv : gs) :
  0 <= valsz gv -> Z.of_nat (String.length (filler gv)) = valsz gv.
Proof. intros H. unfold filler. rewrite length_replicate. lia. Qed.

Lemma append_calls_length (gv : gs) (e : Z) :
  List.length (append_calls gv e) = Z.to_nat (nkeys gv).
Proof.
  unfold append_calls. rewrite length_map.
  generalize (Z.to_nat (nkeys gv)) 0. induction n; intros; simpl; congruence.
Qed.

End SessionCalls.

(* ================================================================== *)
(** * Time, and the place of the calls in a run *)
(* ================================================================== *)

Section Runs.

Lemma in_calls_of (c : call) (t : list event) :
  In c (calls_of t) -> exists r, In (Call c r) t.
Proof.
  unfold calls_of. intros H. apply in_flat_map in H as (e & He & H).
  destruct e as [c' r|c'|x|x]; [|destruct H..].
  destruct H as [<-|[]]. now exists r.
Qed.

Lemma elapsed_step (W : world) (n : nat) : elapsed W n <= elapsed W (S n).
Proof. cbn [elapsed]. lia. Qed.

Lemma elapsed_mono (W : world) (n m : nat) :
  (n <= m)%nat -> elapsed W n <= elapsed W m.
Proof.
  induction 1 as [|m _ IH]; [lia|].
  pose proof (elapsed_step W m). lia.
Qed.

Lemma single_rank_no_errors (seconds : N) : no_errors (single_rank seconds).
Proof. intros n. split; [reflexivity | discriminate]. Qed.

Lemma single_rank_elapsed (seconds : N) (n : nat) :
  elapsed (single_rank seconds) n = Z.of_nat n * Z.of_N seconds.
Proof.
  induction n as [|n IH]; [reflexivity|].
  cbn [elapsed]. rewrite IH. cbn [dur single_rank]. lia.
Qed.

Lemma single_rank_in_time (seconds : Z) : 0 < seconds -> in_time (single_rank 0) seconds.
Proof. intros H. right. intros n. rewrite !single_rank_elapsed. lia. Qed.

(** The only alarm of a whole run is its fifth call. *)
Lemma alarm_in_main_calls (gv : gs) (pre : list call) (i : nat) (x : Z) :
  Forall (fun c => is_setup_call c = true) pre ->
  nth_error (main_calls gv pre) i = Some (alarm x) ->
  i = 4%nat /\ x = Fmt.to_unsigned (timeout gv).
Proof.
  intros Hpre H. unfold main_calls, startup_calls in H. cbn [app] in H.
  do 6 (destruct i as [|i]; [cbn in H; try discriminate H;
                             injection H as <-; now split|]).
  exfalso. cbn [nth_error] in H. apply nth_error_In in H.
  apply in_app_iff in H as [H|H].
  - rewrite Forall_forall in Hpre. specialize (Hpre _ H). discriminate.
  - unfold session_calls, epochs_calls in H.
    repeat (apply in_app_iff in H as [H|H]).
    + apply in_flat_map in H as (e & _ & H). unfold epoch_calls, append_calls in H.
      apply in_app_iff in H as [H|[H|[H|[]]]]; try discriminate.
      apply in_map_iff in H as (j & Hj & _). discriminate.
    + destruct H as [H|[H|[]]]; discriminate.
    + destruct H as [H|[]]; discriminate.
Qed.

(** The calls on the plfsdir handle come after the six calls of the
    startup. *)
Lemma session_call_in_main_calls (gv : gs) (pre : list call) (i : nat) (c : call) :
  nth_error (main_calls gv pre) i = Some c -> is_session_call c = true ->
  (6 <= i)%nat.
Proof.
  intros H Hc. unfold main_calls, startup_calls in H. cbn [app] in H.
  do 6 (destruct i as [|i]; [cbn in H; injection H as <-; discriminate Hc|]).
  lia.
Qed.

Lemma scenario_parameters (d : string) :
  parameters (Fmt.to_int 0) (Fmt.to_int 1) scenario_opts [d]
  = scenario_g d.
Proof. vm_compute. reflexivity. Qed.

Lemma scenario_accepted (d : string) : accepted scenario_opts [d].
Proof.
  split; [|split].
  - intros rank size. reflexivity.
  - discriminate.
  - intros rank size. reflexivity.
Qed.

Lemma scenario_main_calls (d : string) :
  main_calls (scenario_g d) (setup_calls (scenario_g d)) = scenario_calls d.
Proof. vm_compute. reflexivity. Qed.

End Runs.

(* ================================================================== *)
(** * The claims *)
(* ================================================================== *)

(** ** C1 *)

(** C1 -- per-epoch write protocol ordering.  In every world and from
    every state, the calls [write] makes are some setup calls followed by
    the first calls of [session_calls]: for each epoch [e] from 0 to
    [nepochs - 1] the [nkeys] appends tagged [e], one barrier, the flush
    of [e], and after the last epoch finish and the release of the
    handle.  They are all of these calls when [write] returns, which it
    does in a world without errors.  Hence an append of epoch [e] comes
    before the flush of every epoch [e' >= e], and the flush of [e']
    before every append of a later epoch. *)
Theorem epoch_write_protocol (W : world) (NDEBUG : bool) (s : state) :
  (exists pre,
     Forall (fun c => is_setup_call c = true) pre /\
     prefix (calls_of (events_of (write W NDEBUG s))) (pre ++ session_calls (g s)) /\
     (outcome_of (write W NDEBUG s) = Returned tt ->
      calls_of (events_of (write W NDEBUG s)) = pre ++ session_calls (g s))) /\
  (forall e, epoch_calls (g s) e
             = append_calls (g s) e ++ [MPI_Barrier; deltafs_plfsdir_epoch_flush e] /\
             List.length (append_calls (g s) e) = Z.to_nat (nkeys (g s))) /\
  (forall i j k e x e',
     nth_error (calls_of (events_of (write W NDEBUG s))) i
       = Some (deltafs_plfsdir_append k e x) ->
     nth_error (calls_of (events_of (write W NDEBUG s))) j
       = Some (deltafs_plfsdir_epoch_flush e') ->
     (e <= e' -> (i < j)%nat) /\ (e' < e -> (j < i)%nat)) /\
  (no_errors W -> fresh W s ->
   outcome_of (write W NDEBUG s) = Returned tt /\
   calls_of (events_of (write W NDEBUG s))
     = setup_calls (g s) ++ session_calls (g s)).
Proof.
  destruct (write_session W NDEBUG s) as (pre & Hpre & _ & Hp & Hr).
  split; [exists pre; auto|]. split; [|split].
  - intros e. split; [reflexivity | apply append_calls_length].
  - apply ordered_appends_flush.
    apply (ordered_prefix _ _ Hp). now apply session_ordered.
  - intros Wok Hs. destruct (write_calm W NDEBUG Wok s Hs) as (Ho & Hc & _).
    split; assumption.
Qed.

(** ** C2 *)

(** What [mkconf] leaves in [cf] when it returns. *)
Lemma mkconf_returns_descriptor (W : world) (NDEBUG : bool) (s : state) :
  gs_ints (g s) ->
  wp (mkconf W NDEBUG) s
     (fun o s' t => o <> Undefined /\ (o = Returned tt -> cf s' = descriptor (g s))).
Proof.
  intros Hi. eapply wp_mono.
  - apply wp_and; [apply mkconf_tidy|].
    unfold mkconf. apply wp_get.
    instantiate (1 := fun o s' t => o = Returned tt -> cf s' = descriptor (g s)).
    eapply wp_bind_then.
    { instantiate (1 := fun o s' t => g s' = g s).
      destruct (_ && _); [|reflexivity].
      apply wp_call; intros F; reflexivity. }
    intros o s1 t1 Hg. destruct o as [[]| | |]; try discriminate.
    apply wp_get. rewrite Hg.
    eapply wp_when_exit; [apply complain_run | discriminate |]. intros _.
    rewrite (mkconf_cf_descriptor _ Hi).
    apply wp_modify. destruct NDEBUG; intros _; reflexivity.
  - intros o s' t [(_ & _ & _ & Hu & _) Hc]. split; [now apply Hu | exact Hc].
Qed.

(** C2 -- no overflow of the descriptor buffer.  For every parameter set
    (every field an [int]) the rendered descriptor has at most 267
    characters, so with its terminator it fits the 500 bytes of [cf]: the
    ConfigOverflow case of the specification's build never arises, the
    snprintf calls of [mkconf] store no byte outside [cf] and leave the
    whole descriptor in it, never a truncated one; [mkconf] agrees with the
    specification's build on every parameter set. *)
Theorem mkconf_never_truncates (gv : gs) (Hints : gs_ints gv) :
  spec_build gv = Descriptor (descriptor gv) /\
  mkconf_cf gv = Some (descriptor gv) /\
  Z.of_nat (String.length (descriptor gv)) < cf_size /\
  (forall W NDEBUG s, g s = gv ->
     outcome_of (mkconf W NDEBUG s) <> Undefined /\
     (outcome_of (mkconf W NDEBUG s) = Returned tt ->
      cf (state_of (mkconf W NDEBUG s)) = descriptor gv)).
Proof.
  pose proof (descriptor_length gv Hints) as L.
  assert (Z.of_nat (String.length (descriptor gv)) < cf_size) as B
    by (unfold cf_size; lia).
  split; [|split; [|split; [exact B|]]].
  - unfold spec_build. destruct (Z.leb_spec cf_size (Z.of_nat (String.length (descriptor gv))));
      [lia | reflexivity].
  - now apply mkconf_cf_descriptor.
  - intros W NDEBUG s <-. apply (mkconf_returns_descriptor W NDEBUG s Hints).
Qed.

Lemma mkconf_never_truncates_witness :
  gs_ints widest_g /\
  spec_build widest_g = Descriptor (descriptor widest_g) /\
  mkconf_cf widest_g = Some (descriptor widest_g) /\
  Z.of_nat (String.length (descriptor widest_g)) < cf_size /\
  (forall W NDEBUG s, g s = widest_g ->
     outcome_of (mkconf W NDEBUG s) <> Undefined /\
     (outcome_of (mkconf W NDEBUG s) = Returned tt ->
      cf (state_of (mkconf W NDEBUG s)) = descriptor widest_g)).
Proof.
  assert (gs_ints widest_g) as H
    by (unfold gs_ints, Fmt.int_range, widest_g; cbn; lia).
  split; [exact H | apply (mkconf_never_truncates widest_g H)].
Defined.

(** ** C3 *)

(** C3 -- the fields of the descriptor.  For every parameter set the
    snprintf calls of [mkconf] produce the key=value&key=value rendering
    of [conf_fields]: rank first, then tail_padding=1, block_padding=1,
    data_buffer, min_data_buffer, index_buffer and min_index_buffer with
    the io size, key_size, value_size, bf_bits_per_key,
    epoch_log_rotation and lg_parts=0; the decimal text of a field reads
    back as the configured value; and this is what [write] hands to
    deltafs_plfsdir_create_handle when nothing goes wrong. *)
Theorem mkconf_fields (gv : gs) (Hints : gs_ints gv) :
  mkconf_cf gv = Some (render_fields (conf_fields gv)) /\
  map fst (conf_fields gv)
    = ["rank"; "tail_padding"; "block_padding"; "data_buffer"; "min_data_buffer";
       "index_buffer"; "min_index_buffer"; "key_size"; "value_size";
       "bf_bits_per_key"; "epoch_log_rotation"; "lg_parts"]%string /\
  map snd (conf_fields gv)
    = [Fmt.itoa (myrank gv); "1"; "1"; Fmt.itoa (iosz gv); Fmt.itoa (iosz gv);
       Fmt.itoa (iosz gv); Fmt.itoa (iosz gv); Fmt.itoa (keysz gv);
       Fmt.itoa (valsz gv); Fmt.itoa (filterbits gv);
       Fmt.itoa (logrotation gv); "0"]%string /\
  ((forall z, 0 <= z -> Fmt.read_digits 10 (Fmt.itoa z) = z) /\
   (forall z, z < 0 -> Fmt.itoa z = String "-" (Fmt.itoa (- z)))) /\
  (forall W NDEBUG s, g s = gv -> no_errors W -> fresh W s ->
     In (deltafs_plfsdir_create_handle (render_fields (conf_fields gv)))
        (calls_of (events_of (write W NDEBUG s)))).
Proof.
  split; [now apply mkconf_cf_descriptor|]. split; [reflexivity|].
  split; [reflexivity|]. split.
  - split; [apply FmtFacts.read_itoa | apply FmtFacts.itoa_negative].
  - intros W NDEBUG s <- Wok Hs.
    destruct (write_calm W NDEBUG Wok s Hs) as (_ & Hc & _).
    rewrite Hc. apply in_app_iff. left. unfold setup_calls.
    apply in_app_iff. right. apply in_app_iff. right. now left.
Qed.

Lemma mkconf_fields_witness :
  let gv := scenario_g "plfsdir" in
  gs_ints gv /\
  mkconf_cf gv = Some (render_fields (conf_fields gv)) /\
  map fst (conf_fields gv)
    = ["rank"; "tail_padding"; "block_padding"; "data_buffer"; "min_data_buffer";
       "index_buffer"; "min_index_buffer"; "key_size"; "value_size";
       "bf_bits_per_key"; "epoch_log_rotation"; "lg_parts"]%string /\
  map snd (conf_fields gv)
    = [Fmt.itoa (myrank gv); "1"; "1"; Fmt.itoa (iosz gv); Fmt.itoa (iosz gv);
       Fmt.itoa (iosz gv); Fmt.itoa (iosz gv); Fmt.itoa (keysz gv);
       Fmt.itoa (valsz gv); Fmt.itoa (filterbits gv);
       Fmt.itoa (logrotation gv); "0"]%string /\
  ((forall z, 0 <= z -> Fmt.read_digits 10 (Fmt.itoa z) = z) /\
   (forall z, z < 0 -> Fmt.itoa z = String "-" (Fmt.itoa (- z)))) /\
  (forall W NDEBUG s, g s = gv -> no_errors W -> fresh W s ->
     In (deltafs_plfsdir_create_handle (render_fields (conf_fields gv)))
        (calls_of (events_of (write W NDEBUG s)))).
Proof.
  assert (gs_ints (scenario_g "plfsdir")) as H
    by (unfold gs_ints, Fmt.int_range, scenario_g; cbn; lia).
  split; [exact H | apply (mkconf_fields (scenario_g "plfsdir") H)].
Defined.

(** ** C5 *)

(** C5 -- scenario A.  With the options -e 2 -n 4 -k 8 -d 4 and a
    directory, on a single rank (rank 0 of 1), when no call reports an
    error and the default watchdog of 300 seconds does not go off, the
    process exits with 0 after exactly the calls of [scenario_calls]: the
    startup, the opening of the session, four appends, a barrier and the
    flush of epoch 0, four appends, a barrier and the flush of epoch 1,
    then one finish, which returns success, the release of the handle and
    MPI_Finalize. *)
Theorem scenario_two_epochs (W : world) (NDEBUG : bool) (name d : string)
    (Wok : no_errors W)
    (Hrank : out (W 1%nat) = 0) (Hsize : out (W 2%nat) = 1)
    (Htime : in_time W 300) :
  let run := main W NDEBUG name scenario_opts [d] initial in
  outcome_of run = Exited 0 /\
  (nepochs (g (state_of run)) = 2 /\ nkeys (g (state_of run)) = 4 /\
   keysz (g (state_of run)) = 8 /\ valsz (g (state_of run)) = 4 /\
   myrank (g (state_of run)) = 0 /\ commsz (g (state_of run)) = 1) /\
  calls_of (events_of run) = scenario_calls d /\
  filter is_record_call (calls_of (events_of run))
    = scenario_appends 0 ++ [deltafs_plfsdir_epoch_flush 0] ++
      scenario_appends 1 ++ [deltafs_plfsdir_epoch_flush 1] /\
  quiet (events_of run) /\
  (exists r, In (Call deltafs_plfsdir_finish r) (events_of run)) /\
  (forall r, In (Call deltafs_plfsdir_finish r) (events_of run) -> status r = 0).
Proof.
  intros run.
  pose proof (main_calm W NDEBUG Wok name scenario_opts [d]) as H.
  cbv zeta in H. rewrite Hrank, Hsize, scenario_parameters in H.
  destruct (H (scenario_accepted d) ltac:(unfold scenario_g; cbn [valsz]; lia) Htime)
    as (Ho & Hg & Hc & Hq).
  fold run in Ho, Hg, Hc, Hq. rewrite scenario_main_calls in Hc.
  split; [exact Ho|]. split; [rewrite Hg; repeat split|].
  split; [exact Hc|]. split; [rewrite Hc; reflexivity|].
  split; [exact Hq|]. split.
  - apply in_calls_of. rewrite Hc. unfold scenario_calls.
    repeat (apply in_app_iff; right). now left.
  - intros r Hr.
    destruct (main_is_sound W NDEBUG name scenario_opts [d] initial)
      as (_ & _ & _ & _ & Ha).
    fold run in Ha. unfold answers_from in Ha. rewrite Forall_forall in Ha.
    destruct (Ha _ Hr) as [n ->]. apply Wok.
Qed.

Lemma scenario_two_epochs_witness :
  let run := main (single_rank 0) false "runner" scenario_opts ["plfsdir"] initial in
  outcome_of run = Exited 0 /\
  (nepochs (g (state_of run)) = 2 /\ nkeys (g (state_of run)) = 4 /\
   keysz (g (state_of run)) = 8 /\ valsz (g (state_of run)) = 4 /\
   myrank (g (state_of run)) = 0 /\ commsz (g (state_of run)) = 1) /\
  calls_of (events_of run) = scenario_calls "plfsdir" /\
  filter is_record_call (calls_of (events_of run))
    = scenario_appends 0 ++ [deltafs_plfsdir_epoch_flush 0] ++
      scenario_appends 1 ++ [deltafs_plfsdir_epoch_flush 1] /\
  quiet (events_of run) /\
  (exists r, In (Call deltafs_plfsdir_finish r) (events_of run)) /\
  (forall r, In (Call deltafs_plfsdir_finish r) (events_of run) -> status r = 0).
Proof.
  apply (scenario_two_epochs (single_rank 0) false "runner" "plfsdir").
  - apply single_rank_no_errors.
  - reflexivity.
  - reflexivity.
  - apply single_rank_in_time. lia.
Defined.
(** ** C7 *)

(** A run with -t 0: every call takes 100 seconds, the one epoch alone 300,
    the configured timeout is 0 seconds, and the run still goes through
    finish and MPI_Finalize to exit(0): alarm(0) arms no deadline. *)
Lemma watchdog_zero_never_fires :
  let W := single_rank 100 in
  let run := main W false "runner"
               [("t"%char, "0"); ("e"%char, "1"); ("n"%char, "1")]%string
               ["plfsdir"]%string initial in
  timeout (g (state_of run)) = 0 /\
  nth_error (calls_of (events_of run)) 4 = Some (alarm 0) /\
  nth_error (calls_of (events_of run)) 12 = Some deltafs_plfsdir_finish /\
  elapsed W 12 - elapsed W 9 = 300 /\
  elapsed W 13 = 1300 /\
  outcome_of run = Exited 0 /\
  no_pending (events_of run).
Proof.
  vm_compute. repeat split; repeat constructor.
Qed.

(** C7, amended -- the watchdog.  [main] calls alarm once, as its fifth
    call (after MPI_Init, MPI_Comm_rank, MPI_Comm_size and the parsing of
    the command line, before the session is opened), with the configured
    timeout.  When that timeout is 0 no deadline is armed and no call is
    ever interrupted.  When it is positive the deadline is that many
    seconds after the return of alarm: every call that returns afterwards,
    finish among them, returns before the deadline, and the process exits
    with 0 only if its last call did so; a call is interrupted only when
    the deadline falls no later than its return, and the process then
    prints the SIGALRM diagnostic as its last output and exits with 1.
    (alarm takes an unsigned: the conversion leaves the timeouts that
    [main] accepts, which are not negative, as they are.) *)
Theorem watchdog_bound (W : world) (NDEBUG : bool) (name : string)
    (opts : list (ascii * string)) (operands : list string) :
  let run := main W NDEBUG name opts operands initial in
  let o := outcome_of run in
  let t := events_of run in
  let n := List.length (calls_of t) in
  let seconds := Fmt.to_unsigned (timeout (g (state_of run))) in
  let limit := elapsed W 5 + seconds in
  (forall i x, nth_error (calls_of t) i = Some (alarm x) ->
     i = 4%nat /\ x = seconds) /\
  (seconds = 0 -> no_pending t) /\
  (0 < seconds -> forall i, (5 <= n)%nat -> (i < n)%nat -> elapsed W (S i) < limit) /\
  (0 < seconds -> forall i,
     nth_error (calls_of t) i = Some deltafs_plfsdir_finish ->
     elapsed W (S i) < limit) /\
  (0 < seconds -> o = Exited 0 -> elapsed W n < limit) /\
  (forall c, In (Pending c) t ->
     0 < seconds /\ (5 <= n)%nat /\ limit <= elapsed W (S n) /\
     o = Exited 1 /\ exists t0, t = t0 ++ Pending c :: sigalarm_diag) /\
  (forall z, 0 <= z -> Fmt.int_range z -> Fmt.to_unsigned z = z).
Proof.
  intros run o t n seconds limit.
  destruct (main_is_sound W NDEBUG name opts operands initial)
    as (Ht & Hn & Hx & Hlast & _).
  destruct (main_has_shape W NDEBUG name opts operands)
    as ((pre & Hpre & Hp & Hall) & Hd & Hnp & _).
  pose proof (main_is_watched W NDEBUG name opts operands initial) as Hw.
  unfold wp in Hw. cbv zeta in Hd.
  fold run in Ht, Hn, Hx, Hlast, Hp, Hall, Hd, Hnp, Hw.
  fold o in Hx, Hall, Hw. fold t in Hn, Hx, Hlast, Hp, Hall, Hnp, Hw.
  fold seconds in Hd. cbn [ncalls initial Nat.add] in Hn. fold n in Hn.
  rewrite Hn in Hd. specialize (Ht I). unfold on_time in Ht. rewrite Hn in Ht.
  pose proof (FmtFacts.to_unsigned_range (timeout (g (state_of run)))) as Hs.
  fold seconds in Hs.
  assert (0 < seconds -> (5 <= n)%nat -> elapsed W n < limit) as Before.
  { intros Hpos H5. rewrite Hd in Ht.
    replace (n <? 5)%nat with false in Ht by (symmetry; apply Nat.ltb_ge; lia).
    replace (seconds =? 0) with false in Ht by (symmetry; apply Z.eqb_neq; lia).
    exact Ht. }
  split; [|split; [|split; [|split; [|split; [|split]]]]].
  7: apply to_unsigned_nonneg.
  - intros i x Hi. apply (prefix_nth_error _ _ _ _ Hp) in Hi.
    apply (alarm_in_main_calls _ _ _ _ Hpre Hi).
  - intros Hz. apply Hnp. rewrite Hd, Hz. now rewrite orb_true_r.
  - intros Hpos i H5 Hi. specialize (Before Hpos H5).
    pose proof (elapsed_mono W (S i) n ltac:(lia)). lia.
  - intros Hpos i Hi.
    assert (i < n)%nat as Hlt by (apply nth_error_Some; unfold n; congruence).
    apply (prefix_nth_error _ _ _ _ Hp) in Hi.
    apply session_call_in_main_calls in Hi; [|reflexivity].
    specialize (Before Hpos ltac:(lia)).
    pose proof (elapsed_mono W (S i) n ltac:(lia)). lia.
  - intros Hpos E. apply Before; [exact Hpos|].
    unfold n. rewrite (Hall E). unfold main_calls, startup_calls.
    cbn [app List.length]. lia.
  - intros c Hc.
    assert (~ no_pending t) as NP.
    { intros Q. unfold no_pending in Q. rewrite Forall_forall in Q.
      specialize (Q _ Hc). discriminate. }
    assert (~ quiet t) as NQ.
    { intros Q. apply NP. now apply quiet_is_no_pending. }
    assert (o = Exited 1) as E.
    { destruct o as [[]|c0| |]; cbn [main_exits] in Hx;
        [ destruct Hx
        | destruct Hx as [[_ Q]|[-> _]]; [now destruct NQ | reflexivity]
        | now destruct NQ
        | now destruct NQ ]. }
    rewrite E in Hw. cbn [watched] in Hw.
    destruct Hw as [Q|F]; [now destruct NP|].
    unfold fires in F. rewrite Hn, Hd in F.
    destruct ((n <? 5)%nat || (seconds =? 0)) eqn:D; [discriminate F|].
    apply orb_false_iff in D as [D1 D2].
    apply Nat.ltb_ge in D1. apply Z.eqb_neq in D2. apply Z.leb_le in F.
    split; [lia|]. split; [exact D1|]. split; [exact F|]. split; [exact E|].
    apply (Hlast c Hc).
Qed.

(** A run in which the watchdog goes off: every call takes 100 seconds,
    the timeout is 250 seconds, and the eighth call is interrupted. *)
Lemma watchdog_fires_example :
  let W := single_rank 100 in
  let run := main W false "runner" [("t"%char, "250")]%string ["plfsdir"]%string initial in
  outcome_of run = Exited 1 /\
  List.length (calls_of (events_of run)) = 7%nat /\
  In (Pending deltafs_plfsdir_set_err_printer) (events_of run) /\
  ~ In deltafs_plfsdir_finish (calls_of (events_of run)).
Proof.
  vm_compute. repeat split; [do 30 (try (now left); right); now left|].
  intros H. repeat (destruct H as [H|H]; [discriminate H|]). exact H.
Qed.
(** ** C8 *)

Lemma flush_in_session (gv : gs) (e : Z) :
  0 <= e < nepochs gv -> In (deltafs_plfsdir_epoch_flush e) (session_calls gv).
Proof.
  intros H. unfold session_calls, epochs_calls. apply in_app_iff. left.
  apply in_flat_map. exists e. split.
  - apply in_zrange. lia.
  - unfold epoch_calls. apply in_app_iff. right. right. now left.
Qed.

(** C8 -- values of size zero.  When the value size is 0 the filler is the
    empty string and every append [write] makes, in any world, carries
    it; in general the value of every append has exactly the configured
    size.  When no call reports an error (and no deadline is in the way)
    [write] returns without a diagnostic, having made all its appends and
    the flush of every epoch.  The option -d 0 passes the checks of
    [main], and the appends of a run of [main] that ends with value size
    0 carry the empty string. *)
Theorem zero_size_values (W : world) (NDEBUG : bool) (s : state)
    (Hzero : valsz (g s) = 0) :
  let run := write W NDEBUG s in
  filler (g s) = ""%string /\
  (forall k e x, In (deltafs_plfsdir_append k e x) (calls_of (events_of run)) ->
     x = ""%string) /\
  (forall s0 k e x, 0 <= valsz (g s0) ->
     In (deltafs_plfsdir_append k e x) (calls_of (events_of (write W NDEBUG s0))) ->
     Z.of_nat (String.length x) = valsz (g s0)) /\
  (no_errors W -> fresh W s ->
   outcome_of run = Returned tt /\ quiet (events_of run) /\
   calls_of (events_of run) = setup_calls (g s) ++ session_calls (g s) /\
   (forall e, 0 <= e < nepochs (g s) ->
      In (deltafs_plfsdir_epoch_flush e) (calls_of (events_of run)) /\
      forall i, 0 <= i < nkeys (g s) ->
        In (deltafs_plfsdir_append (fname_of i (myrank (g s))) e ""%string)
           (calls_of (events_of run)))) /\
  bad_value ("d"%char, "0"%string) = false /\
  (forall name opts operands k e x,
     let r := main W NDEBUG name opts operands initial in
     valsz (g (state_of r)) = 0 ->
     In (deltafs_plfsdir_append k e x) (calls_of (events_of r)) -> x = ""%string).
Proof.
  intros run.
  assert (filler (g s) = ""%string) as F by (unfold filler; now rewrite Hzero).
  split; [exact F|]. split; [|split; [|split; [|split]]].
  - intros k e x H. apply write_appends, append_in_session in H as (_ & -> & _).
    exact F.
  - intros s0 k e x Hv H.
    apply write_appends, append_in_session in H as (_ & -> & _).
    now apply filler_length.
  - intros Wok Hs. destruct (write_calm W NDEBUG Wok s Hs) as (Ho & Hc & _ & _ & _ & Hq).
    fold run in Ho, Hc, Hq.
    split; [exact Ho|]. split; [exact Hq|]. split; [exact Hc|].
    intros e He. rewrite Hc. split.
    + apply in_app_iff. right. now apply flush_in_session.
    + intros i Hi. apply in_app_iff. right.
      unfold session_calls, epochs_calls. apply in_app_iff. left.
      apply in_flat_map. exists e. split; [apply in_zrange; lia|].
      unfold epoch_calls. apply in_app_iff. left.
      unfold append_calls. apply in_map_iff. exists i.
      split; [now rewrite F | apply in_zrange; lia].
  - reflexivity.
  - intros name opts operands k e x r Hv H.
    destruct (main_has_shape W NDEBUG name opts operands)
      as ((pre & Hpre & Hp & _) & _).
    fold r in Hp. apply (prefix_in _ _ _ Hp) in H.
    unfold main_calls, startup_calls in H. cbn [app] in H.
    repeat (destruct H as [H|H]; [discriminate H|]).
    apply in_app_iff in H as [H|H]; [destruct (setup_not_append _ _ _ _ Hpre H)|].
    apply in_app_iff in H as [H|[H|[]]]; [|discriminate H].
    apply append_in_session in H as (_ & -> & _).
    unfold filler. now rewrite Hv.
Qed.

Lemma zero_size_values_witness :
  let W := single_rank 0 in
  let s := set_g (set_valsz 0 (scenario_g "plfsdir")) initial in
  let run := write W false s in
  valsz (g s) = 0 /\
  filler (g s) = ""%string /\
  (forall k e x, In (deltafs_plfsdir_append k e x) (calls_of (events_of run)) ->
     x = ""%string) /\
  (forall s0 k e x, 0 <= valsz (g s0) ->
     In (deltafs_plfsdir_append k e x) (calls_of (events_of (write W false s0))) ->
     Z.of_nat (String.length x) = valsz (g s0)) /\
  (no_errors W -> fresh W s ->
   outcome_of run = Returned tt /\ quiet (events_of run) /\
   calls_of (events_of run) = setup_calls (g s) ++ session_calls (g s) /\
   (forall e, 0 <= e < nepochs (g s) ->
      In (deltafs_plfsdir_epoch_flush e) (calls_of (events_of run)) /\
      forall i, 0 <= i < nkeys (g s) ->
        In (deltafs_plfsdir_append (fname_of i (myrank (g s))) e ""%string)
           (calls_of (events_of run)))) /\
  bad_value ("d"%char, "0"%string) = false /\
  (forall name opts operands k e x,
     let r := main W false name opts operands initial in
     valsz (g (state_of r)) = 0 ->
     In (deltafs_plfsdir_append k e x) (calls_of (events_of r)) -> x = ""%string).
Proof.
  split; [reflexivity|].
  apply (zero_size_values (single_rank 0) false
           (set_g (set_valsz 0 (scenario_g "plfsdir")) initial)).
  reflexivity.
Defined.

(** ** C9 *)

Lemma setup_calls_no_records (gv : gs) : filter is_record_call (setup_calls gv) = [].
Proof.
  unfold setup_calls. destruct (bbos gv =? 0), (bg gv =? 0); reflexivity.
Qed.

(** C9 -- the key size does not reach the keys.  In any world every key
    [write] appends is the 19 characters "f", the index in 8 hexadecimal
    digits, "-r", the rank in 8 hexadecimal digits.  The calls of the
    session are the same for every key size, and -k stores the key size
    only: of the fields of the descriptor it changes key_size and nothing
    else.  When no call reports an error, the run with another key size
    appends and flushes exactly the same records. *)
Theorem keys_ignore_key_size (W : world) (NDEBUG : bool) (s : state) (ks : Z) :
  (forall k e x,
     In (deltafs_plfsdir_append k e x) (calls_of (events_of (write W NDEBUG s))) ->
     String.length k = 19%nat /\
     exists i, 0 <= i < nkeys (g s) /\
       k = ("f" ++ Fmt.hex08 i ++ "-r" ++ Fmt.hex08 (myrank (g s)))%string) /\
  session_calls (set_keysz ks (g s)) = session_calls (g s) /\
  (forall optarg gv, option_apply "k" optarg gv = set_keysz (Fmt.atoi optarg) gv) /\
  (firstn 7 (conf_fields (set_keysz ks (g s))) = firstn 7 (conf_fields (g s)) /\
   nth_error (conf_fields (set_keysz ks (g s))) 7
     = Some ("key_size"%string, Fmt.itoa ks) /\
   skipn 8 (conf_fields (set_keysz ks (g s))) = skipn 8 (conf_fields (g s))) /\
  (no_errors W -> fresh W s -> Fmt.int_range ks ->
   calls_of (events_of (write W NDEBUG (set_g (set_keysz ks (g s)) s)))
     = setup_calls (set_keysz ks (g s)) ++ session_calls (g s) /\
   filter is_record_call
     (calls_of (events_of (write W NDEBUG (set_g (set_keysz ks (g s)) s))))
   = filter is_record_call (calls_of (events_of (write W NDEBUG s)))).
Proof.
  split; [|split; [|split; [|split]]].
  - intros k e x H.
    apply write_appends, append_in_session in H as ((i & Hi & ->) & _).
    split; [apply fname_of_length|]. exists i. split; [exact Hi | apply fname_of_eq].
  - reflexivity.
  - reflexivity.
  - repeat split.
  - intros Wok Hs Hks.
    assert (fresh W (set_g (set_keysz ks (g s)) s)) as Hs'.
    { destruct Hs as (H1 & H2 & H3 & H4 & H5).
      split; [exact H1|]. split; [exact H2|]. split; [exact H3|].
      split; [|exact H5].
      unfold gs_ints in *. cbn [g set_g set_keysz bg bbos bbosport myrank commsz
        nepochs nkeys filterbits keysz valsz iosz logrotation timeout v].
      tauto. }
    destruct (write_calm W NDEBUG Wok _ Hs') as (_ & Hc' & _).
    destruct (write_calm W NDEBUG Wok _ Hs) as (_ & Hc & _).
    rewrite Hc', Hc. cbn [g set_g]. split; [reflexivity|].
    rewrite !filter_app, !setup_calls_no_records. reflexivity.
Qed.

(** ** C10 *)

(** C10 -- the port is checked whether or not it is used.  Whenever a third
    operand is given and atoi reads it as a value <= 0, [main] ends in
    the usage message and exit(1) before any call on a plfsdir handle,
    for every list of options; when the options themselves are accepted
    the message is "bad bbos port"; and this is so when no -b was given,
    the remote backend being disabled ([bbos] is 0) as the process
    exits. *)
Theorem port_checked_without_bbos (W : world) (NDEBUG : bool) (name : string)
    (opts : list (ascii * string)) (d h p : string) (more : list string)
    (Hport : Fmt.atoi p <= 0) :
  let run := main W NDEBUG name opts (d :: h :: p :: more) initial in
  refused W name (outcome_of run) (state_of run) (events_of run) /\
  (status (W 0%nat) = 0 -> status (W 1%nat) = 0 -> status (W 2%nat) = 0 ->
   snd (options_parse opts
          (g_defaults (Fmt.to_int (out (W 1%nat))) (Fmt.to_int (out (W 2%nat))))) = None ->
   events_of run
   = [Call MPI_Init (W 0%nat); Call MPI_Comm_rank (W 1%nat);
      Call MPI_Comm_size (W 2%nat)] ++ usage_text name (Some "bad bbos port"%string)) /\
  ((forall x, ~ In ("b"%char, x) opts) -> bbos (g (state_of run)) = 0).
Proof.
  intros run. split; [|split].
  - apply (main_refuses_bad_port W NDEBUG name opts d h p more Hport).
  - intros H0 H1 H2 Ho.
    apply (main_bad_port_message W NDEBUG name opts d h p more Hport H0 H1 H2 Ho).
  - intros Hb. apply (main_bad_port_bbos W NDEBUG name opts d h p more Hport Hb).
Qed.

Lemma port_checked_without_bbos_witness :
  let W := single_rank 0 in
  let run := main W false "runner" [] ["plfsdir"; "127.0.0.1"; "0"]%string initial in
  Fmt.atoi "0" <= 0 /\
  refused W "runner" (outcome_of run) (state_of run) (events_of run) /\
  (status (W 0%nat) = 0 -> status (W 1%nat) = 0 -> status (W 2%nat) = 0 ->
   snd (options_parse []
          (g_defaults (Fmt.to_int (out (W 1%nat))) (Fmt.to_int (out (W 2%nat))))) = None ->
   events_of run
   = [Call MPI_Init (W 0%nat); Call MPI_Comm_rank (W 1%nat);
      Call MPI_Comm_size (W 2%nat)] ++ usage_text "runner" (Some "bad bbos port"%string)) /\
  ((forall x : string, ~ In ("b"%char, x) (@nil (ascii * string))) ->
   bbos (g (state_of run)) = 0).
Proof.
  assert (Fmt.atoi "0" <= 0) as H by (vm_compute; discriminate).
  split; [exact H|].
  apply (port_checked_without_bbos (single_rank 0) false "runner" []
           "plfsdir" "127.0.0.1" "0" [] H).
Defined.

(* ================================================================== *)
(** * Whole runs of [write] and of [main], in any world *)
(* ================================================================== *)

Section WholeRuns.
Variable W : world.
Variable NDEBUG : bool.

Lemma with_prefix_parts {A} (t0 : list event) (r : outcome A * state * list event)
    (o : outcome A) s' (t : list event) :
  (o, s', t) = with_prefix t0 r ->
  o = outcome_of r /\ s' = state_of r /\ t = t0 ++ events_of r.
Proof. unfold with_prefix. intros E. injection E as -> -> ->. now repeat split. Qed.

(** The calls of [write] are the first calls of the one sequence it makes
    when nothing stops it. *)
Lemma write_canonical s :
  env s = 0 -> bgp s = 0 -> gs_ints (g s) ->
  wp (write W NDEBUG) s
     (follows (g s) (setup_calls (g s) ++ session_calls (g s))).
Proof.
  intros He Hp Hi.
  pose proof (write_decomposed W NDEBUG s He Hp Hi) as H. unfold wp in *.
  destruct H as [(Ho & Hg & Hc & _)|(t0 & s1 & D & E)].
  - unfold follows. split; [exact Hg|]. split; [now apply prefix_app_r|].
    rewrite Ho. discriminate.
  - apply with_prefix_parts in E as (Eo & Es & Et).
    destruct D as (Hc & _ & _ & _ & Hg1 & _).
    destruct (session_follows W NDEBUG (g s) s1 Hg1) as (Hg' & Hpre & Hall).
    unfold follows. rewrite Eo, Es, Et, calls_of_app, Hc.
    split; [exact Hg'|]. split; [now apply prefix_app|].
    intros R. now rewrite (Hall R).
Qed.

(** What [write] prints on stdout: the descriptor, in a build without
    NDEBUG, and nothing else. *)
Lemma write_stdout s :
  env s = 0 -> bgp s = 0 -> gs_ints (g s) ->
  let expected := if NDEBUG then [] else info_text (descriptor (g s)) in
  prefix (stdout_of (events_of (write W NDEBUG s))) expected /\
  (outcome_of (write W NDEBUG s) = Returned tt ->
   stdout_of (events_of (write W NDEBUG s)) = expected).
Proof.
  intros He Hp Hi expected.
  pose proof (write_decomposed W NDEBUG s He Hp Hi) as H. unfold wp in *.
  destruct H as [(Ho & _ & _ & Hs)|(t0 & s1 & D & E)].
  - split; [exact Hs|]. rewrite Ho. discriminate.
  - apply with_prefix_parts in E as (_ & _ & Et).
    destruct D as (_ & _ & _ & Hs & _).
    pose proof (session_mute W NDEBUG (g s) s1) as M. unfold wp in M.
    rewrite Et, stdout_of_app, Hs, M, app_nil_r.
    split; [apply prefix_refl | reflexivity].
Qed.

(** [write] ends in a failed assertion only in a build without NDEBUG,
    when create_handle returned NULL, at the start of the first epoch. *)
Lemma write_aborts s :
  env s = 0 -> bgp s = 0 -> gs_ints (g s) -> 0 <= valsz (g s) ->
  outcome_of (write W NDEBUG s) = Aborted ->
  NDEBUG = false /\ 0 < nepochs (g s) /\
  calls_of (events_of (write W NDEBUG s)) = setup_calls (g s) /\
  exists r,
    In (Call (deltafs_plfsdir_create_handle (descriptor (g s))) r)
       (events_of (write W NDEBUG s)) /\
    handle r = 0.
Proof.
  intros He Hp Hi Hv Ha.
  pose proof (write_decomposed W NDEBUG s He Hp Hi) as H. unfold wp in *.
  destruct H as [(Ho & _)|(t0 & s1 & D & E)]; [congruence|].
  apply with_prefix_parts in E as (Eo & _ & Et).
  destruct D as (Hc & _ & _ & _ & Hg1 & _ & _ & _ & _ & (r & Hin & Hd) & _).
  destruct (session_asserted W NDEBUG (g s) s1 Hg1 Hv) as (_ & A).
  rewrite Eo in Ha. destruct (A Ha) as (N & D0 & T & Hn).
  split; [exact N|]. split; [exact Hn|]. rewrite Et, T, app_nil_r.
  split; [exact Hc|]. exists r. split; [exact Hin | congruence].
Qed.

(** The statements of [main] after [write]. *)
Lemma finish_up_run s :
  finish_up W s
  = if fires W s then (Exited 1, s, Pending MPI_Finalize :: sigalarm_diag)
    else (Exited 0, count_call s,
          Call MPI_Finalize (W (ncalls s))
          :: (if chatty (g s)
              then map Stdout (info_text "all done!" ++ info_text "bye")
              else [])).
Proof.
  unfold finish_up, do_call, fires, bind, chatty.
  destruct (match deadline s with Some t => _ | None => _ end); [reflexivity|].
  cbn [get g count_call].
  destruct (negb (v (g s) =? 0) && (myrank (g s) =? 0)); reflexivity.
Qed.

Lemma then_finish_up s :
  (write W NDEBUG ;; finish_up W) s
  = match outcome_of (write W NDEBUG s) with
    | Returned _ =>
        with_prefix (events_of (write W NDEBUG s))
                    (finish_up W (state_of (write W NDEBUG s)))
    | Exited c => (Exited c, state_of (write W NDEBUG s), events_of (write W NDEBUG s))
    | Aborted => (Aborted, state_of (write W NDEBUG s), events_of (write W NDEBUG s))
    | Undefined => (Undefined, state_of (write W NDEBUG s), events_of (write W NDEBUG s))
    end.
Proof.
  unfold bind, with_prefix, outcome_of, state_of, events_of.
  destruct (write W NDEBUG s) as [[[[]|c| |] sw] tw]; cbn [fst snd]; try reflexivity.
  destruct (finish_up W sw) as [[o s2] t2]. reflexivity.
Qed.

End WholeRuns.

(* ================================================================== *)
(** * [main] from the call of [write] on *)
(* ================================================================== *)

Section FromWrite.
Variable W : world.
Variable NDEBUG : bool.

Lemma write_entry_fresh (name : string) (gv : gs) :
  env (write_entry W name gv) = 0 /\ bgp (write_entry W name gv) = 0 /\
  g (write_entry W name gv) = gv /\ argv0 (write_entry W name gv) = name.
Proof. now repeat split. Qed.

Lemma main_after_entry (name : string) (gv : gs) :
  gs_ints gv ->
  let r := (write W NDEBUG ;; finish_up W) (write_entry W name gv) in
  let canon := setup_calls gv ++ session_calls gv ++ [MPI_Finalize] in
  let printed :=
    (if NDEBUG then [] else info_text (descriptor gv)) ++
    (if chatty gv then info_text "all done!" ++ info_text "bye" else []) in
  (g (state_of r) = gv /\ argv0 (state_of r) = name) /\
  (prefix (calls_of (events_of r)) canon /\
   (outcome_of r = Exited 0 -> calls_of (events_of r) = canon)) /\
  (prefix (stdout_of (events_of r)) printed /\
   (outcome_of r = Exited 0 -> stdout_of (events_of r) = printed)) /\
  (0 <= valsz gv -> outcome_of r = Aborted ->
   NDEBUG = false /\ 0 < nepochs gv /\
   calls_of (events_of r) = setup_calls gv /\
   exists r0,
     In (Call (deltafs_plfsdir_create_handle (descriptor gv)) r0) (events_of r) /\
     handle r0 = 0).
Proof.
  intros Hi r canon printed.
  set (s0 := write_entry W name gv) in *.
  assert (env s0 = 0 /\ bgp s0 = 0 /\ g s0 = gv /\ argv0 s0 = name)
    as (He & Hp & Hg & Hn) by apply write_entry_fresh.
  assert (gs_ints (g s0)) as Hi0 by now rewrite Hg.
  destruct (write_canonical W NDEBUG s0 He Hp Hi0) as (Cg & Cp & Call_).
  destruct (write_stdout W NDEBUG s0 He Hp Hi0) as (Sp & Sall).
  pose proof (write_aborts W NDEBUG s0 He Hp Hi0) as Ab.
  destruct (write_tidy W NDEBUG s0) as (_ & _ & Ta & _).
  rewrite Hg in *. rewrite Hn in Ta.
  subst r. rewrite then_finish_up.
  destruct (outcome_of (write W NDEBUG s0)) as [[]|c| |] eqn:Ow.
  - (* write returned *)
    rewrite finish_up_run, (Call_ eq_refl) in *. rewrite (Sall eq_refl) in *.
    set (sw := state_of (write W NDEBUG s0)) in *.
    set (tw := events_of (write W NDEBUG s0)) in *.
    destruct (fires W sw); unfold with_prefix, outcome_of, state_of, events_of;
      cbn [fst snd g argv0 count_call].
    + split; [now split|]. split; [|split].
      * split; [|discriminate].
        rewrite calls_of_app, (Call_ eq_refl). cbn [calls_of flat_map sigalarm_diag app].
        rewrite app_nil_r. subst canon. rewrite app_assoc. apply prefix_app_r, prefix_refl.
      * split; [|discriminate].
        rewrite stdout_of_app, (Sall eq_refl).
        cbn [stdout_of flat_map sigalarm_diag app]. rewrite app_nil_r.
        subst printed. apply prefix_app_r, prefix_refl.
      * discriminate.
    + rewrite Cg. split; [now split|]. split; [|split].
      * assert (calls_of
                  (tw ++ Call MPI_Finalize (W (ncalls sw))
                      :: (if chatty gv
                          then map Stdout (info_text "all done!" ++ info_text "bye")
                          else [])) = canon) as E.
        { rewrite calls_of_app, (Call_ eq_refl), calls_of_call.
          destruct (chatty gv); subst canon; now rewrite <- app_assoc. }
        rewrite E. split; [apply prefix_refl | reflexivity].
      * assert (stdout_of
                  (tw ++ Call MPI_Finalize (W (ncalls sw))
                      :: (if chatty gv
                          then map Stdout (info_text "all done!" ++ info_text "bye")
                          else [])) = printed) as E.
        { rewrite stdout_of_app, (Sall eq_refl), stdout_of_call.
          destruct (chatty gv); subst printed; reflexivity. }
        rewrite E. split; [apply prefix_refl | reflexivity].
      * discriminate.
  - cbn [outcome_of state_of events_of fst snd].
    split; [now split|]. split; [|split].
    + split; [|intros E; injection E as ->].
      * subst canon. rewrite app_assoc. now apply prefix_app_r.
      * destruct (write_tidy W NDEBUG s0) as (_ & _ & _ & _ & _ & _ & _ & X & _).
        rewrite Ow in X. destruct X as [X _]. discriminate X.
    + split; [|intros E; injection E as ->].
      * subst printed. now apply prefix_app_r.
      * destruct (write_tidy W NDEBUG s0) as (_ & _ & _ & _ & _ & _ & _ & X & _).
        rewrite Ow in X. destruct X as [X _]. discriminate X.
    + discriminate.
  - cbn [outcome_of state_of events_of fst snd].
    split; [now split|]. split; [|split].
    + split; [|discriminate]. subst canon. rewrite app_assoc. now apply prefix_app_r.
    + split; [|discriminate]. subst printed. now apply prefix_app_r.
    + intros Hv _. apply Ab; trivial.
  - cbn [outcome_of state_of events_of fst snd].
    split; [now split|]. split; [|split].
    + split; [|discriminate]. subst canon. rewrite app_assoc. now apply prefix_app_r.
    + split; [|discriminate]. subst printed. now apply prefix_app_r.
    + discriminate.
Qed.

Lemma prefix_short {A} (l a b0 : list A) :
  prefix l (a ++ b0) -> (List.length l <= List.length a)%nat -> prefix l a.
Proof.
  revert a. induction l as [|x l IH]; intros a P L; [apply prefix_nil|].
  destruct a as [|y a]; [cbn in L; lia|].
  destruct P as [rest E]. cbn [app] in E. injection E as <- E.
  apply prefix_cons, IH; [now exists rest | cbn in L; lia].
Qed.

(** How every run of [main] ends. *)
Lemma main_ends (name : string) (opts : list (ascii * string))
    (operands : list string) :
  let o := outcome_of (main W NDEBUG name opts operands initial) in
  o = Exited 0 \/ o = Exited 1 \/ o = Aborted.
Proof.
  intros o.
  destruct (main_is_sound W NDEBUG name opts operands initial) as (_ & _ & Hx & _).
  destruct (main_has_shape W NDEBUG name opts operands) as (_ & _ & _ & Hu).
  fold o in Hx, Hu.
  destruct o as [[]|c| |]; cbn [main_exits] in Hx.
  - destruct Hx.
  - destruct Hx as [[-> _]|[-> _]]; auto.
  - auto.
  - now destruct Hu.
Qed.

(** Every run of [main], in one statement. *)
Lemma main_whole (name : string) (opts : list (ascii * string))
    (operands : list string) :
  let r := main W NDEBUG name opts operands initial in
  let rank := Fmt.to_int (out (W 1%nat)) in
  let size := Fmt.to_int (out (W 2%nat)) in
  let gv := g (state_of r) in
  (prefix (calls_of (events_of r)) (main_calls gv (setup_calls gv)) /\
   (outcome_of r = Exited 0 ->
    calls_of (events_of r) = main_calls gv (setup_calls gv))) /\
  (prefix (stdout_of (events_of r))
          (expected_stdout NDEBUG (argv0 (state_of r)) gv) /\
   (outcome_of r = Exited 0 ->
    stdout_of (events_of r) = expected_stdout NDEBUG (argv0 (state_of r)) gv)) /\
  ((outcome_of r = Exited 1 /\ (List.length (calls_of (events_of r)) < 6)%nat) \/
   ((6 <= List.length (calls_of (events_of r)))%nat /\
    gv = parameters rank size opts operands /\
    argv0 (state_of r) = name /\
    valid_params gv /\ gs_ints gv /\
    refusal rank size opts operands = None /\
    (outcome_of r = Aborted ->
     NDEBUG = false /\ 0 < nepochs gv /\
     calls_of (events_of r)
       = startup_calls (Fmt.to_unsigned (timeout gv)) ++ setup_calls gv /\
     exists r0,
       In (Call (deltafs_plfsdir_create_handle (descriptor gv)) r0)
          (events_of r) /\
       handle r0 = 0))).
Proof.
  intros r rank size gv. subst rank size gv.
  pose proof (main_decomposed W NDEBUG name opts operands) as D.
  unfold wp, main_parts in D. cbv zeta in D. fold r in D.
  destruct (main_has_shape W NDEBUG name opts operands)
    as ((pre & _ & Hp & _) & _).
  fold r in Hp. clearbody r.
  set (p := parameters (Fmt.to_int (out (W 1%nat))) (Fmt.to_int (out (W 2%nat)))
                       opts operands) in *.
  destruct D as [(Ho & Hl & Hs)|((M0 & M1 & M2) & Hopt & Hop & Hport & Hb & E)].
  - (* the run ends before write *)
    assert (prefix (calls_of (events_of r))
                   (startup_calls (Fmt.to_unsigned (timeout (g (state_of r))))))
      as Hst.
    { apply (prefix_short _ _ (pre ++ session_calls (g (state_of r))
                                   ++ [MPI_Finalize]));
        [exact Hp | cbn [startup_calls List.length]; lia]. }
    split; [|split].
    + split; [now apply prefix_app_r|]. rewrite Ho. discriminate.
    + split; [unfold expected_stdout; now apply prefix_app_r|].
      rewrite Ho. discriminate.
    + left. now split.
  - (* the run goes through write *)
    pose proof (parameters_ints (out (W 1%nat)) (out (W 2%nat)) opts operands) as Hi.
    fold p in Hi.
    destruct (main_after_entry name p Hi)
      as ((Ag & An) & (Cp & Call_) & (Sp & Sall) & Ab).
    apply with_prefix_parts in E as (Eo & Es & Et).
    assert (calls_of (prologue_events W name p)
            = startup_calls (Fmt.to_unsigned (timeout p))) as Pc.
    { unfold prologue_events. rewrite !calls_of_app, calls_of_printed.
      destruct (chatty p); reflexivity. }
    assert (stdout_of (prologue_events W name p) = prologue_stdout name p) as Ps.
    { unfold prologue_events, prologue_stdout.
      rewrite !stdout_of_app, stdout_of_printed.
      destruct (chatty p); reflexivity. }
    rewrite Eo, Es, Et, calls_of_app, stdout_of_app, Pc, Ps, An, Ag.
    unfold main_calls, expected_stdout.
    split; [|split].
    + split; [now apply prefix_app|]. intros X. now rewrite (Call_ X).
    + split; [now apply prefix_app|]. intros X. now rewrite (Sall X).
    + right. split; [rewrite length_app; cbn [startup_calls List.length]; lia|].
      split; [reflexivity|]. split; [reflexivity|].
      assert (valid_params p) as Hv by (now apply parameters_valid).
      split; [exact Hv|]. split; [exact Hi|]. split.
      { unfold refusal. fold p. rewrite Hopt.
        destruct operands; [now destruct Hop|].
        destruct (Z.leb_spec (bbosport p) 0); [lia | reflexivity]. }
      intros X. destruct Hv as (_ & _ & _ & _ & _ & Hv & _).
      destruct (Ab Hv X) as (N & Hn & Hc & r0 & Hin & H0).
      split; [exact N|]. split; [exact Hn|]. split; [now rewrite Hc|].
      exists r0. split; [|exact H0]. apply in_app_iff. now right.
Qed.

End FromWrite.

(* ================================================================== *)
(** * The checks of the command line *)
(* ================================================================== *)

Section CommandLine.
Variable W : world.
Variable NDEBUG : bool.

Ltac front_step :=
  lazymatch goal with
  | |- wp (bind (arm _ _) _) _ _ => fail
  | |- _ => dstep; norm_state; norm_run
  end.

Lemma main_checks_command_line (name : string) (opts : list (ascii * string))
    (operands : list string) :
  status (W 0%nat) = 0 -> status (W 1%nat) = 0 -> status (W 2%nat) = 0 ->
  wp (main W NDEBUG name opts operands) initial
     (command_line_checked W name opts operands).
Proof.
  intros H0 H1 H2. unfold main. norm_run. repeat front_step.
  all: try not_armed.
  all: try match goal with
           | C : negb (status _ =? 0) = true |- _ =>
               rewrite ?H0, ?H1, ?H2 in C; discriminate C
           end.
  all: rewrite g_defaults_eq in P.
  - unfold command_line_checked, refusal. cbv zeta. rewrite P. now split.
  - unfold command_line_checked, refusal. cbv zeta. rewrite P. subst operands.
    now split.
  - unfold command_line_checked, refusal, parameters. cbv zeta. rewrite P.
    cbn [fst snd]. destruct operands as [|d more]; [now destruct E|].
    match goal with X : (bbosport _ <=? 0) = true |- _ => rewrite X end.
    now split.
  - unfold arm. apply wp_assoc, wp_call; intros Farm; [not_armed|].
    eapply wp_mono with (Q := fun _ _ _ => True); [exact I|].
    intros o s' t _.
    unfold command_line_checked, refusal, parameters. cbv zeta. rewrite P.
    cbn [fst snd]. destruct operands as [|d more]; [now destruct E|].
    match goal with X : (bbosport _ <=? 0) = false |- _ => rewrite X end.
    exists t. cbn [app]. rewrite <- app_assoc. reflexivity.
Qed.

End CommandLine.

(* ================================================================== *)
(** * The helpers of the setup: [mkbbos] and [mkconf] *)
(* ================================================================== *)

Section Buffers.
Import Fmt FmtFacts.
Local Open Scope string_scope.

Lemma take_length (n : nat) (s : string) : (String.length (take n s) <= n)%nat.
Proof.
  unfold take. revert n. induction s as [|c s IH]; intros [|n]; simpl; try lia.
  specialize (IH n). lia.
Qed.

Lemma take_cut (n : nat) (s : string) :
  (n <= String.length s)%nat -> String.length (take n s) = n.
Proof.
  unfold take. revert n. induction s as [|c s IH]; intros [|n] H; simpl in *;
    try reflexivity; try lia.
  f_equal. apply IH. lia.
Qed.

Lemma take_prefix (n : nat) (s : string) : exists rest, s = take n s ++ rest.
Proof.
  unfold take. revert n. induction s as [|c s IH]; intros [|n]; simpl.
  - now exists "".
  - now exists "".
  - now exists (String c s).
  - destruct (IH n) as [rest E]. exists rest. now rewrite <- E.
Qed.

(** What fits the buffer is kept whole, what does not is cut to the size
    of the buffer less the terminator. *)
Lemma sized_take (size : Z) (s : string) :
  0 < size -> sized size s = take (Z.to_nat (size - 1)) s.
Proof.
  intros H. unfold sized, snprintf. destruct (Z.leb_spec size 0); [lia | reflexivity].
Qed.

Lemma sized_length (size : Z) (s : string) :
  0 < size -> Z.of_nat (String.length (sized size s)) <= size - 1.
Proof.
  intros H. rewrite sized_take by assumption.
  pose proof (take_length (Z.to_nat (size - 1)) s). lia.
Qed.

Lemma sized_fits (size : Z) (s : string) :
  Z.of_nat (String.length s) < size -> sized size s = s.
Proof.
  intros H. rewrite sized_take by lia. apply take_all. lia.
Qed.

Lemma bbos_remote_uri_length (gv : gs) :
  int_range (bbosport gv) ->
  (String.length (bbos_remote_uri gv)
   <= 22 + String.length (bboshostname gv))%nat.
Proof.
  intros H. unfold bbos_remote_uri.
  rewrite !length_append. pose proof (itoa_length _ H). simpl String.length. lia.
Qed.

End Buffers.

Section Helpers.
Variable W : world.
Variable NDEBUG : bool.

(** [mkbbos] when the remote backend is wanted and no environment is
    there yet. *)
Lemma mkbbos_run s :
  bbos (g s) <> 0 -> env s = 0 ->
  let s1 := set_b (mkbbos_conf (sized 50 (bbos_remote_uri (g s)))
                               (sized 50 bbos_lo_uri)) s in
  let r := W (ncalls s) in
  let s2 := set_env (handle r) (count_call s1) in
  mkbbos W s
  = if fires W s
    then (Exited 1, s1, Pending (bbos_call (g s)) :: sigalarm_diag)
    else if handle r =? 0
         then (Exited 1, s2,
               Call (bbos_call (g s)) r
               :: complaint (argv0 s) "fail to init bbos env")
         else (Returned tt, s2, [Call (bbos_call (g s)) r]).
Proof.
  intros Hb He. destruct s as [a0 d0 e0 p0 c0 b0 g0 dl n0].
  cbn [g env] in Hb, He. subst e0.
  apply Z.eqb_neq in Hb.
  cbv [mkbbos bind get modify do_call when fires g env deadline ncalls b
       set_b count_call set_env].
  rewrite Hb. cbn [orb negb Z.eqb].
  destruct (match dl with Some t => _ | None => _ end); [reflexivity|].
  destruct (handle (W n0) =? 0); reflexivity.
Qed.

Lemma mkbbos_skips s :
  bbos (g s) = 0 \/ env s <> 0 -> mkbbos W s = (Returned tt, s, []).
Proof.
  intros H. unfold mkbbos, bind, get.
  assert ((bbos (g s) =? 0) || negb (env s =? 0) = true) as E.
  { destruct H as [H|H].
    - apply Z.eqb_eq in H. now rewrite H.
    - apply Z.eqb_neq in H. rewrite H. apply orb_true_r. }
  now rewrite E.
Qed.

(** [mkconf], case by case. *)
Lemma mkconf_run s :
  gs_ints (g s) ->
  let logged :=
    if NDEBUG then [] else map Stdout (info_text (descriptor (g s))) in
  let r := W (ncalls s) in
  let s1 := set_bgp (handle r) (count_call s) in
  mkconf W NDEBUG s
  = if negb (bg (g s) =? 0) && (bgp s =? 0)
    then if fires W s
         then (Exited 1, s, Pending (deltafs_tp_init (bg (g s))) :: sigalarm_diag)
         else if handle r =? 0
              then (Exited 1, s1,
                    Call (deltafs_tp_init (bg (g s))) r
                    :: complaint (argv0 s) "fail to init thread pool")
              else (Returned tt, set_cf (descriptor (g s)) s1,
                    Call (deltafs_tp_init (bg (g s))) r :: logged)
    else (Returned tt, set_cf (descriptor (g s)) s, logged).
Proof.
  intros Hi logged r s1.
  enough (H : wp (mkconf W NDEBUG) s
            (run_is
               (if negb (bg (g s) =? 0) && (bgp s =? 0)
                then if fires W s
                     then (Exited 1, s,
                           Pending (deltafs_tp_init (bg (g s))) :: sigalarm_diag)
                     else if handle r =? 0
                          then (Exited 1, s1,
                                Call (deltafs_tp_init (bg (g s))) r
                                :: complaint (argv0 s) "fail to init thread pool")
                          else (Returned tt, set_cf (descriptor (g s)) s1,
                                Call (deltafs_tp_init (bg (g s))) r :: logged)
                else (Returned tt, set_cf (descriptor (g s)) s, logged)))).
  { unfold wp, run_is in H. rewrite <- H.
    now destruct (mkconf W NDEBUG s) as [[o s2] t2]. }
  subst logged r s1.
  destruct s as [a0 d0 e0 p0 c0 b0 g0 dl n0]. cbn [g] in Hi.
  unfold mkconf. norm_run. destruct NDEBUG.
  all: repeat (use_flags;
               first [ wstep
                     | rewrite (mkconf_cf_descriptor g0) by assumption
                     | apply wp_ret
                     | unfold wp; rewrite info_run;
                       cbn [outcome_of state_of events_of fst snd] ];
               norm_state; try norm_run).
  all: unfold run_is; use_flags; reflexivity.
Qed.

End Helpers.

(* ================================================================== *)
(** * Counting the calls of a run *)
(* ================================================================== *)

Section Counting.

Lemma count_app (f : call -> bool) (a c : list call) :
  count f (a ++ c) = count f a + count f c.
Proof. unfold count. rewrite filter_app, length_app. lia. Qed.

Lemma count_nil (f : call -> bool) : count f [] = 0.
Proof. reflexivity. Qed.

Lemma count_cons (f : call -> bool) (c : call) (l : list call) :
  count f (c :: l) = (if f c then 1 else 0) + count f l.
Proof. unfold count. cbn [filter]. destruct (f c); cbn [List.length]; lia. Qed.

Lemma count_nonneg (f : call -> bool) (l : list call) : 0 <= count f l.
Proof. unfold count. lia. Qed.

Lemma count_prefix (f : call -> bool) (l1 l2 : list call) :
  prefix l1 l2 -> count f l1 <= count f l2.
Proof. intros [l3 ->]. rewrite count_app. pose proof (count_nonneg f l3). lia. Qed.

Lemma count_none (f : call -> bool) (l : list call) :
  count f l = 0 <-> forall c, In c l -> f c = false.
Proof.
  induction l as [|c l IH]; [split; [intros _ c []|reflexivity]|].
  rewrite count_cons. pose proof (count_nonneg f l) as Hn. split.
  - intros H c' [<-|Hin].
    + destruct (f c); [lia | reflexivity].
    + apply IH; [destruct (f c); lia | exact Hin].
  - intros H. rewrite (H c (or_introl eq_refl)).
    apply IH. intros c' Hin. apply H. now right.
Qed.

Lemma zrange_length (n : nat) (i : Z) : List.length (zrange n i) = n.
Proof. revert i. induction n; intros; cbn [zrange List.length]; congruence. Qed.

(** The appends of one epoch are appends and nothing else. *)
Lemma count_append_calls (f : call -> bool) (gv : gs) (e : Z) :
  (forall k x, f (deltafs_plfsdir_append k e x) = true) ->
  count f (append_calls gv e) = Z.of_nat (Z.to_nat (nkeys gv)).
Proof.
  intros Hf. unfold append_calls.
  generalize (Z.to_nat (nkeys gv)) 0. induction n as [|n IH]; intros i.
  - reflexivity.
  - cbn [zrange map]. rewrite count_cons, Hf, IH. lia.
Qed.

Lemma count_append_calls_other (f : call -> bool) (gv : gs) (e : Z) :
  (forall k x, f (deltafs_plfsdir_append k e x) = false) ->
  count f (append_calls gv e) = 0.
Proof.
  intros Hf. apply count_none. intros c Hin. unfold append_calls in Hin.
  apply in_map_iff in Hin as (i & <- & _). apply Hf.
Qed.

(** What an epoch counts for a class of calls [f]: [a] for each append,
    [b0] for the barrier, [fl] for the flush. *)
Lemma count_epochs (f : call -> bool) (gv : gs) (a b0 fl : Z) :
  (forall e, count f (append_calls gv e) = a * Z.of_nat (Z.to_nat (nkeys gv))) ->
  (if f MPI_Barrier then 1 else 0) = b0 ->
  (forall e, (if f (deltafs_plfsdir_epoch_flush e) then 1 else 0) = fl) ->
  count f (epochs_calls gv)
  = Z.of_nat (Z.to_nat (nepochs gv))
    * (a * Z.of_nat (Z.to_nat (nkeys gv)) + b0 + fl).
Proof.
  intros Ha Hb Hf. unfold epochs_calls.
  generalize (Z.to_nat (nepochs gv)) 0. induction n as [|n IH]; intros i.
  - reflexivity.
  - cbn [zrange flat_map]. rewrite count_app, IH. unfold epoch_calls.
    rewrite count_app, Ha, !count_cons, count_nil, Hb, Hf. lia.
Qed.

Lemma count_appends_epochs (gv : gs) :
  count is_append (epochs_calls gv)
  = Z.of_nat (Z.to_nat (nepochs gv)) * Z.of_nat (Z.to_nat (nkeys gv)).
Proof.
  rewrite (count_epochs is_append gv 1 0 0); [lia| |reflexivity|reflexivity].
  intros e. rewrite count_append_calls; [lia | reflexivity].
Qed.

Lemma count_flushes_epochs (gv : gs) :
  count is_flush (epochs_calls gv) = Z.of_nat (Z.to_nat (nepochs gv)).
Proof.
  rewrite (count_epochs is_flush gv 0 0 1); [lia| |reflexivity|reflexivity].
  intros e. rewrite count_append_calls_other; [lia | reflexivity].
Qed.

Lemma count_barriers_epochs (gv : gs) :
  count is_barrier (epochs_calls gv) = Z.of_nat (Z.to_nat (nepochs gv)).
Proof.
  rewrite (count_epochs is_barrier gv 0 1 0); [lia| |reflexivity|reflexivity].
  intros e. rewrite count_append_calls_other; [lia | reflexivity].
Qed.

Lemma count_finish_epochs (gv : gs) : count is_finish (epochs_calls gv) = 0.
Proof.
  rewrite (count_epochs is_finish gv 0 0 0); [lia| |reflexivity|reflexivity].
  intros e. rewrite count_append_calls_other; [lia | reflexivity].
Qed.

Lemma count_free_epochs (gv : gs) : count is_free (epochs_calls gv) = 0.
Proof.
  rewrite (count_epochs is_free gv 0 0 0); [lia| |reflexivity|reflexivity].
  intros e. rewrite count_append_calls_other; [lia | reflexivity].
Qed.

(** The setup makes none of the calls counted here. *)
Lemma count_setup (f : call -> bool) (gv : gs) :
  (forall c, is_setup_call c = true -> f c = false) ->
  count f (setup_calls gv) = 0.
Proof.
  intros Hf. apply count_none. intros c Hin. apply Hf.
  unfold setup_calls in Hin.
  destruct (bbos gv =? 0), (bg gv =? 0); cbn [app In] in Hin;
    repeat (destruct Hin as [<-|Hin]; [reflexivity|]); destruct Hin.
Qed.

Lemma epochs_calls_length (gv : gs) :
  Z.of_nat (List.length (epochs_calls gv))
  = Z.of_nat (Z.to_nat (nepochs gv)) * (Z.of_nat (Z.to_nat (nkeys gv)) + 2).
Proof.
  unfold epochs_calls.
  generalize (Z.to_nat (nepochs gv)) 0. induction n as [|n IH]; intros i.
  - reflexivity.
  - cbn [zrange flat_map]. rewrite length_app, Nat2Z.inj_add, IH.
    unfold epoch_calls. rewrite length_app, append_calls_length.
    cbn [List.length]. lia.
Qed.

Lemma setup_calls_length (gv : gs) :
  Z.of_nat (List.length (setup_calls gv))
  = 3 + (if bbos gv =? 0 then 0 else 2) + (if bg gv =? 0 then 0 else 2).
Proof.
  unfold setup_calls. destruct (bbos gv =? 0), (bg gv =? 0); reflexivity.
Qed.

(** The calls of a whole run, counted. *)
Lemma main_calls_counts (gv : gs) :
  0 <= nepochs gv -> 0 <= nkeys gv ->
  let cs := main_calls gv (setup_calls gv) in
  count is_append cs = nepochs gv * nkeys gv /\
  count is_flush cs = nepochs gv /\
  count is_barrier cs = nepochs gv + 1 /\
  count is_finish cs = 1 /\
  count is_free cs = 1 /\
  Z.of_nat (List.length cs)
  = 6 + Z.of_nat (List.length (setup_calls gv))
    + nepochs gv * (nkeys gv + 2) + 3.
Proof.
  intros He Hk cs. subst cs. unfold main_calls, session_calls, startup_calls.
  rewrite !count_app, !length_app, !Nat2Z.inj_add.
  rewrite !count_setup
    by (intros c; destruct c; try discriminate; reflexivity).
  rewrite count_appends_epochs, count_flushes_epochs, count_barriers_epochs,
    count_finish_epochs, count_free_epochs, epochs_calls_length.
  rewrite !count_cons, !count_nil. cbn [is_append is_flush is_barrier is_finish
    is_free List.length].
  rewrite !Z2Nat.id by assumption. repeat split; lia.
Qed.

(** The calls of one epoch, counted epoch by epoch: its appends when
    [ap] is true, its flush otherwise. *)
Lemma count_epoch (f : Z -> call -> bool) (gv : gs) (ap : bool) (e : Z) :
  (forall i k x, f e (deltafs_plfsdir_append k i x) = (i =? e) && ap) ->
  (forall i, f e (deltafs_plfsdir_epoch_flush i) = (i =? e) && negb ap) ->
  f e MPI_Barrier = false ->
  forall n i,
    count (f e) (flat_map (epoch_calls gv) (zrange n i))
    = if (i <=? e) && (e <? i + Z.of_nat n)
      then (if ap then Z.of_nat (Z.to_nat (nkeys gv)) else 1)
      else 0.
Proof.
  intros Ha Hf Hb. induction n as [|n IH]; intros i.
  - cbn [zrange flat_map]. rewrite count_nil.
    destruct (Z.leb_spec i e), (Z.ltb_spec e (i + Z.of_nat 0));
      cbn [andb]; try reflexivity; lia.
  - cbn [zrange flat_map]. rewrite count_app, IH. unfold epoch_calls.
    rewrite count_app, !count_cons, count_nil, Hb, Hf.
    assert (count (f e) (append_calls gv i)
            = if (i =? e) && ap then Z.of_nat (Z.to_nat (nkeys gv)) else 0)
      as Hc.
    { destruct ((i =? e) && ap) eqn:E.
      - apply count_append_calls. intros k x. now rewrite Ha.
      - apply count_append_calls_other. intros k x. now rewrite Ha. }
    rewrite Hc.
    destruct ap, (Z.eqb_spec i e),
      (Z.leb_spec i e), (Z.ltb_spec e (i + Z.of_nat (S n))),
      (Z.leb_spec (i + 1) e), (Z.ltb_spec e (i + 1 + Z.of_nat n));
      cbn [andb negb]; lia.
Qed.

Lemma count_setup_epoch (f : call -> bool) (gv : gs) :
  (forall c, is_record_call c = false -> f c = false) ->
  count f (startup_calls (Fmt.to_unsigned (timeout gv))) = 0 /\
  count f (setup_calls gv) = 0 /\
  count f [deltafs_plfsdir_finish; deltafs_plfsdir_free_handle] = 0 /\
  count f [MPI_Finalize] = 0.
Proof.
  intros Hf. repeat split.
  - unfold startup_calls. rewrite !count_cons, count_nil.
    rewrite !Hf by reflexivity. reflexivity.
  - apply count_setup. intros c Hc. apply Hf.
    destruct c; try discriminate; reflexivity.
  - rewrite !count_cons, count_nil. rewrite !Hf by reflexivity. reflexivity.
  - rewrite !count_cons, count_nil. rewrite !Hf by reflexivity. reflexivity.
Qed.

(** In the calls of a whole run, each epoch below [nepochs] has [nkeys]
    appends and one flush, and no other epoch has any. *)
Lemma main_calls_epoch (gv : gs) (e : Z) :
  let cs := main_calls gv (setup_calls gv) in
  let mine := (0 <=? e) && (e <? Z.of_nat (Z.to_nat (nepochs gv))) in
  count (is_append_of e) cs
  = (if mine then Z.of_nat (Z.to_nat (nkeys gv)) else 0) /\
  count (is_flush_of e) cs = (if mine then 1 else 0).
Proof.
  intros cs mine. subst cs. unfold main_calls, session_calls, epochs_calls.
  rewrite !count_app.
  destruct (count_setup_epoch (is_append_of e) gv) as (-> & -> & -> & ->);
    [intros c Hc; destruct c; try discriminate; reflexivity|].
  destruct (count_setup_epoch (is_flush_of e) gv) as (-> & -> & -> & ->);
    [intros c Hc; destruct c; try discriminate; reflexivity|].
  rewrite (count_epoch is_append_of gv true e);
    [| intros; cbn [is_append_of]; now rewrite andb_true_r
     | intros; cbn [is_append_of negb]; now rewrite andb_false_r
     | reflexivity].
  rewrite (count_epoch is_flush_of gv false e);
    [| intros; cbn [is_flush_of]; now rewrite andb_false_r
     | intros; cbn [is_flush_of negb]; now rewrite andb_true_r
     | reflexivity].
  change (0 + Z.of_nat (Z.to_nat (nepochs gv)))
    with (Z.of_nat (Z.to_nat (nepochs gv))).
  fold mine. destruct mine; split; lia.
Qed.

(** The same without assumptions on the parameters. *)
Lemma main_calls_totals (gv : gs) :
  let cs := main_calls gv (setup_calls gv) in
  count is_append cs
  = Z.of_nat (Z.to_nat (nepochs gv)) * Z.of_nat (Z.to_nat (nkeys gv)) /\
  count is_flush cs = Z.of_nat (Z.to_nat (nepochs gv)) /\
  count is_barrier cs = Z.of_nat (Z.to_nat (nepochs gv)) + 1.
Proof.
  intros cs. subst cs. unfold main_calls, session_calls, startup_calls.
  rewrite !count_app.
  rewrite !count_setup
    by (intros c; destruct c; try discriminate; reflexivity).
  rewrite count_appends_epochs, count_flushes_epochs, count_barriers_epochs.
  rewrite !count_cons, !count_nil.
  cbn [is_append is_flush is_barrier]. repeat split; lia.
Qed.

End Counting.

(* ================================================================== *)
(** * [main] stops at the first error *)
(* ================================================================== *)

Lemma stops_from_no_calls (n : nat) (o : outcome unit) s (t : list event) :
  calls_of t = [] -> stops_from n o s t.
Proof.
  intros H t0 c r t1 E _ _. rewrite E, calls_of_app, calls_of_call in H.
  destruct (calls_of t0); discriminate H.
Qed.

Lemma stops_from_call (n : nat) (o : outcome unit) s (c : call) (r : response)
    (t : list event) :
  failed c r = false \/ n = 5%nat ->
  stops_from (S n) o s t -> stops_from n o s (Call c r :: t).
Proof.
  intros Hc H t0 c' r' t1 E Hf Hn. destruct t0 as [|e t0].
  - injection E as <- <- <-. cbn [calls_of flat_map List.length] in Hn.
    destruct Hc as [Hc|Hc]; [congruence | lia].
  - injection E as <- E. apply (H t0 c' r' t1 E Hf).
    rewrite calls_of_call in Hn. cbn [List.length] in Hn. lia.
Qed.

Lemma stops_from_failed (n : nat) s (c : call) (r : response) (msg : string) :
  stops_from n (Exited 1) s (Call c r :: complaint (argv0 s) msg).
Proof.
  intros t0 c' r' t1 E Hf Hn. destruct t0 as [|e t0].
  - injection E as <- <- <-. split; [reflexivity | now exists msg].
  - injection E as <- E.
    assert (calls_of (complaint (argv0 s) msg) = []) as H by reflexivity.
    rewrite E, calls_of_app, calls_of_call in H.
    destruct (calls_of t0); discriminate H.
Qed.

Lemma stops_from_printed (n : nat) (o : outcome unit) s (t1 t2 : list event) :
  calls_of t1 = [] -> stops_from n o s t2 -> stops_from n o s (t1 ++ t2).
Proof.
  intros H1 H2 t0 c r t3 E Hf Hn.
  destruct (split_events _ _ _ _ _ E) as [(t1' & E1 & _)|(t0' & -> & E2)].
  - rewrite E1, calls_of_app, calls_of_call in H1.
    destruct (calls_of t0); discriminate H1.
  - apply (H2 t0' c r t3 E2 Hf).
    rewrite calls_of_app, H1 in Hn. exact Hn.
Qed.

Lemma stops_from_failfast (n : nat) (o : outcome unit) s (t : list event) :
  failfast o s t -> stops_from n o s t.
Proof. intros H t0 c r t1 E Hf _. apply (H t0 c r t1 E Hf). Qed.

Section Stops.
Variable W : world.
Variable NDEBUG : bool.

Lemma finish_up_failfast s : wp (finish_up W) s failfast.
Proof.
  unfold wp. rewrite finish_up_run. destruct (fires W s).
  - apply failfast_no_calls. reflexivity.
  - cbn [outcome_of state_of events_of fst snd].
    intros t0 c r t1 E Hf. destruct t0 as [|e t0].
    + injection E as <- <- <-. discriminate Hf.
    + injection E as _ E.
      assert (calls_of (t0 ++ Call c r :: t1) = []) as H
        by (rewrite <- E; destruct (chatty (g s)); reflexivity).
      rewrite calls_of_app, calls_of_call in H.
      destruct (calls_of t0); discriminate H.
Qed.

Ltac stops_leaf :=
  repeat first
    [ apply stops_from_failed
    | apply stops_from_failfast; assumption
    | apply stops_from_call;
      [ first [ left; cbn [failed]; first [assumption | reflexivity]
              | right; reflexivity ] |]
    | apply stops_from_printed;
      [ first [ apply calls_of_printed
              | match goal with
                | |- calls_of (if ?c then _ else _) = [] =>
                    destruct c; reflexivity
                end ] |]
    | apply stops_from_no_calls;
      first [ apply calls_of_usage_text | reflexivity ] ].

Lemma main_stops (name : string) (opts : list (ascii * string))
    (operands : list string) :
  wp (main W NDEBUG name opts operands) initial stops_at_error.
Proof.
  unfold main. norm_run. repeat (dstep; norm_state; norm_run).
  all: try not_armed.
  all: unfold stops_at_error.
  all: try (stops_leaf; fail).
  eapply wp_mono with (Q := failfast).
  - match goal with
    | |- wp _ ?s _ => change (wp (write W NDEBUG ;; finish_up W) s failfast)
    end.
    apply failfast_bind; [apply write_failfast|].
    intros _ s1. apply finish_up_failfast.
  - intros o s' t Hff. stops_leaf.
Qed.

End Stops.

(* ================================================================== *)
(** * A handle that is NULL *)
(* ================================================================== *)

Lemma call_in_calls_of (c : call) (r : response) (t : list event) :
  In (Call c r) t -> In c (calls_of t).
Proof.
  intros H. unfold calls_of. apply in_flat_map.
  exists (Call c r). split; [exact H | now left].
Qed.

(** A call made once in a run has one answer. *)
Lemma unique_call (p : call -> bool) (t : list event) :
  count p (calls_of t) = 1 ->
  forall c1 r1 c2 r2,
    In (Call c1 r1) t -> In (Call c2 r2) t -> p c1 = true -> p c2 = true ->
    c1 = c2 /\ r1 = r2.
Proof.
  induction t as [|e t IH]; intros Hn c1 r1 c2 r2 H1 H2 P1 P2; [destruct H1|].
  destruct e as [c r|c|x|x].
  - rewrite calls_of_call, count_cons in Hn.
    destruct (p c) eqn:Pc.
    + assert (count p (calls_of t) = 0) as Hz by lia.
      assert (forall c' r', In (Call c' r') t -> p c' = true -> False) as No.
      { intros c' r' Hin Pc'.
        pose proof (proj1 (count_none p (calls_of t)) Hz c') as X.
        rewrite X in Pc'; [discriminate|].
        apply (call_in_calls_of c' r' t Hin). }
      destruct H1 as [H1|H1]; [|destruct (No _ _ H1 P1)].
      destruct H2 as [H2|H2]; [|destruct (No _ _ H2 P2)].
      injection H1 as <- <-. injection H2 as <- <-. now split.
    + destruct H1 as [H1|H1]; [injection H1 as <- <-; congruence|].
      destruct H2 as [H2|H2]; [injection H2 as <- <-; congruence|].
      apply IH; [lia | assumption..].
  - destruct H1 as [H1|H1]; [discriminate|].
    destruct H2 as [H2|H2]; [discriminate|]. now apply IH.
  - destruct H1 as [H1|H1]; [discriminate|].
    destruct H2 as [H2|H2]; [discriminate|]. now apply IH.
  - destruct H1 as [H1|H1]; [discriminate|].
    destruct H2 as [H2|H2]; [discriminate|]. now apply IH.
Qed.

Lemma setup_creates_once (gv : gs) : count is_create (setup_calls gv) = 1.
Proof.
  unfold setup_calls. destruct (bbos gv =? 0), (bg gv =? 0); reflexivity.
Qed.

Lemma session_never_creates (gv : gs) (c : string) :
  ~ In (deltafs_plfsdir_create_handle c) (session_calls gv).
Proof.
  unfold session_calls, epochs_calls. intros H.
  apply in_app_iff in H as [H|[H|[H|[]]]]; try discriminate.
  apply in_flat_map in H as (e & _ & H). unfold epoch_calls in H.
  apply in_app_iff in H as [H|[H|[H|[]]]]; try discriminate.
  unfold append_calls in H. apply in_map_iff in H as (i & Hi & _).
  discriminate Hi.
Qed.

Lemma count_pos (p : call -> bool) (c : call) (l : list call) :
  In c l -> p c = true -> 1 <= count p l.
Proof.
  intros Hin Pc. pose proof (count_nonneg p l) as Hn.
  destruct (Z.eq_dec (count p l) 0) as [E|E]; [|lia].
  rewrite (proj1 (count_none p l) E c Hin) in Pc. discriminate.
Qed.

Lemma main_creates_once (gv : gs) :
  count is_create (main_calls gv (setup_calls gv)) = 1.
Proof.
  unfold main_calls, session_calls, startup_calls.
  rewrite !count_app, setup_creates_once.
  rewrite (count_epochs is_create gv 0 0 0);
    [rewrite !count_cons, !count_nil; cbn [is_create]; lia
    | |reflexivity|reflexivity].
  intros e. rewrite count_append_calls_other; [lia | reflexivity].
Qed.

Section NullHandle.
Variable W : world.

(** With no handle the first assertion of a debug build fails before
    anything is written. *)
Lemma session_null_handle (gv : gs) s :
  dir s = 0 -> 0 < nepochs gv -> session W false gv s = (Aborted, s, []).
Proof.
  intros Hd He. unfold session.
  destruct (Z.to_nat (nepochs gv)) as [|n] eqn:E; [lia|].
  cbn [for_loop]. unfold writepoch, assert_dir. cbv [bind get].
  apply Z.eqb_eq in Hd. rewrite Hd. reflexivity.
Qed.

(** In a debug build that is to write at least one epoch, a run in which
    deltafs_plfsdir_create_handle returned NULL does not get further than
    the first assertion: it ends there, unless it ended with exit(1)
    before. *)
Lemma main_null_handle (name : string) (opts : list (ascii * string))
    (operands : list string) (c : string) (r0 : response) :
  let r := main W false name opts operands initial in
  In (Call (deltafs_plfsdir_create_handle c) r0) (events_of r) ->
  handle r0 = 0 -> 0 < nepochs (g (state_of r)) ->
  outcome_of r <> Exited 1 ->
  outcome_of r = Aborted.
Proof.
  intros r Hin Hnull Hep Hne.
  destruct (main_whole W false name opts operands) as ((Hpre & _) & _).
  fold r in Hpre.
  pose proof (main_decomposed W false name opts operands) as D.
  unfold wp, main_parts in D. cbv zeta in D. fold r in D.
  destruct D as [(Ho & _)|(_ & _ & _ & _ & _ & Hrun)]; [contradiction|].
  set (gv := parameters (Fmt.to_int (out (W 1%nat))) (Fmt.to_int (out (W 2%nat)))
               opts operands) in *.
  assert (gs_ints gv) as Hints by apply parameters_ints.
  destruct (main_after_entry W false name gv Hints) as ((Hg & _) & _).
  apply with_prefix_parts in Hrun as (Ho & Hs & Ht).
  rewrite Hs, Hg in Hep, Hpre.
  destruct (write_entry_fresh W name gv) as (He & Hb & Hge & _).
  pose proof (write_decomposed W false (write_entry W name gv) He Hb) as D.
  rewrite Hge in D. specialize (D Hints). unfold wp, write_parts in D.
  rewrite then_finish_up in Ho, Ht.
  destruct D as [(Ho' & _)|(t0 & s1 & Hsd & Hrun')].
  { rewrite Ho' in Ho. cbn [outcome_of fst] in Ho. contradiction. }
  apply with_prefix_parts in Hrun' as (Ho' & _ & Ht').
  destruct Hsd as (_ & _ & _ & _ & _ & _ & _ & _ & _ & (r1 & Hin1 & Hd) & _).
  rewrite Hge in Ho', Ht', Hin1.
  assert (In (Call (deltafs_plfsdir_create_handle (descriptor gv)) r1)
             (events_of r)) as Hin1'.
  { rewrite Ht. apply in_app_iff. right.
    destruct (outcome_of (write W false (write_entry W name gv)));
      cbn [events_of with_prefix fst snd];
      rewrite ?Ht'; repeat (apply in_app_iff; left); exact Hin1. }
  assert (count is_create (calls_of (events_of r)) = 1) as Hone.
  { pose proof (count_prefix is_create _ _ Hpre) as Hle.
    rewrite main_creates_once in Hle.
    pose proof (count_pos is_create _ _
                  (call_in_calls_of _ _ _ Hin) eq_refl).
    lia. }
  destruct (unique_call is_create _ Hone _ _ _ _ Hin Hin1' eq_refl eq_refl)
    as [_ ->].
  rewrite Hnull in Hd.
  rewrite (session_null_handle gv s1 Hd Hep) in Ho'.
  rewrite Ho' in Ho. exact Ho.
Qed.

End NullHandle.

(* ================================================================== *)
(** * Which calls a run can contain *)
(* ================================================================== *)

Section Members.

Lemma startup_calls_plain (seconds : Z) (c : call) :
  In c (startup_calls seconds) ->
  is_session_call c = false /\ is_setup_call c = false.
Proof.
  unfold startup_calls. cbn [In].
  intros H. repeat (destruct H as [<-|H]; [now split|]). destruct H.
Qed.

Lemma session_calls_not_setup (gv : gs) (c : call) :
  In c (session_calls gv) -> is_setup_call c = false.
Proof.
  unfold session_calls, epochs_calls. intros H.
  apply in_app_iff in H as [H|[<-|[<-|[]]]]; try reflexivity.
  apply in_flat_map in H as (e & _ & H). unfold epoch_calls in H.
  apply in_app_iff in H as [H|[<-|[<-|[]]]]; try reflexivity.
  unfold append_calls in H. apply in_map_iff in H as (i & <- & _). reflexivity.
Qed.

(** The setup calls of a run are those of [setup_calls]. *)
Lemma main_calls_setup (gv : gs) (c : call) :
  In c (main_calls gv (setup_calls gv)) -> is_setup_call c = true ->
  In c (setup_calls gv).
Proof.
  unfold main_calls. intros H Hs.
  apply in_app_iff in H as [H|H].
  { apply startup_calls_plain in H as [_ H]. congruence. }
  apply in_app_iff in H as [H|H]; [exact H|].
  apply in_app_iff in H as [H|[<-|[]]]; [|discriminate].
  apply session_calls_not_setup in H. congruence.
Qed.

(** What the setup calls are made with, and when they are made. *)
Lemma setup_calls_members (gv : gs) (c : call) :
  In c (setup_calls gv) ->
  match c with
  | deltafs_env_init name l r =>
      bbos gv <> 0 /\ name = "bbos" /\ l = sized 50 bbos_lo_uri /\
      r = sized 50 (bbos_remote_uri gv)
  | deltafs_plfsdir_set_env => bbos gv <> 0
  | deltafs_tp_init n => bg gv <> 0 /\ n = bg gv
  | deltafs_plfsdir_set_thread_pool => bg gv <> 0
  | deltafs_plfsdir_create_handle conf => conf = descriptor gv
  | deltafs_plfsdir_open d => d = dirname gv
  | _ => True
  end.
Proof.
  unfold setup_calls.
  destruct (bbos gv =? 0) eqn:B, (bg gv =? 0) eqn:G;
    try apply Z.eqb_neq in B; try apply Z.eqb_neq in G;
    cbn [app In]; intros H;
    repeat (destruct H as [<-|H]; [repeat split; assumption|]);
    destruct H.
Qed.

(** A run of fewer than six calls has made none but the first calls of
    [main]. *)
Lemma short_run_calls (gv : gs) (pre l : list call) (c : call) :
  prefix l (main_calls gv pre) -> (List.length l < 6)%nat -> In c l ->
  In c (startup_calls (Fmt.to_unsigned (timeout gv))).
Proof.
  intros Hp Hl Hin. unfold main_calls in Hp.
  apply prefix_short in Hp; [|cbn [startup_calls List.length]; lia].
  apply (prefix_in _ _ _ Hp Hin).
Qed.

End Members.

(* ================================================================== *)
(** * The claims about keys and about the exit status *)
(* ================================================================== *)

(** ** C4 *)

(** What [writekey] does, case by case: the assertion, the watchdog, the
    append of the key of [k] and of the local rank, the test of its
    result. *)
Lemma writekey_run (W : world) (NDEBUG : bool) (k e : Z) (x : string) s :
  let key := fname_of k (myrank (g s)) in
  let r := W (ncalls s) in
  writekey W NDEBUG k e x s
  = if negb NDEBUG && (dir s =? 0) then (Aborted, s, [])
    else if fires W s
         then (Exited 1, s,
               Pending (deltafs_plfsdir_append key e x) :: sigalarm_diag)
         else if status r =? 0
              then (Returned tt, count_call s,
                    [Call (deltafs_plfsdir_append key e x) r])
              else (Exited 1, count_call s,
                    Call (deltafs_plfsdir_append key e x) r
                    :: complaint (argv0 s)
                         ("error writing " ++ key ++ ": " ++ errstr r)%string).
Proof.
  destruct s as [a0 d0 e0 p0 c0 b0 g0 dl n0].
  cbv [writekey assert_dir bind get do_call when fires g dir deadline ncalls
       count_call argv0 myrank ret abort].
  destruct NDEBUG; cbn [negb andb].
  - destruct (match dl with Some t => _ | None => _ end); [reflexivity|].
    destruct (status (W n0) =? 0); reflexivity.
  - destruct (d0 =? 0); [reflexivity|].
    destruct (match dl with Some t => _ | None => _ end); [reflexivity|].
    destruct (status (W n0) =? 0); reflexivity.
Qed.

(** Every key of an index below [nkeys] is appended in every epoch below
    [nepochs]. *)
Lemma session_appends_key (gv : gs) (i e : Z) :
  0 <= i < nkeys gv -> 0 <= e < nepochs gv ->
  In (deltafs_plfsdir_append (fname_of i (myrank gv)) e (filler gv))
     (session_calls gv).
Proof.
  intros Hi He. unfold session_calls, epochs_calls.
  apply in_app_iff. left. apply in_flat_map. exists e.
  split; [apply in_zrange; lia|].
  unfold epoch_calls. apply in_app_iff. left. unfold append_calls.
  apply in_map_iff. exists i. split; [reflexivity | apply in_zrange; lia].
Qed.

(** C4 -- record keys.  The key of index [k] on rank [rank] is
    [fname_of k rank], the text "f%08x-r%08x" of the two, and two pairs
    of [int]s that differ in the index or in the rank have different
    keys, as (5, 2), (5, 3) and (6, 2) do.  This is the key the driver
    writes: unless the assertion fails or the watchdog goes off first,
    [writekey] makes exactly one call, the append of the key of its index
    and of the local rank, in every world and state; and a run of [main]
    that exits with 0 has appended, in every epoch, the key of every
    index below the number of keys, these keys being pairwise
    different. *)
Theorem key_injective (k rank k' rank' : Z)
    (Hk : Fmt.int_range k) (Hrank : Fmt.int_range rank)
    (Hk' : Fmt.int_range k') (Hrank' : Fmt.int_range rank')
    (Hdiff : k <> k' \/ rank <> rank') :
  fname_of k rank <> fname_of k' rank' /\
  fname_of k rank = ("f" ++ Fmt.hex08 k ++ "-r" ++ Fmt.hex08 rank)%string /\
  (forall W NDEBUG e x s,
     prefix (calls_of (events_of (writekey W NDEBUG k e x s)))
            [deltafs_plfsdir_append (fname_of k (myrank (g s))) e x] /\
     (fires W s = false -> NDEBUG = true \/ dir s <> 0 ->
      (exists t,
         events_of (writekey W NDEBUG k e x s)
         = Call (deltafs_plfsdir_append (fname_of k (myrank (g s))) e x)
                (W (ncalls s)) :: t) /\
      calls_of (events_of (writekey W NDEBUG k e x s))
      = [deltafs_plfsdir_append (fname_of k (myrank (g s))) e x] /\
      (myrank (g s) = rank ->
       calls_of (events_of (writekey W NDEBUG k e x s))
       <> calls_of (events_of (writekey W NDEBUG k' e x
                                 (set_g (set_myrank rank' (g s)) s)))))) /\
  (forall W NDEBUG name opts operands,
     let run := main W NDEBUG name opts operands initial in
     let gv := g (state_of run) in
     outcome_of run = Exited 0 ->
     (forall i e, 0 <= i < nkeys gv -> 0 <= e < nepochs gv ->
        In (deltafs_plfsdir_append (fname_of i (myrank gv)) e (filler gv))
           (calls_of (events_of run))) /\
     (forall i j, 0 <= i < nkeys gv -> 0 <= j < nkeys gv -> i <> j ->
        fname_of i (myrank gv) <> fname_of j (myrank gv))) /\
  fname_of 5 2 = "f00000005-r00000002"%string /\
  fname_of 5 2 <> fname_of 5 3 /\ fname_of 5 2 <> fname_of 6 2.
Proof.
  assert (fname_of k rank <> fname_of k' rank') as Hne.
  { intros E. apply fname_of_inj in E; trivial. lia. }
  split; [exact Hne|]. split; [apply fname_of_eq|].
  split; [|split; [|split; [reflexivity|split; discriminate]]].
  - intros W NDEBUG e x s.
    split; [apply (writekey_follows W NDEBUG k e x s)|].
    intros F Hd.
    assert (negb NDEBUG && (dir s =? 0) = false) as A.
    { destruct Hd as [->|Hd]; [reflexivity|].
      apply Z.eqb_neq in Hd. rewrite Hd. apply andb_false_r. }
    pose proof (writekey_run W NDEBUG k e x s) as R. cbv zeta in R.
    rewrite A, F in R.
    assert (calls_of (events_of (writekey W NDEBUG k e x s))
            = [deltafs_plfsdir_append (fname_of k (myrank (g s))) e x]) as C
      by (rewrite R; destruct (status (W (ncalls s)) =? 0); reflexivity).
    split; [|split; [exact C|]].
    + rewrite R. destruct (status (W (ncalls s)) =? 0); eexists; reflexivity.
    + intros Er. rewrite C, Er. intros E.
      pose proof (writekey_follows W NDEBUG k' e x
                    (set_g (set_myrank rank' (g s)) s)) as (_ & [l Hl] & _).
      rewrite <- E in Hl.
      destruct s as [a0 d0 e0 p0 c0 b0 g0 dl n0].
      cbn [g set_g app] in Hl. unfold set_myrank in Hl. cbn [myrank] in Hl.
      apply (f_equal (@hd_error call)) in Hl. cbn [hd_error] in Hl.
      remember (fname_of k rank) as ka eqn:Eka.
      remember (fname_of k' rank') as kb eqn:Ekb.
      injection Hl as Hk0. symmetry in Hk0. exact (Hne Hk0).
  - intros W NDEBUG name opts operands run gv Ho.
    destruct (main_whole W NDEBUG name opts operands) as ((_ & Hall) & _ & H).
    fold run in Hall, H. fold gv in Hall, H. specialize (Hall Ho).
    destruct H as [(H1 & _)|(_ & _ & _ & _ & G & _)]; [congruence|].
    split.
    + intros i e Hi He. rewrite Hall. unfold main_calls.
      apply in_app_iff. right. apply in_app_iff. right.
      apply in_app_iff. left. now apply session_appends_key.
    + intros i j Hi Hj Hij E.
      assert (Fmt.int_range (nkeys gv) /\ Fmt.int_range (myrank gv)) as [Rk Rr]
        by (unfold gs_ints in G; tauto).
      unfold Fmt.int_range in Rk, Rr.
      assert (Fmt.int_range i) as Ri by (unfold Fmt.int_range; lia).
      assert (Fmt.int_range j) as Rj by (unfold Fmt.int_range; lia).
      destruct (fname_of_inj i (myrank gv) j (myrank gv) Ri Rr Rj Rr E) as [X _].
      contradiction.
Qed.

Lemma key_injective_witness :
  fname_of 5 2 <> fname_of 5 3 /\
  fname_of 5 2 = "f00000005-r00000002"%string /\
  calls_of (events_of (writekey (single_rank 0) true 5 0 "...."
             (set_g (scenario_g "plfsdir") initial)))
  = [deltafs_plfsdir_append "f00000005-r00000000" 0 "...."].
Proof.
  assert (Fmt.int_range 5 /\ Fmt.int_range 2 /\ Fmt.int_range 3) as (H5 & H2 & H3)
    by (unfold Fmt.int_range; lia).
  assert (5 <> 5 \/ 2 <> 3) as Hd by (right; lia).
  destruct (key_injective 5 2 5 3 H5 H2 H5 H3 Hd)
    as (Hne & _ & Hw & _ & Hs & _).
  split; [exact Hne|]. split; [exact Hs|].
  destruct (Hw (single_rank 0) true 0 "...."%string
               (set_g (scenario_g "plfsdir") initial)) as (_ & Hx).
  destruct (Hx eq_refl (or_introl eq_refl)) as (_ & Hc & _).
  exact Hc.
Defined.

(** ** C6 *)



(* ================================================================== *)
(** * Further properties of the program *)
(* ================================================================== *)

(** ** Numbers on the command line *)

(** X1 -- what %d prints, atoi reads back.  For every [int] the decimal
    text [printopts] and [mkconf] print for it is read by atoi as the same
    number, so each numeric option given that text stores exactly that
    number in the globals (whether or not the check that follows accepts
    it). *)
Theorem atoi_reads_what_itoa_prints (z : Z) (Hz : Fmt.int_range z) :
  Fmt.atoi (Fmt.itoa z) = z /\
  (forall s,
     iosz (g (state_of (option_case "s" (Fmt.itoa z) s))) = z /\
     nepochs (g (state_of (option_case "e" (Fmt.itoa z) s))) = z /\
     nkeys (g (state_of (option_case "n" (Fmt.itoa z) s))) = z /\
     filterbits (g (state_of (option_case "f" (Fmt.itoa z) s))) = z /\
     keysz (g (state_of (option_case "k" (Fmt.itoa z) s))) = z /\
     valsz (g (state_of (option_case "d" (Fmt.itoa z) s))) = z /\
     bg (g (state_of (option_case "j" (Fmt.itoa z) s))) = z /\
     timeout (g (state_of (option_case "t" (Fmt.itoa z) s))) = z).
Proof.
  pose proof (atoi_itoa z Hz) as E. split; [exact E|].
  intros s. rewrite !option_case_run. cbn [option_error option_apply].
  rewrite E.
  repeat match goal with
         | |- context [if ?c then _ else _] => destruct c
         end;
    repeat split; reflexivity.
Qed.

Lemma atoi_reads_what_itoa_prints_witness :
  Fmt.int_range (- 2 ^ 31) /\ Fmt.atoi (Fmt.itoa (- 2 ^ 31)) = - 2 ^ 31.
Proof.
  assert (Fmt.int_range (- 2 ^ 31)) as H by (unfold Fmt.int_range; lia).
  split; [exact H | apply (atoi_reads_what_itoa_prints (- 2 ^ 31) H)].
Defined.

(** X2 -- an argument that is not a number counts as 0.  When the text of
    an option argument is empty or starts with a character that is neither
    white space, a sign nor a digit, atoi gives 0: -s and -k end in the
    usage message (0 is no io size and no key size), while -e, -n, -f, -d,
    -j and -t are accepted with the value 0; as a port, the text is
    refused. *)
Theorem argument_not_a_number (x : string) (Hx : not_a_number x) :
  Fmt.atoi x = 0 /\
  (forall W s,
     option_case "s" x s
     = (Exited 1, set_g (set_iosz 0 (g s)) s,
        usage_text (argv0 s) (Some "bad io size"%string)) /\
     option_case "k" x s
     = (Exited 1, set_g (set_keysz 0 (g s)) s,
        usage_text (argv0 s) (Some "bad key size"%string)) /\
     option_case "e" x s = (Returned tt, set_g (set_nepochs 0 (g s)) s, []) /\
     option_case "n" x s = (Returned tt, set_g (set_nkeys 0 (g s)) s, []) /\
     option_case "f" x s = (Returned tt, set_g (set_filterbits 0 (g s)) s, []) /\
     option_case "d" x s = (Returned tt, set_g (set_valsz 0 (g s)) s, []) /\
     option_case "j" x s = (Returned tt, set_g (set_bg 0 (g s)) s, []) /\
     option_case "t" x s = (Returned tt, set_g (set_timeout 0 (g s)) s, []) /\
     forall NDEBUG name opts d h more,
       refused W name
         (outcome_of (main W NDEBUG name opts (d :: h :: x :: more) initial))
         (state_of (main W NDEBUG name opts (d :: h :: x :: more) initial))
         (events_of (main W NDEBUG name opts (d :: h :: x :: more) initial))).
Proof.
  pose proof (atoi_not_a_number x Hx) as E. split; [exact E|].
  intros W s. rewrite !option_case_run.
  cbn [option_error option_apply]. rewrite E. cbn [Z.leb Z.ltb Z.compare].
  repeat (split; [reflexivity|]).
  intros NDEBUG name opts d h more.
  apply (main_refuses_bad_port W NDEBUG name opts d h x more). lia.
Qed.

Lemma argument_not_a_number_witness :
  not_a_number "many" /\ Fmt.atoi "many" = 0.
Proof.
  assert (not_a_number "many") as H
    by (cbn; repeat split; discriminate).
  split; [exact H | apply (argument_not_a_number "many" H)].
Defined.

(** ** The option loop *)

(** X3 -- the options are read from left to right.  Reading a list of
    options is reading its first part and then the rest, from the globals
    the first part left; the loop ends at the first option that ends in
    the usage message, whatever follows it; and when the last option is
    accepted the globals are those that option stores on top of the
    options before it, so that a later option overrides an earlier one. *)
Theorem option_loop_left_to_right (o1 o2 : list (ascii * string)) (s : state) :
  option_loop (o1 ++ o2) s = (option_loop o1 ;; option_loop o2) s /\
  (forall ch x,
     outcome_of (option_case ch x (state_of (option_loop o1 s))) = Exited 1 ->
     option_loop (o1 ++ (ch, x) :: o2) s = option_loop (o1 ++ [(ch, x)]) s /\
     outcome_of (option_loop (o1 ++ (ch, x) :: o2) s) = Exited 1) /\
  (forall ch x,
     outcome_of (option_loop (o1 ++ [(ch, x)]) s) = Returned tt ->
     g (state_of (option_loop (o1 ++ [(ch, x)]) s))
     = g (state_of (option_case ch x (state_of (option_loop o1 s))))) /\
  (forall x y,
     outcome_of (option_loop (o1 ++ [("e"%char, x)] ++ o2 ++ [("e"%char, y)]) s)
     = Returned tt ->
     nepochs (g (state_of
       (option_loop (o1 ++ [("e"%char, x)] ++ o2 ++ [("e"%char, y)]) s)))
     = Fmt.atoi y).
Proof.
  split; [|split; [|split]].
  - unfold bind. rewrite !option_loop_run, options_parse_app.
    destruct (options_parse o1 (g s)) as [gv1 [m|]]; [reflexivity|].
    rewrite option_loop_run. cbn [g set_g argv0].
    destruct (options_parse o2 gv1) as [gv2 [m|]]; reflexivity.
  - intros ch x. rewrite !option_loop_run, option_case_run, !options_parse_app.
    destruct (options_parse o1 (g s)) as [gv1 [m|]]; [now split|].
    cbn [state_of fst snd options_parse].
    destruct (option_error ch x) as [m|]; [now split | discriminate].
  - intros ch x. rewrite !option_loop_run, option_case_run, options_parse_app.
    destruct (options_parse o1 (g s)) as [gv1 [m|]]; [discriminate|].
    cbn [options_parse state_of fst snd g set_g].
    destruct (option_error ch x); [discriminate | reflexivity].
  - intros x y. rewrite !app_assoc. rewrite !option_loop_run, options_parse_app.
    destruct (options_parse ((o1 ++ [("e"%char, x)]) ++ o2) (g s))
      as [gv1 [m|]]; [discriminate|].
    cbn [options_parse option_error option_apply].
    destruct (Fmt.atoi y <? 0); [discriminate | reflexivity].
Qed.

(** ** now *)

(** X4 -- now counts microseconds.  For a time of day gettimeofday can
    report (seconds not negative, microseconds below a million) that fits
    64 bits, now returns seconds * 1000000 + microseconds without
    wrapping: the two parts are recovered by division and remainder, and
    a later time gives a larger value. *)
Theorem now_microseconds (sec usec sec' usec' : Z)
    (Hsec : 0 <= sec) (Husec : 0 <= usec < 1000000)
    (Hsec' : 0 <= sec') (Husec' : 0 <= usec' < 1000000)
    (Hfit : sec * 1000000 + usec < 2 ^ 64)
    (Hfit' : sec' * 1000000 + usec' < 2 ^ 64) :
  now sec usec = sec * 1000000 + usec /\
  now sec usec / 1000000 = sec /\
  now sec usec mod 1000000 = usec /\
  (now sec usec < now sec' usec' <-> sec < sec' \/ (sec = sec' /\ usec < usec')) /\
  (now sec usec = now sec' usec' -> sec = sec' /\ usec = usec').
Proof.
  rewrite !now_exact by lia.
  assert ((sec * 1000000 + usec) / 1000000 = sec) as D.
  { rewrite Z.add_comm, Z.div_add by lia. rewrite Z.div_small by lia. lia. }
  assert ((sec * 1000000 + usec) mod 1000000 = usec) as M.
  { rewrite Z.add_comm, Z.mod_add by lia. apply Z.mod_small. lia. }
  split; [reflexivity|]. split; [exact D|]. split; [exact M|]. split; [nia|].
  intros E. nia.
Qed.

Lemma now_microseconds_witness :
  now 1500000000 999999 = 1500000000999999 /\
  now 1500000000 999999 / 1000000 = 1500000000 /\
  now 1500000000 999999 mod 1000000 = 999999 /\
  (now 1500000000 999999 < now 1500000001 0
   <-> 1500000000 < 1500000001 \/ (1500000000 = 1500000001 /\ 999999 < 0)) /\
  (now 1500000000 999999 = now 1500000001 0 ->
   1500000000 = 1500000001 /\ 999999 = 0).
Proof.
  apply (now_microseconds 1500000000 999999 1500000001 0); lia.
Defined.

(** ** The helpers of the setup *)

(** X5 -- the URIs of mkbbos.  When the bbos flag is set and no
    environment exists yet, mkbbos stores "bmi+tcp" in b.lo and the first
    49 characters of "bmi+tcp://<hostname>:<port>" in b.remote, and calls
    deltafs_env_init with the name "bbos" and these two strings and
    nothing else.  The URI has 11 characters more than the host name and
    the digits of the port: when that is at most 49 it is stored whole,
    which is always so for a host name of at most 27 characters; when it
    is more, what is stored and passed on is its first 49 characters, a
    shorter text, and nothing tells.  A NULL from deltafs_env_init ends
    the process with the complaint and exit(1); otherwise mkbbos returns
    with the environment stored in env. *)
Theorem mkbbos_uris (W : world) (s : state)
    (Hbbos : bbos (g s) <> 0) (Henv : env s = 0) :
  let uri :=
    ("bmi+tcp://" ++ bboshostname (g s) ++ ":"
       ++ Fmt.itoa (bbosport (g s)))%string in
  let kept := Fmt.take 49 uri in
  let init := deltafs_env_init "bbos" "bmi+tcp" kept in
  let r := W (ncalls s) in
  b (state_of (mkbbos W s)) = mkbbos_conf kept "bmi+tcp" /\
  (String.length uri
   = 11 + String.length (bboshostname (g s))
     + String.length (Fmt.itoa (bbosport (g s))))%nat /\
  ((String.length uri <= 49)%nat -> kept = uri) /\
  ((49 < String.length uri)%nat ->
   String.length kept = 49%nat /\ kept <> uri /\
   exists rest, rest <> ""%string /\ uri = (kept ++ rest)%string) /\
  (Fmt.int_range (bbosport (g s)) ->
   (String.length (bboshostname (g s)) <= 27)%nat -> kept = uri) /\
  mkbbos W s
  = (if fires W s
     then (Exited 1, state_of (mkbbos W s), Pending init :: sigalarm_diag)
     else if handle r =? 0
          then (Exited 1, state_of (mkbbos W s),
                Call init r :: complaint (argv0 s) "fail to init bbos env")
          else (Returned tt, state_of (mkbbos W s), [Call init r])) /\
  (fires W s = false -> env (state_of (mkbbos W s)) = handle r).
Proof.
  intros uri kept init r.
  assert (sized 50 bbos_lo_uri = "bmi+tcp") as Elo by reflexivity.
  assert (sized 50 (bbos_remote_uri (g s)) = kept) as Erem
    by (rewrite sized_take by lia; reflexivity).
  pose proof (mkbbos_run W s Hbbos Henv) as R. cbv zeta in R.
  unfold bbos_call in R. rewrite Elo, Erem in R. fold init r in R.
  split; [|split; [|split; [|split; [|split; [|split]]]]].
  - rewrite R. destruct (fires W s); [reflexivity|].
    destruct (handle r =? 0); reflexivity.
  - unfold uri. rewrite !FmtFacts.length_append. simpl String.length. lia.
  - intros Hl. apply FmtFacts.take_all. exact Hl.
  - intros Hl.
    assert (String.length kept = 49%nat) as L by (apply take_cut; lia).
    split; [exact L|]. split; [intros E; rewrite E in L; lia|].
    destruct (take_prefix 49 uri) as [rest E]. fold kept in E.
    exists rest. split; [|exact E].
    intros ->. rewrite FmtFacts.append_empty_r in E.
    rewrite <- E in L. lia.
  - intros Hp Hh. rewrite <- Erem.
    change uri with (bbos_remote_uri (g s)). apply sized_fits.
    pose proof (bbos_remote_uri_length (g s) Hp). lia.
  - rewrite R. destruct (fires W s); [reflexivity|].
    destruct (handle r =? 0); reflexivity.
  - intros F. rewrite R, F. destruct (handle r =? 0); reflexivity.
Qed.

Lemma mkbbos_uris_witness :
  mkbbos (single_rank 0)
         (set_g (set_bbos 1 (g_defaults 0 1)) initial)
  = (Returned tt,
     set_env 1 (count_call
       (set_b (mkbbos_conf "bmi+tcp://127.0.0.1:12345" "bmi+tcp")
              (set_g (set_bbos 1 (g_defaults 0 1)) initial))),
     [Call (deltafs_env_init "bbos" "bmi+tcp" "bmi+tcp://127.0.0.1:12345")
           (single_rank 0 0%nat)]).
Proof.
  assert (bbos (g (set_g (set_bbos 1 (g_defaults 0 1)) initial)) <> 0) as Hb
    by (cbn; discriminate).
  assert (env (set_g (set_bbos 1 (g_defaults 0 1)) initial) = 0) as He
    by reflexivity.
  pose proof (mkbbos_uris (single_rank 0) _ Hb He)
    as (_ & _ & _ & _ & _ & R & _).
  exact R.
Defined.

(** X6 -- the environment is made once.  mkbbos does nothing when the
    bbos flag is 0 or an environment exists already; so calling it a
    second time adds nothing to the first call: no second
    deltafs_env_init, the same globals. *)
Theorem mkbbos_once (W : world) (s : state) :
  (bbos (g s) = 0 \/ env s <> 0 -> mkbbos W s = (Returned tt, s, [])) /\
  (mkbbos W ;; mkbbos W) s = mkbbos W s.
Proof.
  split; [apply mkbbos_skips|].
  unfold bind at 1.
  destruct (Z.eq_dec (bbos (g s)) 0) as [Hb|Hb].
  { rewrite (mkbbos_skips W s (or_introl Hb)).
    now rewrite (mkbbos_skips W s (or_introl Hb)). }
  destruct (Z.eq_dec (env s) 0) as [He|He].
  2:{ rewrite (mkbbos_skips W s (or_intror He)).
      now rewrite (mkbbos_skips W s (or_intror He)). }
  rewrite (mkbbos_run W s Hb He).
  destruct (fires W s); [reflexivity|].
  destruct (handle (W (ncalls s)) =? 0) eqn:Hh; [reflexivity|].
  apply Z.eqb_neq in Hh.
  rewrite mkbbos_skips; [reflexivity|]. right. exact Hh.
Qed.

(** X7 -- the thread pool is made once, the descriptor is written every
    time.  mkconf calls deltafs_tp_init only when background threads are
    asked for and no pool exists yet.  Once it has returned, cf holds the
    descriptor and a pool exists if one was asked for; a second call makes
    no call at all, leaves every global as it is and, in a debug build,
    prints the descriptor again. *)
Theorem mkconf_once (W : world) (NDEBUG : bool) (s : state)
    (Hints : gs_ints (g s)) :
  let r := mkconf W NDEBUG s in
  let logged :=
    if NDEBUG then [] else map Stdout (info_text (descriptor (g s))) in
  (bg (g s) = 0 \/ bgp s <> 0 ->
   r = (Returned tt, set_cf (descriptor (g s)) s, logged)) /\
  (calls_of (events_of r) = [] \/
   calls_of (events_of r) = [deltafs_tp_init (bg (g s))]) /\
  (outcome_of r = Returned tt ->
   cf (state_of r) = descriptor (g s) /\
   (bg (g s) <> 0 -> bgp (state_of r) <> 0) /\
   mkconf W NDEBUG (state_of r) = (Returned tt, state_of r, logged)).
Proof.
  intros r logged. subst r.
  pose proof (mkconf_run W NDEBUG s Hints) as R. cbv zeta in R. fold logged in R.
  assert (calls_of logged = []) as Hl
    by (subst logged; destruct NDEBUG; reflexivity).
  assert (forall s0, g s0 = g s -> cf s0 = descriptor (g s) ->
            (bg (g s) <> 0 -> bgp s0 <> 0) ->
            mkconf W NDEBUG s0 = (Returned tt, s0, logged)) as Again.
  { intros s0 Hg Hc Hp.
    assert (gs_ints (g s0)) as Hints0 by now rewrite Hg.
    rewrite (mkconf_run W NDEBUG s0 Hints0). rewrite !Hg. fold logged.
    destruct (Z.eq_dec (bg (g s)) 0) as [Hb|Hb].
    - apply Z.eqb_eq in Hb. rewrite Hb. cbn [negb andb].
      destruct s0; cbn in *; now subst.
    - apply Hp, Z.eqb_neq in Hb. rewrite Hb, andb_false_r.
      destruct s0; cbn in *; now subst. }
  split; [|split].
  - intros H. rewrite R.
    assert (negb (bg (g s) =? 0) && (bgp s =? 0) = false) as E.
    { destruct H as [H|H].
      - apply Z.eqb_eq in H. now rewrite H.
      - apply Z.eqb_neq in H. rewrite H. apply andb_false_r. }
    now rewrite E.
  - rewrite R. destruct (negb (bg (g s) =? 0) && (bgp s =? 0)).
    + destruct (fires W s); [now left|].
      destruct (handle (W (ncalls s)) =? 0); right.
      * reflexivity.
      * cbn [events_of snd]. now rewrite calls_of_call, Hl.
    + left. exact Hl.
  - rewrite R. destruct (negb (bg (g s) =? 0) && (bgp s =? 0)) eqn:E.
    + destruct (fires W s); [discriminate|].
      destruct (handle (W (ncalls s)) =? 0) eqn:Hh; [discriminate|].
      intros _. cbn [state_of fst snd].
      apply Z.eqb_neq in Hh.
      split; [now destruct s|]. split; [now destruct s|].
      apply Again; [now destruct s | now destruct s | now destruct s].
    + intros _. cbn [state_of fst snd].
      split; [now destruct s|].
      assert (bg (g s) <> 0 -> bgp s <> 0) as Hp.
      { intros Hb. apply Z.eqb_neq in Hb. rewrite Hb in E. cbn in E.
        now apply Z.eqb_neq. }
      split; [now destruct s|].
      apply Again; [now destruct s | now destruct s | now destruct s].
Qed.

Lemma mkconf_once_witness :
  gs_ints (g (set_g (set_bg 4 (scenario_g "plfsdir")) initial)) /\
  mkconf (single_rank 0) false
    (state_of (mkconf (single_rank 0) false
                 (set_g (set_bg 4 (scenario_g "plfsdir")) initial)))
  = (Returned tt,
     state_of (mkconf (single_rank 0) false
                 (set_g (set_bg 4 (scenario_g "plfsdir")) initial)),
     map Stdout (info_text scenario_conf)).
Proof.
  assert (gs_ints (g (set_g (set_bg 4 (scenario_g "plfsdir")) initial))) as H
    by (cbn; unfold gs_ints, Fmt.int_range; cbn; lia).
  split; [exact H|].
  pose proof (mkconf_once (single_rank 0) false _ H) as (_ & _ & R).
  apply R. vm_compute. reflexivity.
Defined.

(** ** The command line *)

(** X8 -- the usage errors.  Once MPI has started, the run depends on the
    command line alone up to the call of alarm: a command line with an
    option that is refused, with no plfsdir operand, or with a port that
    is not positive makes exactly the three MPI calls, prints the usage
    message with the text of the first of these errors and exits with 1;
    every other command line goes on to print the options and to call
    signal and alarm, with the timeout of the command line. *)
Theorem usage_errors (W : world) (NDEBUG : bool) (name : string)
    (opts : list (ascii * string)) (operands : list string)
    (Hinit : status (W 0%nat) = 0) (Hrank : status (W 1%nat) = 0)
    (Hsize : status (W 2%nat) = 0) :
  let r := main W NDEBUG name opts operands initial in
  let rank := Fmt.to_int (out (W 1%nat)) in
  let size := Fmt.to_int (out (W 2%nat)) in
  let gv := parameters rank size opts operands in
  let mpi := [Call MPI_Init (W 0%nat); Call MPI_Comm_rank (W 1%nat);
              Call MPI_Comm_size (W 2%nat)] in
  (forall msg, refusal rank size opts operands = Some msg ->
     outcome_of r = Exited 1 /\ events_of r = mpi ++ usage_text name msg) /\
  (refusal rank size opts operands = None ->
     prefix (mpi ++ map Stdout (printopts_text name gv) ++
             [Call signal_SIGALRM (W 3%nat);
              Call (alarm (Fmt.to_unsigned (timeout gv))) (W 4%nat)])
            (events_of r)) /\
  (operands = [] ->
   snd (options_parse opts (g_defaults rank size)) = None ->
   events_of r = mpi ++ usage_text name (Some "bad args"%string)).
Proof.
  intros r rank size gv mpi.
  pose proof (main_checks_command_line W NDEBUG name opts operands
                Hinit Hrank Hsize) as H.
  unfold wp, command_line_checked in H. cbv zeta in H.
  fold r rank size gv in H.
  split; [|split].
  - intros msg E. rewrite E in H. exact H.
  - intros E. rewrite E in H. exact H.
  - intros -> E.
    assert (refusal rank size opts [] = Some (Some "bad args"%string)) as X
      by (unfold refusal; now rewrite E).
    rewrite X in H. apply H.
Qed.

Lemma usage_errors_witness :
  events_of (main (single_rank 0) true "runner" [("k"%char, "0"%string)]
                  ["plfsdir"%string] initial)
  = [Call MPI_Init (single_rank 0 0%nat);
     Call MPI_Comm_rank (single_rank 0 1%nat);
     Call MPI_Comm_size (single_rank 0 2%nat)]
    ++ usage_text "runner" (Some "bad key size"%string).
Proof.
  pose proof (usage_errors (single_rank 0) true "runner"
                [("k"%char, "0"%string)] ["plfsdir"%string]
                eq_refl eq_refl eq_refl) as (H & _).
  apply (H (Some "bad key size"%string)). reflexivity.
Defined.

(** X9 -- only checked parameters reach the session.  A run of [main]
    that gets as far as its sixth call (the barrier before [write]), and
    so every run that makes a call on a plfsdir handle, works on the
    parameters of the command line, and these have passed every check:
    io size and key size positive, epochs, keys, filter bits, value size,
    background threads and timeout not negative, the port positive.  The
    rank and the size of the job are those MPI reported; no option
    changes them. *)
Theorem session_gets_checked_parameters (W : world) (NDEBUG : bool)
    (name : string) (opts : list (ascii * string)) (operands : list string) :
  let r := main W NDEBUG name opts operands initial in
  let rank := Fmt.to_int (out (W 1%nat)) in
  let size := Fmt.to_int (out (W 2%nat)) in
  let gv := g (state_of r) in
  let reached :=
    gv = parameters rank size opts operands /\
    argv0 (state_of r) = name /\
    (0 < iosz gv /\ 0 <= nepochs gv /\ 0 <= nkeys gv /\ 0 <= filterbits gv /\
     0 < keysz gv /\ 0 <= valsz gv /\ 0 <= bg gv /\ 0 <= timeout gv /\
     0 < bbosport gv) /\
    myrank gv = rank /\ commsz gv = size /\
    operands <> [] in
  ((outcome_of r = Exited 1 /\
    (List.length (calls_of (events_of r)) < 6)%nat) \/
   ((6 <= List.length (calls_of (events_of r)))%nat /\ reached)) /\
  (forall c, In c (calls_of (events_of r)) -> is_session_call c = true ->
     reached).
Proof.
  intros r rank size gv reached.
  destruct (main_whole W NDEBUG name opts operands) as ((Hpre & _) & _ & H).
  fold r rank size gv in Hpre, H.
  assert ((6 <= List.length (calls_of (events_of r)))%nat ->
          gv = parameters rank size opts operands ->
          argv0 (state_of r) = name -> valid_params gv ->
          refusal rank size opts operands = None -> reached) as Reach.
  { intros _ Eg En Hv Hr. unfold reached. split; [exact Eg|].
    split; [exact En|]. split; [exact Hv|].
    rewrite Eg. destruct (parameters_myrank rank size opts operands) as [-> ->].
    split; [reflexivity|]. split; [reflexivity|].
    intros ->. unfold refusal in Hr.
    destruct (snd (options_parse opts (g_defaults rank size))); discriminate. }
  split.
  - destruct H as [H|(H6 & Eg & En & Hv & _ & Hr & _)]; [now left|].
    right. split; [exact H6 | now apply Reach].
  - intros c Hin Hs.
    destruct H as [(_ & Hlt)|(H6 & Eg & En & Hv & _ & Hr & _)];
      [|now apply Reach].
    apply (short_run_calls gv _ _ c Hpre Hlt), startup_calls_plain in Hin.
    destruct Hin as [Hin _]. congruence.
Qed.

(** ** Assertions *)

(** X10 -- the one failed assertion.  A run of [main] ends in a failed
    assertion only in a debug build, with at least one epoch to write, when
    deltafs_plfsdir_create_handle returned NULL: the result of that call is
    not tested, the setup goes on to the open, and the assertion of the
    first writepoch fails before anything is appended.  Conversely, in
    such a build and with such parameters, a run in which create_handle
    returned NULL ends with exit(1) or in the failed assertion, never with
    exit(0).  A build with NDEBUG (the assertions compiled out) always
    ends with exit(0) or exit(1); neither build ever asks std::string for
    a negative size. *)
Theorem assertion_fails_on_null_handle (W : world) (NDEBUG : bool)
    (name : string) (opts : list (ascii * string)) (operands : list string) :
  let r := main W NDEBUG name opts operands initial in
  let gv := g (state_of r) in
  (outcome_of r = Aborted ->
   NDEBUG = false /\ 0 < nepochs gv /\
   calls_of (events_of r)
     = startup_calls (Fmt.to_unsigned (timeout gv)) ++ setup_calls gv /\
   exists r0,
     In (Call (deltafs_plfsdir_create_handle (descriptor gv)) r0)
        (events_of r) /\
     handle r0 = 0) /\
  (NDEBUG = false -> 0 < nepochs gv ->
   forall c r0,
     In (Call (deltafs_plfsdir_create_handle c) r0) (events_of r) ->
     handle r0 = 0 ->
     outcome_of r = Exited 1 \/ outcome_of r = Aborted) /\
  (NDEBUG = true -> outcome_of r = Exited 0 \/ outcome_of r = Exited 1) /\
  ((6 <= List.length (calls_of (events_of r)))%nat -> 0 <= valsz gv).
Proof.
  intros r gv.
  destruct (main_whole W NDEBUG name opts operands) as (_ & _ & H).
  fold r gv in H.
  pose proof (main_ends W NDEBUG name opts operands) as E.
  cbv zeta in E. fold r in E.
  assert (outcome_of r = Aborted ->
          NDEBUG = false /\ 0 < nepochs gv /\
          calls_of (events_of r)
            = startup_calls (Fmt.to_unsigned (timeout gv)) ++ setup_calls gv /\
          exists r0,
            In (Call (deltafs_plfsdir_create_handle (descriptor gv)) r0)
               (events_of r) /\
            handle r0 = 0) as Ab.
  { intros Ho.
    destruct H as [(H1 & _)|(_ & _ & _ & _ & _ & _ & H)];
      [congruence | exact (H Ho)]. }
  split; [exact Ab|]. split; [|split].
  - intros -> Hep c r0 Hin Hnull.
    destruct E as [E|[E|E]]; [|now left|now right].
    right. apply (main_null_handle W name opts operands c r0 Hin Hnull Hep).
    subst r. rewrite E. discriminate.
  - intros Hn. destruct E as [E|[E|E]]; [now left | now right|].
    destruct (Ab E) as [X _]. congruence.
  - intros H6. destruct H as [(_ & Hlt)|(_ & _ & _ & Hv & _)]; [lia|].
    apply Hv.
Qed.

(** ** Whole runs *)

(** X11 -- the calls of a run, whatever the collaborators answer.  In
    every world the calls of [main] are the first calls of one fixed
    sequence, determined by the parameters alone, and all of it when the
    process exits with 0: MPI_Init, MPI_Comm_rank, MPI_Comm_size, signal,
    alarm and the barrier; the setup; the epochs, finish and the release
    of the handle; MPI_Finalize.  In the setup, deltafs_env_init and
    deltafs_plfsdir_set_env are called only when the bbos flag is set,
    deltafs_tp_init (with the number of threads asked for) and
    deltafs_plfsdir_set_thread_pool only when background threads are asked
    for; the handle is created from the descriptor of the parameters and
    opened on the plfsdir of the command line. *)
Theorem calls_of_every_run (W : world) (NDEBUG : bool) (name : string)
    (opts : list (ascii * string)) (operands : list string) :
  let r := main W NDEBUG name opts operands initial in
  let gv := g (state_of r) in
  let cs := calls_of (events_of r) in
  prefix cs (main_calls gv (setup_calls gv)) /\
  (outcome_of r = Exited 0 -> cs = main_calls gv (setup_calls gv)) /\
  (forall n l x, In (deltafs_env_init n l x) cs ->
     bbos gv <> 0 /\ n = "bbos"%string /\ l = "bmi+tcp"%string /\
     x = Fmt.take 49 ("bmi+tcp://" ++ bboshostname gv ++ ":"
                        ++ Fmt.itoa (bbosport gv))%string) /\
  (In deltafs_plfsdir_set_env cs -> bbos gv <> 0) /\
  (forall n, In (deltafs_tp_init n) cs -> bg gv <> 0 /\ n = bg gv) /\
  (In deltafs_plfsdir_set_thread_pool cs -> bg gv <> 0) /\
  (forall c, In (deltafs_plfsdir_create_handle c) cs -> c = descriptor gv) /\
  (forall d, In (deltafs_plfsdir_open d) cs -> d = dirname gv).
Proof.
  intros r gv cs.
  destruct (main_whole W NDEBUG name opts operands) as ((Hpre & Hall) & _).
  fold r gv cs in Hpre, Hall.
  assert (forall c, In c cs -> is_setup_call c = true ->
                    In c (setup_calls gv)) as S.
  { intros c Hin Hs. apply main_calls_setup; [|exact Hs].
    apply (prefix_in _ _ _ Hpre Hin). }
  split; [exact Hpre|]. split; [exact Hall|].
  split; [|split; [|split; [|split; [|split]]]].
  - intros n l x Hin.
    destruct (setup_calls_members gv _ (S _ Hin eq_refl)) as (Hb & -> & -> & ->).
    split; [exact Hb|]. split; [reflexivity|]. split; [reflexivity|].
    rewrite sized_take by lia. reflexivity.
  - intros Hin. exact (setup_calls_members gv _ (S _ Hin eq_refl)).
  - intros n Hin. exact (setup_calls_members gv _ (S _ Hin eq_refl)).
  - intros Hin. exact (setup_calls_members gv _ (S _ Hin eq_refl)).
  - intros c Hin. exact (setup_calls_members gv _ (S _ Hin eq_refl)).
  - intros d Hin. exact (setup_calls_members gv _ (S _ Hin eq_refl)).
Qed.

(** X12 -- an error stops the run at once.  Whenever a call whose result
    the program tests reports an error (a status that is not 0 from
    MPI_Init, MPI_Comm_rank, MPI_Comm_size, the barrier of an epoch, open,
    append, epoch_flush or finish; a NULL from deltafs_env_init or
    deltafs_tp_init), the three pieces of the complaint are all that
    follows: no further call is made, not even MPI_Finalize or the release
    of the handle, and the process exits with 1.  The one call left out is
    the barrier of [main] itself, the sixth call of the run, whose result
    is not looked at. *)
Theorem errors_stop_the_run (W : world) (NDEBUG : bool) (name : string)
    (opts : list (ascii * string)) (operands : list string)
    (t0 : list event) (c : call) (r0 : response) (t1 : list event)
    (Hrun : events_of (main W NDEBUG name opts operands initial)
            = t0 ++ Call c r0 :: t1)
    (Hfailed : failed c r0 = true)
    (Hsixth : List.length (calls_of t0) <> 5%nat) :
  outcome_of (main W NDEBUG name opts operands initial) = Exited 1 /\
  (exists msg,
     t1 = complaint (argv0 (state_of (main W NDEBUG name opts operands initial)))
                    msg) /\
  calls_of (events_of (main W NDEBUG name opts operands initial))
  = calls_of t0 ++ [c].
Proof.
  pose proof (main_stops W NDEBUG name opts operands) as H.
  unfold wp, stops_at_error, stops_from in H.
  destruct (H t0 c r0 t1 Hrun Hfailed Hsixth) as (Ho & msg & Ht).
  split; [exact Ho|]. split; [now exists msg|].
  rewrite Hrun, calls_of_app, calls_of_call, Ht. reflexivity.
Qed.

Lemma errors_stop_the_run_witness :
  let r := main (failing_at 8) true "runner" scenario_opts
                ["plfsdir"%string] initial in
  outcome_of r = Exited 1 /\
  (exists msg, skipn 26 (events_of r) = complaint (argv0 (state_of r)) msg) /\
  calls_of (events_of r)
  = calls_of (firstn 25 (events_of r)) ++ [deltafs_plfsdir_open "plfsdir"].
Proof.
  apply (errors_stop_the_run (failing_at 8) true "runner" scenario_opts
           ["plfsdir"%string]
           (firstn 25 (events_of (main (failing_at 8) true "runner"
                                   scenario_opts ["plfsdir"%string] initial)))
           (deltafs_plfsdir_open "plfsdir") (failing_at 8 8%nat)).
  - vm_compute. reflexivity.
  - reflexivity.
  - vm_compute. discriminate.
Defined.

(** X13 -- what a run prints on stdout.  In every world the standard
    output of [main] is the beginning of one fixed text, and all of it
    when the process exits with 0: the options as printopts lists them;
    "test begins ..." if the run is verbose and on rank 0; the descriptor
    if the build is a debug build; "all done!" and "bye" if the run is
    verbose and on rank 0.  Hence a release build that is not verbose, or
    not on rank 0, prints the options and nothing else. *)
Theorem stdout_of_every_run (W : world) (NDEBUG : bool) (name : string)
    (opts : list (ascii * string)) (operands : list string) :
  let r := main W NDEBUG name opts operands initial in
  let gv := g (state_of r) in
  let nm := argv0 (state_of r) in
  let verbose := negb (v gv =? 0) && (myrank gv =? 0) in
  let text :=
    printopts_text nm gv ++
    (if verbose then info_text "test begins ..." else []) ++
    (if NDEBUG then [] else info_text (descriptor gv)) ++
    (if verbose then info_text "all done!" ++ info_text "bye" else []) in
  prefix (stdout_of (events_of r)) text /\
  (outcome_of r = Exited 0 -> stdout_of (events_of r) = text /\ nm = name) /\
  (NDEBUG = true -> verbose = false ->
   prefix (stdout_of (events_of r)) (printopts_text nm gv)).
Proof.
  intros r gv nm verbose text.
  destruct (main_whole W NDEBUG name opts operands) as (_ & (Hpre & Hall) & H).
  fold r gv nm in Hpre, Hall, H.
  assert (expected_stdout NDEBUG nm gv = text) as E.
  { unfold expected_stdout, prologue_stdout, chatty, text.
    fold verbose. now rewrite <- app_assoc. }
  rewrite E in Hpre, Hall.
  split; [exact Hpre|]. split.
  - intros Ho. split; [exact (Hall Ho)|].
    destruct H as [(H1 & _)|(_ & _ & Hn & _)]; [congruence | exact Hn].
  - intros -> V. unfold text in Hpre. rewrite V in Hpre.
    cbn [app] in Hpre. now rewrite app_nil_r in Hpre.
Qed.

(** X14 -- the program's own diagnostics.  The program has three ways to
    report on stderr: the complaint of [complain], the usage message of
    [usage] and the two lines of the alarm handler; each ends in exit(1).
    Of these a run prints at most one, whole, as the last thing it does,
    and it does so exactly when it ends with exit(1): a run that ends
    otherwise has printed no piece of any of them and had no call
    interrupted by the alarm, and a run that ends with exit(1) is some
    events with no piece of them followed by one of the three.  (What
    getopt, a failed assert and the error printer of deltafs write to
    stderr is not part of the trace, see [event], and is not spoken
    of.) *)
Theorem one_diagnostic_at_the_end (W : world) (NDEBUG : bool) (name : string)
    (opts : list (ascii * string)) (operands : list string) :
  let r := main W NDEBUG name opts operands initial in
  (outcome_of r <> Exited 1 /\
   Forall (fun e => is_stderr e = false /\ is_pending e = false) (events_of r)) \/
  (outcome_of r = Exited 1 /\
   exists t0 d,
     events_of r = t0 ++ d /\
     Forall (fun e => is_stderr e = false /\ is_pending e = false) t0 /\
     ((exists nm msg, d = complaint nm msg) \/
      (exists nm msg, d = usage_text nm msg) \/
      (exists c, d = Pending c :: sigalarm_diag))).
Proof.
  intros r.
  assert (forall t, quiet t ->
            Forall (fun e => is_stderr e = false /\ is_pending e = false) t)
    as Q.
  { intros t Hq. unfold quiet in Hq. rewrite Forall_forall in *.
    intros e He. specialize (Hq e He). unfold is_quiet in Hq.
    apply andb_true_iff in Hq as [H1 H2].
    now apply negb_true_iff in H1, H2. }
  pose proof (main_one_diagnostic W NDEBUG name opts operands initial) as H.
  unfold wp, one_diagnostic in H. fold r in H.
  destruct H as [(Ho & Hq)|(Ho & t0 & d & Ht & Hq & Hd)].
  - left. split; [exact Ho | now apply Q].
  - right. split; [exact Ho|]. exists t0, d.
    split; [exact Ht|]. split; [now apply Q | exact Hd].
Qed.

(** ** Counting the records *)

(** X15 -- record accounting.  A run that exits with 0 has made exactly
    nepochs * nkeys appends, nepochs flushes, nepochs + 1 barriers (one in
    [main], one in each epoch), one finish and one release of the handle;
    each epoch below nepochs has exactly nkeys appends and one flush.  In
    every run, complete or not, no epoch has more than nkeys appends or
    more than one flush, an epoch outside 0 .. nepochs - 1 has none, and
    there are never more than nepochs * nkeys appends in all. *)
Theorem record_accounting (W : world) (NDEBUG : bool) (name : string)
    (opts : list (ascii * string)) (operands : list string) :
  let r := main W NDEBUG name opts operands initial in
  let gv := g (state_of r) in
  let cs := calls_of (events_of r) in
  (outcome_of r = Exited 0 ->
   count is_append cs = nepochs gv * nkeys gv /\
   count is_flush cs = nepochs gv /\
   count is_barrier cs = nepochs gv + 1 /\
   count is_finish cs = 1 /\
   count is_free cs = 1 /\
   Z.of_nat (List.length cs)
   = 9 + Z.of_nat (List.length (setup_calls gv))
     + nepochs gv * (nkeys gv + 2) /\
   (forall e, 0 <= e < nepochs gv ->
      count (is_append_of e) cs = nkeys gv /\
      count (is_flush_of e) cs = 1)) /\
  (forall e,
     count (is_append_of e) cs <= Z.max 0 (nkeys gv) /\
     count (is_flush_of e) cs <= 1 /\
     (e < 0 \/ nepochs gv <= e ->
      count (is_append_of e) cs = 0 /\ count (is_flush_of e) cs = 0)) /\
  count is_append cs <= Z.max 0 (nepochs gv) * Z.max 0 (nkeys gv).
Proof.
  intros r gv cs.
  destruct (main_whole W NDEBUG name opts operands) as ((Hpre & Hall) & _ & H).
  fold r gv cs in Hpre, Hall, H.
  split; [|split].
  - intros Ho. rewrite (Hall Ho).
    destruct H as [(H1 & _)|(_ & _ & _ & Hv & _)]; [congruence|].
    destruct Hv as (_ & He & Hk & _).
    destruct (main_calls_counts gv He Hk) as (Ha & Hf & Hb & Hfi & Hfr & Hl).
    repeat (split; [first [assumption | lia]|]).
    intros e Hin. destruct (main_calls_epoch gv e) as [-> ->].
    assert ((0 <=? e) && (e <? Z.of_nat (Z.to_nat (nepochs gv))) = true) as ->.
    { apply andb_true_iff. split; [apply Z.leb_le | apply Z.ltb_lt]; lia. }
    split; lia.
  - intros e.
    pose proof (count_prefix (is_append_of e) _ _ Hpre) as Ha.
    pose proof (count_prefix (is_flush_of e) _ _ Hpre) as Hf.
    pose proof (count_nonneg (is_append_of e) cs) as Na.
    pose proof (count_nonneg (is_flush_of e) cs) as Nf.
    destruct (main_calls_epoch gv e) as [Ea Ef]. rewrite Ea in Ha.
    rewrite Ef in Hf.
    destruct (Z.leb_spec 0 e), (Z.ltb_spec e (Z.of_nat (Z.to_nat (nepochs gv))));
      cbn [andb] in Ha, Hf; repeat split; try lia.
  - pose proof (count_prefix is_append _ _ Hpre) as Ha.
    destruct (main_calls_totals gv) as (Ea & _). rewrite Ea in Ha. lia.
Qed.

Lemma record_accounting_witness :
  let r := main (single_rank 0) true "runner" scenario_opts
                ["plfsdir"%string] initial in
  count is_append (calls_of (events_of r)) = 8 /\
  count is_flush (calls_of (events_of r)) = 2 /\
  count is_barrier (calls_of (events_of r)) = 3.
Proof.
  intros r.
  pose proof (record_accounting (single_rank 0) true "runner" scenario_opts
                ["plfsdir"%string]) as (H & _).
  assert (outcome_of r = Exited 0) as Ho by (vm_compute; reflexivity).
  destruct (H Ho) as (Ha & Hf & Hb & _).
  split; [exact Ha|]. split; [exact Hf | exact Hb].
Defined.

(** X16 -- nothing to write.  With no epochs (-e 0) a run makes, after
    the setup, only the calls finish, release of the handle and
    MPI_Finalize: no append, no flush and no barrier but the one of
    [main]; it never fails an assertion, whatever create_handle returned.
    With no keys (-n 0) every epoch is a barrier and a flush, and no
    append is ever made. *)
Theorem nothing_to_write (W : world) (NDEBUG : bool) (name : string)
    (opts : list (ascii * string)) (operands : list string) :
  let r := main W NDEBUG name opts operands initial in
  let gv := g (state_of r) in
  let cs := calls_of (events_of r) in
  let closing :=
    [deltafs_plfsdir_finish; deltafs_plfsdir_free_handle; MPI_Finalize] in
  (nepochs gv <= 0 ->
   prefix cs (startup_calls (Fmt.to_unsigned (timeout gv))
                ++ setup_calls gv ++ closing) /\
   (outcome_of r = Exited 0 ->
    cs = startup_calls (Fmt.to_unsigned (timeout gv))
           ++ setup_calls gv ++ closing) /\
   outcome_of r <> Aborted /\
   count is_append cs = 0 /\ count is_flush cs = 0 /\
   count is_barrier cs <= 1) /\
  (nkeys gv <= 0 ->
   prefix cs (startup_calls (Fmt.to_unsigned (timeout gv))
                ++ setup_calls gv
                ++ flat_map (fun e => [MPI_Barrier; deltafs_plfsdir_epoch_flush e])
                            (zrange (Z.to_nat (nepochs gv)) 0)
                ++ closing) /\
   count is_append cs = 0).
Proof.
  intros r gv cs closing.
  destruct (main_whole W NDEBUG name opts operands) as ((Hpre & Hall) & _ & H).
  fold r gv cs in Hpre, Hall, H.
  destruct (main_calls_totals gv) as (Ea & Ef & Eb).
  pose proof (count_prefix is_append _ _ Hpre) as Ha.
  pose proof (count_prefix is_flush _ _ Hpre) as Hf.
  pose proof (count_prefix is_barrier _ _ Hpre) as Hb.
  pose proof (count_nonneg is_append cs) as Na.
  pose proof (count_nonneg is_flush cs) as Nf.
  rewrite Ea in Ha. rewrite Ef in Hf. rewrite Eb in Hb.
  split.
  - intros He.
    assert (main_calls gv (setup_calls gv)
            = startup_calls (Fmt.to_unsigned (timeout gv))
                ++ setup_calls gv ++ closing) as E.
    { unfold main_calls, session_calls, epochs_calls.
      replace (Z.to_nat (nepochs gv)) with 0%nat by lia. reflexivity. }
    rewrite E in Hpre, Hall.
    split; [exact Hpre|]. split; [exact Hall|]. split.
    + intros Ho.
      destruct H as [(H1 & _)|(_ & _ & _ & _ & _ & _ & H)]; [congruence|].
      destruct (H Ho) as (_ & Hpos & _). lia.
    + repeat split; lia.
  - intros Hk.
    assert (main_calls gv (setup_calls gv)
            = startup_calls (Fmt.to_unsigned (timeout gv))
                ++ setup_calls gv
                ++ flat_map (fun e => [MPI_Barrier; deltafs_plfsdir_epoch_flush e])
                            (zrange (Z.to_nat (nepochs gv)) 0)
                ++ closing) as E.
    { unfold main_calls, session_calls, epochs_calls.
      rewrite <- !app_assoc. do 3 f_equal.
      apply flat_map_ext. intros e. unfold epoch_calls, append_calls.
      replace (Z.to_nat (nkeys gv)) with 0%nat by lia. reflexivity. }
    rewrite E in Hpre. split; [exact Hpre | lia].
Qed.

(** ** The parts of a run *)

(** X17 -- [main] up to [write].  A run of [main] either ends with
    exit(1) before its sixth call returns, or MPI started, the command
    line passed every check and the barrier returned before the alarm:
    then the run is the three MPI calls, the options on stdout, signal,
    alarm with the timeout, "test begins ..." if verbose on rank 0 and the
    barrier, followed by [write] and the rest of [main], which start with
    no handle, no environment and no thread pool, an empty cf, six calls
    made and the alarm armed unless the timeout is 0. *)
Theorem main_reaches_write (W : world) (NDEBUG : bool) (name : string)
    (opts : list (ascii * string)) (operands : list string) :
  let r := main W NDEBUG name opts operands initial in
  let rank := Fmt.to_int (out (W 1%nat)) in
  let size := Fmt.to_int (out (W 2%nat)) in
  let gv := parameters rank size opts operands in
  let entry :=
    mkstate name 0 0 0 "" (mkbbos_conf "" "") gv
            (if Fmt.to_unsigned (timeout gv) =? 0 then None
             else Some (elapsed W 5 + Fmt.to_unsigned (timeout gv)))
            6 in
  (outcome_of r = Exited 1 /\
   (List.length (calls_of (events_of r)) < 6)%nat) \/
  ((status (W 0%nat) = 0 /\ status (W 1%nat) = 0 /\ status (W 2%nat) = 0) /\
   snd (options_parse opts (g_defaults rank size)) = None /\
   operands <> [] /\ 0 < bbosport gv /\
   (0 < Fmt.to_unsigned (timeout gv) ->
    elapsed W 6 < elapsed W 5 + Fmt.to_unsigned (timeout gv)) /\
   outcome_of r = outcome_of ((write W NDEBUG ;; finish_up W) entry) /\
   state_of r = state_of ((write W NDEBUG ;; finish_up W) entry) /\
   events_of r
   = [Call MPI_Init (W 0%nat); Call MPI_Comm_rank (W 1%nat);
      Call MPI_Comm_size (W 2%nat)] ++
     map Stdout (printopts_text name gv) ++
     [Call signal_SIGALRM (W 3%nat);
      Call (alarm (Fmt.to_unsigned (timeout gv))) (W 4%nat)] ++
     (if negb (v gv =? 0) && (myrank gv =? 0)
      then map Stdout (info_text "test begins ...") else []) ++
     [Call MPI_Barrier (W 5%nat)] ++
     events_of ((write W NDEBUG ;; finish_up W) entry)).
Proof.
  intros r rank size gv entry.
  pose proof (main_decomposed W NDEBUG name opts operands) as D.
  unfold wp, main_parts in D. cbv zeta in D. fold r rank size gv in D.
  destruct D as [(Ho & Hl & _)|(Hs & Hp & Hne & Hport & Hb & Hrun)];
    [left; now split|].
  right. apply with_prefix_parts in Hrun as (Ho & Hst & Ht).
  change (write_entry W name gv) with entry in Ho, Hst, Ht.
  split; [exact Hs|]. split; [exact Hp|]. split; [exact Hne|].
  split; [exact Hport|]. split.
  { intros Hpos. unfold barrier_late in Hb.
    destruct (Z.eqb_spec (Fmt.to_unsigned (timeout gv)) 0); [lia|].
    now apply Z.leb_gt in Hb. }
  split; [exact Ho|]. split; [exact Hst|].
  rewrite Ht. unfold prologue_events, chatty.
  rewrite <- !app_assoc. reflexivity.
Qed.

(** X18 -- [write] up to the first epoch.  Started with no environment
    and no thread pool, [write] either ends with exit(1) during the setup,
    having made some first calls of the setup, or completes the setup
    without an error and without a word on stderr and goes on with the
    epochs from a state in which cf holds the descriptor, dir holds
    whatever deltafs_plfsdir_create_handle returned (NULL included), and
    env and bgp are set exactly if the bbos flag is set and background
    threads were asked for. *)
Theorem write_opens_then_writes (W : world) (NDEBUG : bool) (s : state)
    (Henv : env s = 0) (Hbgp : bgp s = 0) (Hints : gs_ints (g s)) :
  let r := write W NDEBUG s in
  (outcome_of r = Exited 1 /\ g (state_of r) = g s /\
   prefix (calls_of (events_of r)) (setup_calls (g s))) \/
  (exists t0 s1 r0,
     outcome_of r = outcome_of (session W NDEBUG (g s) s1) /\
     state_of r = state_of (session W NDEBUG (g s) s1) /\
     events_of r = t0 ++ events_of (session W NDEBUG (g s) s1) /\
     calls_of t0 = setup_calls (g s) /\
     Forall (fun e => is_failure e = false) t0 /\
     Forall (fun e => is_stderr e = false /\ is_pending e = false) t0 /\
     In (Call (deltafs_plfsdir_create_handle (descriptor (g s))) r0) t0 /\
     dir s1 = handle r0 /\ cf s1 = descriptor (g s) /\
     g s1 = g s /\ deadline s1 = deadline s /\ argv0 s1 = argv0 s /\
     (env s1 = 0 <-> bbos (g s) = 0) /\ (bgp s1 = 0 <-> bg (g s) = 0)).
Proof.
  intros r.
  pose proof (write_decomposed W NDEBUG s Henv Hbgp Hints) as D.
  unfold wp, write_parts in D. fold r in D.
  destruct D as [(Ho & Hg & Hp & _)|(t0 & s1 & Hsd & Hrun)];
    [left; repeat split; assumption|].
  right. apply with_prefix_parts in Hrun as (Ho & Hst & Ht).
  destruct Hsd as (Hc & Hcl & Hq & _ & Hg & Hd & Ha & Hcf & _ &
                   (r0 & Hin & Hdir) & He & Hb).
  exists t0, s1, r0.
  split; [exact Ho|]. split; [exact Hst|]. split; [exact Ht|].
  split; [exact Hc|]. split; [exact Hcl|]. split.
  { unfold quiet in Hq. rewrite Forall_forall in *.
    intros e Hin'. specialize (Hq e Hin'). unfold is_quiet in Hq.
    apply andb_true_iff in Hq as [H1 H2].
    now apply negb_true_iff in H1, H2. }
  repeat (split; [assumption|]). exact Hb.
Qed.

Lemma write_opens_then_writes_witness :
  let s := write_entry (single_rank 0) "runner" (scenario_g "plfsdir") in
  let r := write (single_rank 0) true s in
  (outcome_of r = Exited 1 /\ g (state_of r) = g s /\
   prefix (calls_of (events_of r)) (setup_calls (g s))) \/
  (exists t0 s1 r0,
     outcome_of r = outcome_of (session (single_rank 0) true (g s) s1) /\
     state_of r = state_of (session (single_rank 0) true (g s) s1) /\
     events_of r = t0 ++ events_of (session (single_rank 0) true (g s) s1) /\
     calls_of t0 = setup_calls (g s) /\
     Forall (fun e => is_failure e = false) t0 /\
     Forall (fun e => is_stderr e = false /\ is_pending e = false) t0 /\
     In (Call (deltafs_plfsdir_create_handle (descriptor (g s))) r0) t0 /\
     dir s1 = handle r0 /\ cf s1 = descriptor (g s) /\
     g s1 = g s /\ deadline s1 = deadline s /\ argv0 s1 = argv0 s /\
     (env s1 = 0 <-> bbos (g s) = 0) /\ (bgp s1 = 0 <-> bg (g s) = 0)).
Proof.
  intros s.
  apply (write_opens_then_writes (single_rank 0) true s).
  - reflexivity.
  - reflexivity.
  - cbn. unfold gs_ints, Fmt.int_range. cbn. lia.
Defined.

